(** * avulsion2: the stratigraphic-modelling notebook

    A shallow embedding of [notebooks/avulsion_stratigraphic_modeling.ipynb].
    The notebook is a script over external libraries (geopandas, meanderpy,
    scipy, numpy, shapely, matplotlib, stratigraph, mayavi) and one function
    of its own, [generate_z_coordinates_with_constant].

    - Parts 1 and 2: Python numbers, exceptions, and the notebook's function.
    - Parts 3 and 4: the values the notebook handles and its cells, run top
      to bottom against arbitrary libraries; every call is recorded.
    - Part 5: small stand-in libraries, to run the cells on.
    - Part 6: reading the record of calls, and binary64 rounding written
      out on integers.
    - Parts 7 and 8: lemmas about the function, about binary64 arithmetic
      and about runs.
    - Parts 9 and 10: the claims.
    - Part 11: further properties of the notebook's own code. *)

From Stdlib Require Import ZArith QArith Lqa Lia List Sorted String.
From Stdlib Require Import Floats.
Import ListNotations.

Set Implicit Arguments.
Set Warnings "-register-all,-inexact-float".
Local Open Scope float_scope.

(* ===================================================================== *)
(** * Part 1: Python numbers and exceptions *)
(* ===================================================================== *)

(** The exceptions the notebook's own code and its library calls can raise. *)
Inductive exn : Type :=
| UnboundLocalError (name : string)
| ZeroDivisionError
| IndexError
| NotImplementedError
| TypeError
| ValueError
| LibraryError (callee : string).

(** The outcome of running Python code: a value, or a raised exception. *)
Inductive result (T : Type) : Type :=
| Ok (v : T)
| Raise (e : exn).
Arguments Ok {T} v.
Arguments Raise {T} e.

Definition bind {T U : Type} (r : result T) (k : T -> result U) : result U :=
  match r with
  | Ok v => k v
  | Raise e => Raise e
  end.

Declare Scope py_scope.
Delimit Scope py_scope with py.
Notation "x <- c ;; k" := (bind c (fun x => k))
  (at level 100, c at next level, right associativity) : py_scope.
Local Open Scope py_scope.

(** Python is duck-typed: the notebook's function runs on whatever numeric
    type its bounds have.  [Number] is the interface the function's body
    uses: conversion of a Python [int] in mixed-mode arithmetic, [-], [*],
    true division [/] (which may raise [ZeroDivisionError]) and [<]. *)
Class Number (A : Type) : Type := {
  of_int : Z -> A;
  add : A -> A -> A;
  sub : A -> A -> A;
  mul : A -> A -> A;
  div : A -> A -> result A;
  lt : A -> A -> bool
}.

(** [fractions.Fraction]: exact rational arithmetic; [/] raises on a zero
    divisor. *)
#[export] Instance Fraction : Number Q := {
  of_int := inject_Z;
  add := Qplus;
  sub := Qminus;
  mul := Qmult;
  div := fun a b =>
    if Qeq_bool b 0 then Raise ZeroDivisionError else Ok (a / b)%Q;
  lt := fun a b => negb (Qle_bool b a)
}.

(** [numpy.float64] (what [np.min] and [np.max] return in the notebook):
    IEEE 754 binary64 with round-to-nearest-even.  A Python [int] operand is
    converted to the nearest binary64 value; division by zero yields an
    infinity or a NaN (with a warning) and does not raise. *)
Definition float64_of_int (z : Z) : float :=
  SF2Prim (binary_normalize prec emax z 0 false).

#[export] Instance float64 : Number float := {
  of_int := float64_of_int;
  add := PrimFloat.add;
  sub := PrimFloat.sub;
  mul := PrimFloat.mul;
  div := fun a b => Ok (PrimFloat.div a b);
  lt := PrimFloat.ltb
}.

(** A [float64] that is not a NaN: [v <= v] holds for exactly those. *)
Definition a_number (v : float) : Prop := PrimFloat.leb v v = true.

(** Python's built-ins [min(a, b)] and [max(a, b)] on two arguments: the
    first argument is kept unless the second compares strictly smaller
    (resp. strictly greater, [b > a], which is [a < b] on numbers). *)
Definition py_min {A} `{Number A} (a b : A) : A := if lt b a then b else a.
Definition py_max {A} `{Number A} (a b : A) : A := if lt a b then b else a.

(** [range(start, stop)]. *)
Definition range (start stop : Z) : list Z :=
  map (fun k => start + Z.of_nat k)%Z (seq 0 (Z.to_nat (stop - start))).

(** [len(l)] as a Python [int]. *)
Definition len {T} (l : list T) : Z := Z.of_nat (List.length l).

(** [[v] * n]: list repetition; a count below one gives the empty list. *)
Definition list_repeat {T} (v : T) (n : Z) : list T := repeat v (Z.to_nat n).

(** A [for] loop whose body may raise: the state is threaded through the
    iterations, and the first exception ends the loop. *)
Fixpoint for_each {I S : Type} (items : list I) (body : I -> S -> result S)
    (st : S) : result S :=
  match items with
  | [] => Ok st
  | i :: rest => st' <- body i st ;; for_each rest body st'
  end.

(* ===================================================================== *)
(** * Part 2: [generate_z_coordinates_with_constant] *)
(* ===================================================================== *)

Section GenerateZ.
Context {A : Type} `{Number A}.

(** The function's local variables.  [z_coords] is assigned only inside
    the loop body, so it is unbound until the first iteration ends. *)
Record locals : Type := {
  z_coordinates : list A;
  z_coords : option (list A)
}.

(** The divisor of the ramp expression,
    [len(x_coordinates) - constant_values_count - 1]. *)
Definition ramp_divisor {T} (x_coordinates : list T)
    (constant_values_count : Z) : Z :=
  (len x_coordinates - constant_values_count - 1)%Z.

(** The value [Z] after the clamping line. *)
Definition clamp (lower_bound upper_bound Z0 : A) : A :=
  py_max (py_min Z0 upper_bound) lower_bound.

(** One iteration of the loop body.  [np.asarray(z_coordinates)] is the
    list so far as an array: the same numbers in the same order. *)
Definition loop_body {T} (x_coordinates : list T) (constant_values_count : Z)
    (lower_bound upper_bound : A) (i : Z) (st : locals) : result locals :=
  step <- div (sub upper_bound lower_bound)
              (of_int (ramp_divisor x_coordinates constant_values_count)) ;;
  let Z0 := sub upper_bound (mul (of_int (i - constant_values_count)) step) in
  let Z1 := clamp lower_bound upper_bound Z0 in
  let z_coordinates' := z_coordinates st ++ [Z1] in
  Ok {| z_coordinates := z_coordinates';
        z_coords := Some z_coordinates' |}.

(** The entry that iteration [i] appends once the ramp step is known. *)
Definition ramp_entry (constant_values_count : Z)
    (lower_bound upper_bound step : A) (i : Z) : A :=
  clamp lower_bound upper_bound
    (sub upper_bound (mul (of_int (i - constant_values_count)) step)).

Definition generate_z_coordinates_with_constant {T}
    (x_coordinates y_coordinates : list T) (constant_values_count : Z)
    (lower_bound upper_bound : A) : result (list A) :=
  let st0 :=
    {| z_coordinates :=
         list_repeat upper_bound
           (Z.min constant_values_count (len x_coordinates));
       z_coords := None |} in
  st <- for_each (range constant_values_count (len x_coordinates))
          (loop_body x_coordinates constant_values_count
             lower_bound upper_bound) st0 ;;
  match z_coords st with
  | Some a => Ok a
  | None => Raise (UnboundLocalError "z_coords")
  end.

End GenerateZ.

(* ===================================================================== *)
(** * Part 3: the data the notebook handles *)
(* ===================================================================== *)

(** A one-dimensional [numpy] array of [float64]. *)
Definition ndarray : Type := list float.

(** A three-dimensional [numpy] array: its shape and its elements in C
    order (the last axis varies fastest). *)
Record ndarray3 : Type := {
  shape : Z * Z * Z;
  flat : list float
}.

(** A [shapely] geometry.  A [Point], a [LineString] and a [LinearRing]
    have a coordinate sequence that [.xy] returns; a [Polygon] and the
    multi-part geometries have none. *)
Inductive geometry : Type :=
| Point (coords : list (float * float))
| LineString (coords : list (float * float))
| LinearRing (coords : list (float * float))
| OtherGeometry (geom_type : string).

(** A [GeoDataFrame], seen through its ['geometry'] column. *)
Definition GeoDataFrame : Type := list geometry.

(** A Python scalar: an [int] or a [float]. *)
Inductive scalar : Type :=
| SInt (n : Z)
| SFloat (f : float).

(** [meanderpy.Channel]: the attributes its constructor takes. *)
Module Channel.
Record t : Type := {
  x : ndarray;
  y : ndarray;
  z : ndarray;
  W : scalar;
  D : scalar
}.
End Channel.

(** [meanderpy.ChannelBelt]: the attributes its constructor takes. *)
Module ChannelBelt.
Record t : Type := {
  channels : list Channel.t;
  cutoffs : list Channel.t;
  cl_times : list float;
  cutoff_times : list float
}.
End ChannelBelt.

(** [meanderpy.ChannelBelt3D], as far as the notebook reads it. *)
Module ChannelBelt3D.
Record t : Type := {
  strat : ndarray3;
  topo : ndarray3;
  facies : ndarray
}.
End ChannelBelt3D.

(** [chb.channels.append(ch)]. *)
Definition channels_append (chb : ChannelBelt.t) (ch : Channel.t)
    : ChannelBelt.t :=
  {| ChannelBelt.channels := ChannelBelt.channels chb ++ [ch];
     ChannelBelt.cutoffs := ChannelBelt.cutoffs chb;
     ChannelBelt.cl_times := ChannelBelt.cl_times chb;
     ChannelBelt.cutoff_times := ChannelBelt.cutoff_times chb |}.

(** Python values that cross the boundary between the notebook and the
    libraries. *)
Inductive pyval : Type :=
| PNone
| PBool (b : bool)
| PInt (n : Z)
| PFloat (f : float)
| PStr (s : string)
| PList (l : list pyval)
| PTuple (l : list pyval)
| PArray (a : ndarray)
| PArray3 (a : ndarray3)
| PGeometry (g : geometry)
| PGeoDataFrame (g : GeoDataFrame)
| PChannel (c : Channel.t)
| PChannelBelt (b : ChannelBelt.t)
| PChannelBelt3D (m : ChannelBelt3D.t)
| PObject (cls : string).

(** Where the code of a callee lives. *)
Inductive library : Type :=
| geopandas | meanderpy | numpy | scipy | shapely
| matplotlib | stratigraph | mayavi.

Inductive origin : Type :=
| External (l : library)      (* an installed third-party package *)
| Builtin                     (* the interpreter: [print], [round], imports *)
| InRepo.                     (* a function defined in the notebook *)

(** An argument as Python's calling convention passes it. *)
Inductive arg : Type :=
| Pos (v : pyval)
| Kw (name : string) (v : pyval).

(** One call the notebook makes. *)
Record call : Type := {
  origin_of : origin;
  callee : string;
  receiver : option pyval;    (* the object of a method call *)
  args : list arg
}.

(** The positional arguments of a call. *)
Definition positional (c : call) : list pyval :=
  flat_map (fun a => match a with Pos v => [v] | Kw _ _ => [] end) (args c).

(** The installed libraries.  A library answers a call with a value or an
    exception; the answer may depend on the calls made before it (files
    written, figures opened). *)
Definition Library : Type := list call -> call -> result pyval.

(** ** Indexing, unpacking and conversions *)

(** [l[i]], negative indices counting from the end. *)
Definition index {T} (l : list T) (i : Z) : result T :=
  let j := if (i <? 0)%Z then (i + len l)%Z else i in
  if (j <? 0)%Z then Raise IndexError
  else match nth_error l (Z.to_nat j) with
       | Some v => Ok v
       | None => Raise IndexError
       end.

(** [enumerate(l)]. *)
Definition enumerate {T} (l : list T) : list (Z * T) :=
  combine (map Z.of_nat (seq 0 (List.length l))) l.

(** [zip(a, b)]. *)
Definition zip {T U} (a : list T) (b : list U) : list (T * U) := combine a b.

(** [line.xy]: the coordinate sequence as two arrays. *)
Definition xy (g : geometry) : result (ndarray * ndarray) :=
  match g with
  | Point coords | LineString coords | LinearRing coords =>
      Ok (map fst coords, map snd coords)
  | OtherGeometry _ => Raise NotImplementedError
  end.

(** Using a library's answer at the type the notebook expects. *)
Definition as_array (v : pyval) : result ndarray :=
  match v with PArray a => Ok a | _ => Raise TypeError end.
Definition as_float (v : pyval) : result float :=
  match v with PFloat f => Ok f | _ => Raise TypeError end.
Definition as_gdf (v : pyval) : result GeoDataFrame :=
  match v with PGeoDataFrame g => Ok g | _ => Raise TypeError end.
Definition as_channel (v : pyval) : result Channel.t :=
  match v with PChannel c => Ok c | _ => Raise TypeError end.
Definition as_belt (v : pyval) : result ChannelBelt.t :=
  match v with PChannelBelt b => Ok b | _ => Raise TypeError end.
Definition as_model (v : pyval) : result ChannelBelt3D.t :=
  match v with PChannelBelt3D m => Ok m | _ => Raise TypeError end.

(** Tuple unpacking, [a, b, ... = v], into exactly [n] targets. *)
Definition unpack (n : nat) (v : pyval) : result (list pyval) :=
  match v with
  | PTuple l => if (List.length l =? n)%nat then Ok l else Raise ValueError
  | _ => Raise TypeError
  end.

(** ** [numpy] element-wise arithmetic *)

(** [a - n] and [a + n] for an array [a] and a Python [int] [n]. *)
Definition array_sub_int {A} `{Number A} (a : list A) (n : Z) : list A :=
  map (fun v => sub v (of_int n)) a.
Definition array_add_int {A} `{Number A} (a : list A) (n : Z) : list A :=
  map (fun v => add v (of_int n)) a.

(** [f * a] for a [float] [f] and an array [a]. *)
Definition float_mul_array (f : float) (a : ndarray) : ndarray :=
  map (fun v => PrimFloat.mul f v) a.

(** What [np.ones((n,))], [np.ones_like(a)], [np.flip(a)] and
    [np.zeros((d0, d1, d2))] return. *)
Definition ones (n : Z) : ndarray := list_repeat 1%float n.
Definition ones_like {T} (a : list T) : ndarray := map (fun _ => 1%float) a.
Definition flip (a : ndarray) : ndarray := rev a.
Definition zeros3 (d0 d1 d2 : Z) : ndarray3 :=
  {| shape := (d0, d1, d2); flat := list_repeat 0%float (d0 * d1 * d2) |}.

(** [a[:, :, i] = v] for [0 <= i]. *)
Definition set_last_axis (a : ndarray3) (i : Z) (v : float) : result ndarray3 :=
  let '(_, _, d2) := shape a in
  if ((0 <=? i) && (i <? d2))%Z then
    Ok {| shape := shape a;
          flat := map (fun pv => if (fst pv mod d2 =? i)%Z then v else snd pv)
                      (enumerate (flat a)) |}
  else Raise IndexError.

(** The built-ins [min(a)] and [max(a)] over the elements of an array. *)
Definition min_of (a : ndarray) : result float :=
  match a with
  | [] => Raise ValueError
  | v :: rest => Ok (fold_left py_min rest v)
  end.
Definition max_of (a : ndarray) : result float :=
  match a with
  | [] => Raise ValueError
  | v :: rest => Ok (fold_left py_max rest v)
  end.

(* ===================================================================== *)
(** * Part 4: running the notebook *)
(* ===================================================================== *)

(** Cells run top to bottom.  A cell's code runs against the calls made so
    far and either yields a value or raises; the call that raised is the
    last one recorded. *)
Definition M (T : Type) : Type := list call -> result T * list call.

Definition ret {T} (v : T) : M T := fun h => (Ok v, h).

Definition bindM {T U} (m : M T) (k : T -> M U) : M U :=
  fun h =>
    match m h with
    | (Ok v, h') => k v h'
    | (Raise e, h') => (Raise e, h')
    end.

(** A computation of the notebook's own that calls nothing. *)
Definition lift {T} (r : result T) : M T := fun h => (r, h).

Declare Scope nb_scope.
Delimit Scope nb_scope with nb.
Notation "x <- c ;; k" := (bindM c (fun x => k))
  (at level 100, c at next level, right associativity) : nb_scope.
Notation "' p <- c ;; k" := (bindM c (fun x => let 'p := x in k))
  (at level 100, p pattern, c at next level, right associativity) : nb_scope.
Notation "c ;; k" := (bindM c (fun _ => k))
  (at level 100, right associativity) : nb_scope.

(** A [for] loop over [items] whose body makes calls. *)
Fixpoint for_eachM {I} (items : list I) (body : I -> M unit) : M unit :=
  match items with
  | [] => ret tt
  | i :: rest => bindM (body i) (fun _ => for_eachM rest body)
  end.

(** Call sites. *)
Definition fn (l : library) (name : string) (a : list arg) : call :=
  {| origin_of := External l; callee := name; receiver := None; args := a |}.
Definition method (l : library) (self : pyval) (name : string)
    (a : list arg) : call :=
  {| origin_of := External l; callee := name; receiver := Some self;
     args := a |}.
Definition builtin (name : string) (a : list arg) : call :=
  {| origin_of := Builtin; callee := name; receiver := None; args := a |}.

(** ** The notebook's parameters (cell 8, as far as they are literals) *)

Definition centerline_dir : string := "../modeling/centerlines/".

Definition W : Z := 50.
Definition D : float := 2.0.
Definition pad : Z := 10.
Definition deltas : float := 5.0.
Definition nit : Z := 2000.
Definition depths : ndarray := float_mul_array D (ones nit).
Definition Cfs : ndarray := float_mul_array 0.01 (ones nit).
Definition crdist : float := 2.0 * float64_of_int W.
Definition kl : float :=
  float64_of_int 2 / (float64_of_int (365 * 24 * 60) * 60.0).
Definition kv : float := 1.0E-12.
Definition dt : float :=
  float64_of_int 2 * 0.05 * float64_of_int 365 * float64_of_int 24
  * float64_of_int 60 * 60.0.
Definition dens : Z := 1000.
Definition saved_ts : Z := 200.
Definition Sl : float := 0.0008.
Definition t1 : Z := 1.
Definition t2 : Z := 1.
Definition t3 : Z := 1.
Definition aggr_factor : float := 6.34196e-10.

(** The avulsion node (cell 24). *)
Definition N : Z := 225.

(** The camera (cell 41). *)
Definition azimuth : float := -151.0187062044975.
Definition elevation : float := 64.25212774391869.
Definition distance : float := 3043.97657018737.
Definition focalpoint : ndarray :=
  [927.38717861; 1166.20012347; -222.73301967]%float.

(** A Python list of floats. *)
Definition floats (l : list float) : pyval := PList (map PFloat l).

Section Notebook.
Variable lib : Library.

Local Open Scope nb_scope.

(** A call into a library, answered by the library. *)
Definition call_lib (c : call) : M pyval := fun h => (lib h c, h ++ [c]).

(** A call into a library whose value on success the model knows. *)
Definition known {T} (c : call) (v : T) : M T := call_lib c ;; ret v.

(** A call of a function the notebook defines: its body is run here. *)
Definition call_local {T} (c : call) (body : result T) : M T :=
  fun h => (body, h ++ [c]).

Definition call_array (c : call) : M ndarray :=
  v <- call_lib c ;; lift (as_array v).
Definition call_float (c : call) : M float :=
  v <- call_lib c ;; lift (as_float v).
Definition call_gdf (c : call) : M GeoDataFrame :=
  v <- call_lib c ;; lift (as_gdf v).
Definition call_channel (c : call) : M Channel.t :=
  v <- call_lib c ;; lift (as_channel v).

(** A method that updates its object in place: the answer is the object
    after the call. *)
Definition call_belt (c : call) : M ChannelBelt.t :=
  v <- call_lib c ;; lift (as_belt v).

(** A call whose value the notebook drops. *)
Definition call_void (c : call) : M unit := call_lib c ;; ret tt.

(** A call whose value is unpacked into [n] targets. *)
Definition call_tuple (n : nat) (c : call) : M (list pyval) :=
  v <- call_lib c ;; lift (unpack n v).

Definition py_import (module : string) : M unit :=
  call_void (builtin "__import__" [Pos (PStr module)]).

(** Cell 4. *)
Definition cell_04 : M unit :=
  py_import "meanderpy" ;;
  py_import "matplotlib.pyplot" ;;
  py_import "numpy" ;;
  py_import "pandas" ;;
  py_import "scipy" ;;
  py_import "blockdiagram" ;;
  py_import "stratigraph" ;;
  py_import "geopandas" ;;
  py_import "shapely.geometry" ;;
  call_void (builtin "%matplotlib" [Pos (PStr "qt")]).

(** [x,y,z,_,_,_,_,_ = mp.resample_centerline(x,y,z,5.0)]. *)
Definition resample_centerline (x y z : ndarray) (ds : float)
    : M (ndarray * ndarray * ndarray) :=
  l <- call_tuple 8 (fn meanderpy "resample_centerline"
                   [Pos (PArray x); Pos (PArray y); Pos (PArray z);
                    Pos (PFloat ds)]) ;;
  x' <- lift (as_array (nth 0 l PNone)) ;;
  y' <- lift (as_array (nth 1 l PNone)) ;;
  z' <- lift (as_array (nth 2 l PNone)) ;;
  ret (x', y', z').

Definition savgol_filter (a : ndarray) (window_size order : Z) : M ndarray :=
  call_array (fn scipy "signal.savgol_filter"
                [Pos (PArray a); Pos (PInt window_size); Pos (PInt order)]).

Definition np_flip (a : ndarray) : M ndarray :=
  known (fn numpy "flip" [Pos (PArray a)]) (flip a).

Definition np_ones (n : Z) : M ndarray :=
  known (fn numpy "ones" [Pos (PTuple [PInt n])]) (ones n).

(** [gpd.read_file(path)] followed by [shp['geometry'].iloc[0]] and
    [line.xy]. *)
Definition read_first_line (path : string) : M (ndarray * ndarray) :=
  shp <- call_gdf (fn geopandas "read_file" [Pos (PStr path)]) ;;
  line <- lift (index shp 0) ;;
  lift (xy line).

(** Cell 6: load the T1 centerline. *)
Definition cell_06 : M (ndarray * ndarray * ndarray) :=
  ' (x, y) <- read_first_line (centerline_dir ++ "t1_initial_centerline.shp") ;;
  z <- known (fn numpy "ones_like" [Pos (PArray x)]) (ones_like x) ;;
  ' (x, y, z) <- resample_centerline x y z 5.0 ;;
  x <- np_flip x ;;
  y <- np_flip y ;;
  let x := array_sub_int x 560000 in
  let y := array_sub_int y 4300000 in
  let window_size := 11%Z in
  let order := 2%Z in
  x_smooth <- savgol_filter x window_size order ;;
  y_smooth <- savgol_filter y window_size order ;;
  let x := x_smooth in
  let y := y_smooth in
  ret (x, y, z).

(** Cell 8: the two arrays built with [np.ones]. *)
Definition cell_08 : M unit :=
  np_ones nit ;; np_ones nit ;; ret tt.

Definition mp_Channel (x y z : ndarray) : M Channel.t :=
  call_channel (fn meanderpy "Channel"
                  [Pos (PArray x); Pos (PArray y); Pos (PArray z);
                   Pos (PInt W); Pos (PFloat D)]).

(** Cell 10. *)
Definition cell_10 (x y z : ndarray) : M ChannelBelt.t :=
  ch <- mp_Channel x y z ;;
  call_belt (fn meanderpy "ChannelBelt"
               [Kw "channels" (PList [PChannel ch]); Kw "cutoffs" (PList []);
                Kw "cl_times" (PList [PFloat 0.0]);
                Kw "cutoff_times" (PList [])]).

(** Cells 12 and 30: [chb.migrate(...)]. *)
Definition migrate (chb : ChannelBelt.t) : M ChannelBelt.t :=
  call_belt (method meanderpy (PChannelBelt chb) "migrate"
               [Pos (PInt nit); Pos (PInt saved_ts); Pos (PFloat deltas);
                Pos (PInt pad); Pos (PFloat crdist); Pos (PArray depths);
                Pos (PArray Cfs); Pos (PFloat kl); Pos (PFloat kv);
                Pos (PFloat dt); Pos (PInt dens); Pos (PInt t1);
                Pos (PInt t2); Pos (PInt t3); Pos (PFloat aggr_factor)]).

Definition cell_12 (chb : ChannelBelt.t) : M ChannelBelt.t := migrate chb.

Definition points (coords : list (float * float)) : pyval :=
  PList (map (fun p => PTuple [PFloat (fst p); PFloat (snd p)]) coords).

(** Cells 14 and 32: write the last centerline of the belt to [path]. *)
Definition export_last (chb : ChannelBelt.t) (path : string) : M unit :=
  last <- lift (index (ChannelBelt.channels chb) (-1)) ;;
  final_x <- known (method numpy (PArray (Channel.x last)) "copy" [])
                   (Channel.x last) ;;
  let final_x := array_add_int final_x 560000 in
  last <- lift (index (ChannelBelt.channels chb) (-1)) ;;
  final_y <- known (method numpy (PArray (Channel.y last)) "copy" [])
                   (Channel.y last) ;;
  let final_y := array_add_int final_y 4300000 in
  let coords := zip final_x final_y in
  line_geometry <- known (fn shapely "LineString" [Pos (points coords)])
                         (LineString coords) ;;
  gdf_result <- known (fn geopandas "GeoDataFrame"
                         [Kw "geometry" (PList [PGeometry line_geometry])])
                      [line_geometry] ;;
  call_void (method geopandas (PGeoDataFrame gdf_result) "to_file"
              [Pos (PStr path)]).

Definition output_shapefile_t1 : string :=
  centerline_dir ++ "t1_final_centerline.shp".
Definition cell_14 (chb : ChannelBelt.t) : M unit :=
  export_last chb output_shapefile_t1.

(** Cell 16: the model domain. *)
Definition cell_16 : float * float * float * float :=
  (2789.150971221104, 4802.228898997582,
   2545.097408532824, 4342.6693798509295)%float.

(** Cells 17 and 38: build the three-dimensional model. *)
Definition build_3d_model (chb : ChannelBelt.t)
    (min_x max_x min_y max_y : float) : M ChannelBelt3D.t :=
  ones_ <- np_ones (len (ChannelBelt.channels chb)) ;;
  let h_mud := float_mul_array 1.0 ones_ in
  let dx := 1%Z in
  let diff_scale := (2.0 * float64_of_int W / float64_of_int dx)%float in
  let v_coarse := 10.0%float in
  let v_fine := 0.0%float in
  starttime <- lift (index (ChannelBelt.cl_times chb) 0) ;;
  endtime <- lift (index (ChannelBelt.cl_times chb) (-1)) ;;
  l <- call_tuple 7 (fn meanderpy "build_3d_model"
         [Pos (PChannelBelt chb); Pos (PStr "fluvial");
          Kw "h_mud" (PArray h_mud); Kw "h" (PFloat 4.0); Kw "w" (PInt W);
          Kw "bth" (PFloat 0.0); Kw "dcr" (PFloat 10.0); Kw "dx" (PInt dx);
          Kw "delta_s" (PFloat deltas); Kw "dt" (PFloat dt);
          Kw "starttime" (PFloat starttime); Kw "endtime" (PFloat endtime);
          Kw "diff_scale" (PFloat diff_scale); Kw "v_fine" (PFloat v_fine);
          Kw "v_coarse" (PFloat v_coarse);
          Kw "xmin" (PFloat (min_x - float64_of_int 100));
          Kw "xmax" (PFloat (max_x + float64_of_int 100));
          Kw "ymin" (PFloat (min_y - float64_of_int 100));
          Kw "ymax" (PFloat (max_y + float64_of_int 100))]) ;;
  lift (as_model (nth 0 l PNone)).

(** Cell 19: load the T2 centerline. *)
Definition cell_19 : M (ndarray * ndarray * ndarray) :=
  ' (x, y) <- read_first_line (centerline_dir ++ "t2_initial_centerline.shp") ;;
  z <- known (fn numpy "ones_like" [Pos (PArray x)]) (ones_like x) ;;
  ' (x, y, z) <- resample_centerline x y z 5.0 ;;
  let x := array_sub_int x 560000 in
  let y := array_sub_int y 4300000 in
  let window_size := 31%Z in
  let order := 2%Z in
  x_smooth <- savgol_filter x window_size order ;;
  y_smooth <- savgol_filter y window_size order ;;
  let x := x_smooth in
  let y := y_smooth in
  ret (x, y, z).

(** [fix, ax = plt.subplots()]. *)
Definition subplots : M (pyval * pyval) :=
  l <- call_tuple 2 (fn matplotlib "subplots" []) ;;
  ret (nth 0 l PNone, nth 1 l PNone).

Definition ax_plot (ax : pyval) (a : list arg) : M unit :=
  call_void (method matplotlib ax "plot" a).
Definition ax_text (ax : pyval) (a : list arg) : M unit :=
  call_void (method matplotlib ax "text" a).
Definition plt_legend (a : list arg) : M unit :=
  call_void (fn matplotlib "legend" a).
Definition plt_axis (a : list arg) : M unit :=
  call_void (fn matplotlib "axis" a).
Definition py_round (v : float) (ndigits : Z) : M float :=
  call_float (builtin "round" [Pos (PFloat v); Pos (PInt ndigits)]).

(** Cell 21: plot the centerlines, numbering every fifth node. *)
Definition cell_21 (chb : ChannelBelt.t) (x y : ndarray) : M unit :=
  ' (fix_, ax) <- subplots ;;
  ch0 <- lift (index (ChannelBelt.channels chb) 0) ;;
  ax_plot ax [Pos (PArray (Channel.x ch0)); Pos (PArray (Channel.y ch0));
              Pos (PStr "grey");
              Kw "label" (PStr "Pre-avulsion initial centerline")] ;;
  last <- lift (index (ChannelBelt.channels chb) (-1)) ;;
  ax_plot ax [Pos (PArray (Channel.x last)); Pos (PArray (Channel.y last));
              Pos (PStr "k-");
              Kw "label" (PStr "Post-avulsion initial centerline")] ;;
  ax_plot ax [Pos (PArray x); Pos (PArray y); Pos (PStr "r-");
              Kw "label" (PStr "t2_initial")] ;;
  ax_plot ax [Pos (PArray x); Pos (PArray y); Pos (PStr "k.")] ;;
  for_eachM (enumerate x) (fun '(i, val) =>
    if (i mod 5 =? 0)%Z then
      yi <- lift (index y i) ;;
      ax_text ax [Pos (PFloat val); Pos (PFloat yi); Pos (PInt i)]
    else ret tt) ;;
  plt_legend [] ;;
  plt_axis [Pos (PStr "equal")].

(** Cell 24: the elevations of the T2 centerline. *)
Definition cell_24 (chb : ChannelBelt.t) (x y : ndarray) : M ndarray :=
  ch0 <- lift (index (ChannelBelt.channels chb) 0) ;;
  lower <- call_float (fn numpy "min" [Pos (PArray (Channel.z ch0))]) ;;
  last <- lift (index (ChannelBelt.channels chb) (-1)) ;;
  upper <- call_float (fn numpy "max" [Pos (PArray (Channel.z last))]) ;;
  call_local
    {| origin_of := InRepo;
       callee := "generate_z_coordinates_with_constant";
       receiver := None;
       args := [Pos (PArray x); Pos (PArray y); Pos (PInt N);
                Pos (PFloat lower); Pos (PFloat upper)] |}
    (generate_z_coordinates_with_constant x y N lower upper).

(** The labelling loops of cells 26 and 34:
    [for i, val in enumerate(x): if i % every == 0 [and i > above]: ...]. *)
Definition label_points (ax : pyval) (every : Z) (above : option Z)
    (marker : string) (x y z : ndarray) : M unit :=
  for_eachM (enumerate x) (fun '(i, val) =>
    if ((i mod every =? 0)
        && match above with Some a => a <? i | None => true end)%Z then
      yi <- lift (index y i) ;;
      ax_plot ax [Pos (PFloat val); Pos (PFloat yi); Pos (PStr marker)] ;;
      yi <- lift (index y i) ;;
      zi <- lift (index z i) ;;
      r <- py_round zi 2 ;;
      ax_text ax [Pos (PFloat (val + float64_of_int 10)); Pos (PFloat yi);
                  Pos (PFloat r)]
    else ret tt).

Definition label_channel (ax : pyval) (every : Z) (above : option Z)
    (marker : string) (chb : ChannelBelt.t) (k : Z) : M unit :=
  ch <- lift (index (ChannelBelt.channels chb) k) ;;
  label_points ax every above marker
    (Channel.x ch) (Channel.y ch) (Channel.z ch).

(** Cell 26. *)
Definition cell_26 (chb : ChannelBelt.t) (x y z : ndarray) : M unit :=
  ' (fix_, ax) <- subplots ;;
  ch0 <- lift (index (ChannelBelt.channels chb) 0) ;;
  ax_plot ax [Pos (PArray (Channel.x ch0)); Pos (PArray (Channel.y ch0));
              Pos (PStr "grey"); Kw "linestyle" (PStr "--");
              Kw "label" (PStr "Pre-avulsion initial centerline")] ;;
  last <- lift (index (ChannelBelt.channels chb) (-1)) ;;
  ax_plot ax [Pos (PArray (Channel.x last)); Pos (PArray (Channel.y last));
              Pos (PStr "k-");
              Kw "label" (PStr "Post-avulsion initial centerline")] ;;
  label_channel ax 10 None "k." chb 0 ;;
  label_channel ax 10 (Some 225%Z) "k." chb (-1) ;;
  ax_plot ax [Pos (PArray x); Pos (PArray y); Pos (PStr "g-");
              Kw "label" (PStr "Post-avulsion initial centerline")] ;;
  label_points ax 10 None "k." x y z ;;
  plt_legend [Kw "loc" (PStr "best")] ;;
  plt_axis [Pos (PStr "equal")].

(** Cell 28: the first T2 channel joins the belt. *)
Definition cell_28 (chb : ChannelBelt.t) (x y z : ndarray)
    : M ChannelBelt.t :=
  ch2 <- mp_Channel x y z ;;
  ret (channels_append chb ch2).

(** Cell 30. *)
Definition cell_30 (chb : ChannelBelt.t) : M ChannelBelt.t :=
  chb <- migrate chb ;;
  endtime <- lift (index (ChannelBelt.cl_times chb) (-1)) ;;
  call_void (method meanderpy (PChannelBelt chb) "plot"
              [Pos (PStr "strat"); Pos (PInt 20); Pos (PInt 60);
               Pos (PFloat endtime);
               Pos (PInt (len (ChannelBelt.channels chb)))]) ;;
  ret chb.

Definition output_shapefile_t2 : string :=
  centerline_dir ++ "t2_final_centerline.shp".
Definition cell_32 (chb : ChannelBelt.t) : M unit :=
  export_last chb output_shapefile_t2.

(** [ax.plot(chb.channels[k].x, chb.channels[k].y, color, linestyle=...,
    label=...)]. *)
Definition plot_channel (ax : pyval) (chb : ChannelBelt.t) (k : Z)
    (color style label : string) : M unit :=
  ch <- lift (index (ChannelBelt.channels chb) k) ;;
  ax_plot ax [Pos (PArray (Channel.x ch)); Pos (PArray (Channel.y ch));
              Pos (PStr color); Kw "linestyle" (PStr style);
              Kw "label" (PStr label)].

(** Cell 34. *)
Definition cell_34 (chb : ChannelBelt.t) : M unit :=
  ' (fix_, ax) <- subplots ;;
  plot_channel ax chb 0 "k" "--" "Pre-avulsion initial centerline" ;;
  plot_channel ax chb 9 "k" "-" "Post-avulsion final centerline" ;;
  plot_channel ax chb 10 "g" "--" "Post-avulsion initial centerline" ;;
  plot_channel ax chb (-1) "g" "-" "Post-avulsion final centerline" ;;
  label_channel ax 20 None "k." chb 0 ;;
  label_channel ax 20 (Some 225%Z) "k." chb 9 ;;
  label_channel ax 20 (Some 225%Z) "g." chb 10 ;;
  label_channel ax 20 (Some 225%Z) "g." chb (-1) ;;
  plt_legend [Kw "loc" (PStr "best")] ;;
  plt_axis [Pos (PStr "equal")].

(** Cell 36: the bounding box of all centerlines. *)
Definition bounding_box (chb : ChannelBelt.t)
    : result (float * float * float * float) :=
  (ch0 <- index (ChannelBelt.channels chb) 0 ;;
   min_x <- min_of (Channel.x ch0) ;;
   max_x <- max_of (Channel.x ch0) ;;
   min_y <- min_of (Channel.y ch0) ;;
   max_y <- max_of (Channel.y ch0) ;;
   for_each (ChannelBelt.channels chb)
     (fun channel '(min_x, max_x, min_y, max_y) =>
        a <- min_of (Channel.x channel) ;;
        b <- max_of (Channel.x channel) ;;
        c <- min_of (Channel.y channel) ;;
        d <- max_of (Channel.y channel) ;;
        Ok (py_min min_x a, py_max max_x b, py_min min_y c, py_max max_y d))
     (min_x, max_x, min_y, max_y))%py.

Definition py_print (label : string) (v : float) : M unit :=
  call_void (builtin "print" [Pos (PStr label); Pos (PFloat v)]).

Definition cell_36 (chb : ChannelBelt.t)
    : M (float * float * float * float) :=
  ' (min_x, max_x, min_y, max_y) <- lift (bounding_box chb) ;;
  py_print "Absolute min x:" min_x ;;
  py_print "Absolute max x:" max_x ;;
  py_print "Absolute min y:" min_y ;;
  py_print "Absolute max y:" max_y ;;
  ret (min_x, max_x, min_y, max_y).

(** Cell 40: [from mayavi import mlab]. *)
Definition cell_40 : M unit := py_import "mayavi".

(** Cell 41: the camera; [focalpoint] is built with [np.array]. *)
Definition cell_41 : M unit :=
  known (fn numpy "array" [Pos (floats focalpoint)]) tt.

(** Cells 43 and 46: spread the facies codes over a volume. *)
Definition facies_volume (m : ChannelBelt3D.t) : M ndarray3 :=
  let '(s0, s1, s2) := shape (ChannelBelt3D.strat m) in
  facies3d <- known (fn numpy "zeros"
                       [Pos (PTuple [PInt s0; PInt s1; PInt (s2 - 1)])])
                    (zeros3 s0 s1 (s2 - 1)) ;;
  lift (for_each (range 0 (len (ChannelBelt3D.facies m)))
          (fun i facies3d =>
             (code <- index (ChannelBelt3D.facies m) i ;;
              set_last_axis facies3d i (code - float64_of_int 1))%py)
          facies3d).

Definition mlab_figure : M unit :=
  call_void (fn mayavi "mlab.figure"
              [Kw "bgcolor" (PTuple [PInt 1; PInt 1; PInt 1])]).

(** Cells 44 and 47: the block diagram; [bottom] stays bound afterwards. *)
Definition block_diagram (m : ChannelBelt3D.t) : M float :=
  mlab_figure ;;
  call_void (fn mayavi "mlab.view"
              [Pos (PFloat azimuth); Pos (PFloat elevation);
               Pos (PFloat distance); Pos (PArray focalpoint)]) ;;
  let dx := 1%Z in
  let ve := 5.0%float in
  lowest <- call_float (fn numpy "min"
                          [Pos (PArray3 (ChannelBelt3D.strat m))]) ;;
  let bottom := (lowest - float64_of_int 2)%float in
  call_void (fn stratigraph "create_block_diagram"
              [Pos (PArray3 (ChannelBelt3D.strat m));
               Kw "dx" (PInt dx); Kw "ve" (PFloat ve);
               Kw "bottom" (PFloat bottom); Kw "opacity" (PFloat 1.0);
               Kw "texture" PNone; Kw "sea_level" PNone;
               Kw "xoffset" (PInt 0); Kw "yoffset" (PInt 0);
               Kw "scale" (PInt 1); Kw "ci" PNone;
               Kw "plot_contours" PNone; Kw "topo_min" PNone;
               Kw "topo_max" PNone; Kw "plot_sides" (PBool true);
               Kw "plot_water" (PBool false); Kw "plot_surf" (PBool true);
               Kw "surf_cmap" (PStr "gist_earth");
               Kw "kmeans_colors" PNone]) ;;
  ret bottom.

(** Cells 51, 53 and 56: a cookie section along [xcoords], [ycoords]. *)
Definition random_cookie (m : ChannelBelt3D.t) (facies3d : ndarray3)
    (bottom : float) (xcoords ycoords : list float) : M unit :=
  let colors :=
    PList [PList [PFloat 0.9; PFloat 0.9; PInt 0];
           PList [PFloat 0.5; PFloat 0.25; PInt 0]] in
  mlab_figure ;;
  call_void (fn stratigraph "create_random_cookie"
              [Pos (PArray3 (ChannelBelt3D.strat m));
               Kw "facies" (PArray3 facies3d);
               Kw "topo" (PArray3 (ChannelBelt3D.topo m));
               Kw "scale" (PInt 1); Kw "ve" (PInt 3);
               Kw "color_mode" (PStr "facies"); Kw "colors" colors;
               Kw "colormap" (PStr "gist_earth");
               Kw "x1" (floats (removelast xcoords));
               Kw "x2" (floats (tl xcoords));
               Kw "y1" (floats (removelast ycoords));
               Kw "y2" (floats (tl ycoords));
               Kw "dx" (PFloat 1.0); Kw "bottom" (PFloat bottom);
               Kw "opacity" (PFloat 1.0)]).

(** Cells 50, 52 and 55: the three cookies. *)
Definition cell_50 : list float * list float :=
  ([959.7740262381777; 864.727143292993; 787.9585070680363;
    791.6141564120818; 960.7740262381777],
   [976.5738330112887; 801.1026644971017; 808.4139631851929;
    1024.0972744838812; 980.5738330112887])%float.
Definition cell_52 : list float * list float :=
  ([396.80402725516126; 327.3466897182957; 484.53961151225474;
    543.0300010169838; 395.80402725516126],
   [1148.3893521814302; 1071.6207159564733; 932.7060408827418;
    991.196430387471; 1151.0450015254758])%float.
Definition cell_55 : list float * list float :=
  ([597.8647411776672; 543.0300010169838; 674.633377402624;
    711.1898708430796; 595.2421438014849],
   [534.2402623817757; 318.5569510830876; 303.9343537069053;
    530.5846130377302; 533.8959117258213])%float.

(** The pre-avulsion (T1) pass: cells 4 to 17. *)
Definition pass_t1 : M (ChannelBelt.t * ChannelBelt3D.t) :=
  cell_04 ;;
  ' (x, y, z) <- cell_06 ;;
  cell_08 ;;
  chb <- cell_10 x y z ;;
  chb <- cell_12 chb ;;
  cell_14 chb ;;
  let '(min_x, max_x, min_y, max_y) := cell_16 in
  chb_3d_preAvulsion <- build_3d_model chb min_x max_x min_y max_y ;;
  ret (chb, chb_3d_preAvulsion).

(** The post-avulsion (T2) pass: cells 19 to 38. *)
Definition pass_t2 (chb : ChannelBelt.t) : M ChannelBelt3D.t :=
  ' (x, y, z) <- cell_19 ;;
  cell_21 chb x y ;;
  z <- cell_24 chb x y ;;
  cell_26 chb x y z ;;
  chb <- cell_28 chb x y z ;;
  chb <- cell_30 chb ;;
  cell_32 chb ;;
  cell_34 chb ;;
  ' (min_x, max_x, min_y, max_y) <- cell_36 chb ;;
  build_3d_model chb min_x max_x min_y max_y.

(** The rendering: cells 40 to 56. *)
Definition rendering (chb_3d_preAvulsion chb_3d_postAvulsion
    : ChannelBelt3D.t) : M unit :=
  cell_40 ;;
  cell_41 ;;
  facies3d <- facies_volume chb_3d_preAvulsion ;;
  bottom <- block_diagram chb_3d_preAvulsion ;;
  facies3d <- facies_volume chb_3d_postAvulsion ;;
  bottom <- block_diagram chb_3d_postAvulsion ;;
  let '(xcoords, ycoords) := cell_50 in
  random_cookie chb_3d_postAvulsion facies3d bottom xcoords ycoords ;;
  let '(xcoords, ycoords) := cell_52 in
  random_cookie chb_3d_postAvulsion facies3d bottom xcoords ycoords ;;
  let '(xcoords, ycoords) := cell_55 in
  random_cookie chb_3d_postAvulsion facies3d bottom xcoords ycoords.

(** The whole notebook, run from the top. *)
Definition notebook : M unit :=
  ' (chb, chb_3d_preAvulsion) <- pass_t1 ;;
  chb_3d_postAvulsion <- pass_t2 chb ;;
  rendering chb_3d_preAvulsion chb_3d_postAvulsion.

End Notebook.

(* ===================================================================== *)
(** * Part 5: sample inputs and a small library to run the notebook against *)
(* ===================================================================== *)

(** Sample arguments for [generate_z_coordinates_with_constant]. *)
Definition nodes5 : list Q := [0; 1; 2; 3; 4]%Q.
Definition nodes50 : list float := repeat 0%float 50.
Definition float_max : float := 0x1.fffffffffffffp+1023.

(** Stand-ins for the installed packages, enough to run every cell: the
    shapefiles hold a straight centerline of 240 nodes (and a second
    geometry that is never looked at), resampling and smoothing return
    their input, and each migration adds nine copies of the last channel. *)
Module Demo.

Definition centerline : geometry :=
  LineString
    (map (fun k => (float64_of_int (562800 + 5 * Z.of_nat k),
                    float64_of_int (4302600 + Z.of_nat k)))
         (seq 0 240)).

Definition shapefile : GeoDataFrame :=
  [centerline; OtherGeometry "Polygon"].

Definition keyword (c : call) (name : string) : pyval :=
  match find (fun a => match a with
                       | Kw n _ => String.eqb n name
                       | Pos _ => false
                       end) (args c) with
  | Some (Kw _ v) => v
  | _ => PNone
  end.

Definition the_array (v : pyval) : ndarray :=
  match v with
  | PArray a => a
  | PArray3 a => flat a
  | _ => []
  end.

Definition the_scalar (v : pyval) : scalar :=
  match v with
  | PInt n => SInt n
  | PFloat f => SFloat f
  | _ => SInt 0
  end.

Definition volume : ndarray3 :=
  {| shape := (2, 2, 3)%Z;
     flat := map float64_of_int [0; 1; 2; 0; 1; 3; 0; 2; 3; 0; 1; 2]%Z |}.

Definition model : ChannelBelt3D.t :=
  {| ChannelBelt3D.strat := volume;
     ChannelBelt3D.topo := volume;
     ChannelBelt3D.facies := [1; 2] |}.

Definition migrated (b : ChannelBelt.t) : ChannelBelt.t :=
  match rev (ChannelBelt.channels b), rev (ChannelBelt.cl_times b) with
  | last :: _, t :: _ =>
      {| ChannelBelt.channels := ChannelBelt.channels b ++ repeat last 9;
         ChannelBelt.cutoffs := ChannelBelt.cutoffs b;
         ChannelBelt.cl_times := ChannelBelt.cl_times b ++ repeat (t + dt) 9;
         ChannelBelt.cutoff_times := ChannelBelt.cutoff_times b |}
  | _, _ => b
  end.

Definition lib : Library := fun _ c =>
  let a := positional c in
  let name := callee c in
  if String.eqb name "read_file" then Ok (PGeoDataFrame shapefile)
  else if String.eqb name "resample_centerline" then
    Ok (PTuple [nth 0 a PNone; nth 1 a PNone; nth 2 a PNone;
                PNone; PNone; PNone; PNone; PNone])
  else if String.eqb name "signal.savgol_filter" then Ok (nth 0 a PNone)
  else if String.eqb name "Channel" then
    Ok (PChannel {| Channel.x := the_array (nth 0 a PNone);
                    Channel.y := the_array (nth 1 a PNone);
                    Channel.z := the_array (nth 2 a PNone);
                    Channel.W := the_scalar (nth 3 a PNone);
                    Channel.D := the_scalar (nth 4 a PNone) |})
  else if String.eqb name "ChannelBelt" then
    Ok (PChannelBelt
          {| ChannelBelt.channels :=
               match keyword c "channels" with
               | PList [PChannel ch] => [ch]
               | _ => []
               end;
             ChannelBelt.cutoffs := [];
             ChannelBelt.cl_times := [0];
             ChannelBelt.cutoff_times := [] |})
  else if String.eqb name "migrate" then
    match receiver c with
    | Some (PChannelBelt b) => Ok (PChannelBelt (migrated b))
    | _ => Raise TypeError
    end
  else if String.eqb name "min" then
    match the_array (nth 0 a PNone) with
    | v :: rest => Ok (PFloat (fold_left py_min rest v))
    | [] => Raise ValueError
    end
  else if String.eqb name "max" then
    match the_array (nth 0 a PNone) with
    | v :: rest => Ok (PFloat (fold_left py_max rest v))
    | [] => Raise ValueError
    end
  else if String.eqb name "round" then Ok (nth 0 a PNone)
  else if String.eqb name "subplots" then
    Ok (PTuple [PObject "Figure"; PObject "Axes"])
  else if String.eqb name "build_3d_model" then
    Ok (PTuple [PChannelBelt3D model; keyword c "xmin"; keyword c "xmax";
                keyword c "ymin"; keyword c "ymax"; PNone; PNone])
  else Ok PNone.

Definition channel : Channel.t :=
  {| Channel.x := [1; 2]; Channel.y := [3; 4]; Channel.z := [1; 1];
     Channel.W := SInt W; Channel.D := SFloat D |}.

Definition belt : ChannelBelt.t :=
  {| ChannelBelt.channels := [channel]; ChannelBelt.cutoffs := [];
     ChannelBelt.cl_times := [0]; ChannelBelt.cutoff_times := [] |}.




(** The same installation with centerlines a tenth of a metre from the
    origin of the UTM zone: coordinates far below the two offsets. *)
Definition centerline_near_origin : geometry :=
  LineString
    (map (fun k => ((0.1 + float64_of_int (5 * Z.of_nat k))%float,
                    (0.1 + float64_of_int (Z.of_nat k))%float))
         (seq 0 240)).

Definition lib_near_origin : Library := fun h c =>
  if String.eqb (callee c) "read_file"
  then Ok (PGeoDataFrame [centerline_near_origin])
  else lib h c.

End Demo.

(* ===================================================================== *)
(** * Part 6: reading the record of calls; binary64 rounding on integers *)
(* ===================================================================== *)

(** The stages of the pipeline, in the order the specification lists
    them. *)
Inductive stage : Type :=
| Load | ResampleSmooth | Construct | Migrate | Export | Build3D | Visualize.

Definition stage_rank (s : stage) : Z :=
  match s with
  | Load => 1 | ResampleSmooth => 2 | Construct => 3 | Migrate => 4
  | Export => 5 | Build3D => 6 | Visualize => 7
  end%Z.

Definition stage_eqb (a b : stage) : bool := (stage_rank a =? stage_rank b)%Z.

(** The stage a call belongs to.  Array helpers from [numpy], the
    interpreter's own functions, the two-dimensional [matplotlib] figures
    (cells 21, 26, 30 and 34) and the notebook's own function belong to
    none of the seven stages. *)
Definition stage_of (c : call) : list stage :=
  match origin_of c with
  | External geopandas =>
      if String.eqb (callee c) "read_file" then [Load] else [Export]
  | External shapely => [Export]
  | External scipy => [ResampleSmooth]
  | External meanderpy =>
      if String.eqb (callee c) "resample_centerline" then [ResampleSmooth]
      else if String.eqb (callee c) "Channel" then [Construct]
      else if String.eqb (callee c) "ChannelBelt" then [Construct]
      else if String.eqb (callee c) "migrate" then [Migrate]
      else if String.eqb (callee c) "build_3d_model" then [Build3D]
      else []
  | External stratigraph => [Visualize]
  | External mayavi => [Visualize]
  | External matplotlib => []
  | External numpy => []
  | Builtin => []
  | InRepo => []
  end.

(** Consecutive calls of one stage count once. *)
Fixpoint runs (l : list stage) : list stage :=
  match l with
  | [] => []
  | a :: rest =>
      match rest with
      | b :: _ => if stage_eqb a b then runs rest else a :: runs rest
      | [] => [a]
      end
  end.

Definition stages (log : list call) : list stage :=
  runs (flat_map stage_of log).

(** No stage after a later one. *)
Fixpoint in_order (l : list stage) : bool :=
  match l with
  | [] => true
  | a :: rest =>
      match rest with
      | b :: _ => (stage_rank a <=? stage_rank b)%Z && in_order rest
      | [] => true
      end
  end.

(** One pass over a centerline, and the whole run. *)
Definition one_pass : list stage :=
  [Load; ResampleSmooth; Construct; Migrate; Export; Build3D].
Definition whole_run : list stage := one_pass ++ one_pass ++ [Visualize].

(** The calls that read a file, and the paths that are written. *)
Definition file_read (c : call) : list call :=
  if String.eqb (callee c) "read_file" then [c] else [].
Definition file_written (c : call) : list (list arg) :=
  if String.eqb (callee c) "to_file" then [args c] else [].




(** The same libraries, except that a file read hands over its first
    geometry only. *)
Definition first_geometry_only (lib : Library) : Library := fun h c =>
  match lib h c with
  | Ok (PGeoDataFrame g) => Ok (PGeoDataFrame (firstn 1 g))
  | answer => answer
  end.

(** The arguments of [chb.migrate] (cells 12 and 30). *)
Definition migrate_args : list arg :=
  [Pos (PInt nit); Pos (PInt saved_ts); Pos (PFloat deltas); Pos (PInt pad);
   Pos (PFloat crdist); Pos (PArray depths); Pos (PArray Cfs);
   Pos (PFloat kl); Pos (PFloat kv); Pos (PFloat dt); Pos (PInt dens);
   Pos (PInt t1); Pos (PInt t2); Pos (PInt t3); Pos (PFloat aggr_factor)].

Definition is_keyword (a : arg) : bool :=
  match a with Kw _ _ => true | Pos _ => false end.

(** How the calls that take the physical constants take them. *)
Definition passes_constants (c : call) : Prop :=
  (callee c = "Channel"%string ->
     exists x y z,
       args c = [Pos (PArray x); Pos (PArray y); Pos (PArray z);
                 Pos (PInt W); Pos (PFloat D)])
  /\ (callee c = "migrate"%string -> args c = migrate_args)
  /\ (callee c = "build_3d_model"%string ->
        (exists chb, positional c = [PChannelBelt chb; PStr "fluvial"])
        /\ In (Kw "w" (PInt W)) (args c)
        /\ In (Kw "dt" (PFloat dt)) (args c)).


(** The calls that take physical constants. *)
Definition takes_constants (c : call) : list string :=
  if String.eqb (callee c) "Channel" then [callee c]
  else if String.eqb (callee c) "migrate" then [callee c]
  else if String.eqb (callee c) "build_3d_model" then [callee c]
  else [].



(** The geometry an export writes for a centerline. *)
Definition exported_line (last : Channel.t) : geometry :=
  LineString (zip (array_add_int (Channel.x last) 560000)
                  (array_add_int (Channel.y last) 4300000)).

(** The calls the claims speak of. *)
Definition savgol_call (a : ndarray) (window_size order : Z) : call :=
  fn scipy "signal.savgol_filter"
    [Pos (PArray a); Pos (PInt window_size); Pos (PInt order)].

Definition migrate_call (chb : ChannelBelt.t) : call :=
  method meanderpy (PChannelBelt chb) "migrate" migrate_args.

Definition to_file_call (last : Channel.t) (path : string) : call :=
  method geopandas (PGeoDataFrame [exported_line last]) "to_file"
    [Pos (PStr path)].

Definition elevation_call (x y : ndarray) (lower upper : float) : call :=
  {| origin_of := InRepo;
     callee := "generate_z_coordinates_with_constant";
     receiver := None;
     args := [Pos (PArray x); Pos (PArray y); Pos (PInt N);
              Pos (PFloat lower); Pos (PFloat upper)] |}.

Definition channel_call (x y z : ndarray) : call :=
  fn meanderpy "Channel"
    [Pos (PArray x); Pos (PArray y); Pos (PArray z);
     Pos (PInt W); Pos (PFloat D)].

(** ** The calls of the pipeline, and what became of their answers *)

(** [gpd.read_file(path)] (cells 6 and 19). *)
Definition read_call (path : string) : call :=
  fn geopandas "read_file" [Pos (PStr path)].

(** [np.ones_like(a)] and [mp.resample_centerline(x, y, z, 5.0)] (cells 6
    and 19). *)
Definition ones_like_call (a : ndarray) : call :=
  fn numpy "ones_like" [Pos (PArray a)].

Definition resample_call (x y z : ndarray) : call :=
  fn meanderpy "resample_centerline"
    [Pos (PArray x); Pos (PArray y); Pos (PArray z); Pos (PFloat 5.0)].

(** [np.flip(a)] (cell 6). *)
Definition flip_call (a : ndarray) : call := fn numpy "flip" [Pos (PArray a)].

(** [mp.ChannelBelt(channels=[ch], cutoffs=[], cl_times=[0.0],
    cutoff_times=[])] (cell 10). *)
Definition belt_call (ch : Channel.t) : call :=
  fn meanderpy "ChannelBelt"
    [Kw "channels" (PList [PChannel ch]); Kw "cutoffs" (PList []);
     Kw "cl_times" (PList [PFloat 0.0]); Kw "cutoff_times" (PList [])].

(** The [np.min] and [np.max] calls of cell 24. *)
Definition min_call (a : ndarray) : call := fn numpy "min" [Pos (PArray a)].

Definition max_call (a : ndarray) : call := fn numpy "max" [Pos (PArray a)].

(** Call [c] was made in the run recorded as [log], and the library
    answered [v]. *)
Definition answered (lib : Library) (log : list call) (c : call) (v : pyval)
    : Prop :=
  exists before after, log = before ++ c :: after /\ lib before c = Ok v.

(** The first three arrays of what [mp.resample_centerline] returned. *)
Definition resampled (v : pyval) (x y z : ndarray) : Prop :=
  exists l,
    v = PTuple l /\ List.length l = 8%nat
    /\ nth 0 l PNone = PArray x /\ nth 1 l PNone = PArray y
    /\ nth 2 l PNone = PArray z.

(** Local coordinates: easting less 560000, northing less 4300000. *)
Definition local_x (a : ndarray) : ndarray := map (fun v => v - 560000) a.

Definition local_y (a : ndarray) : ndarray := map (fun v => v - 4300000) a.

(** [a.copy()] (cells 14 and 32). *)
Definition copy_call (a : ndarray) : call := method numpy (PArray a) "copy" [].

(** The points an export writes: the [x] and [y] of a centerline, paired
    in order, with 560000 and 4300000 added. *)
Definition utm_points (last : Channel.t) : list (float * float) :=
  combine (map (fun v => v + 560000) (Channel.x last))
          (map (fun v => v + 4300000) (Channel.y last)).

(** [LineString(zip(x, y))], [gpd.GeoDataFrame(geometry=[line])] and
    [gdf.to_file(path)] (cells 14 and 32). *)
Definition linestring_call (pts : list (float * float)) : call :=
  fn shapely "LineString"
    [Pos (PList (map (fun p => PTuple [PFloat (fst p); PFloat (snd p)]) pts))].

Definition frame_call (g : geometry) : call :=
  fn geopandas "GeoDataFrame" [Kw "geometry" (PList [PGeometry g])].

Definition written_call (last : Channel.t) (path : string) : call :=
  method geopandas (PGeoDataFrame [LineString (utm_points last)]) "to_file"
    [Pos (PStr path)].

(** [np.ones(n)]. *)
Definition ones_call (n : Z) : call :=
  fn numpy "ones" [Pos (PTuple [PInt n])].

(** The [mp.build_3d_model] call of cells 17 and 38, for a belt, a model
    domain and the first and last centerline times. *)
Definition build_call (chb : ChannelBelt.t)
    (domain : float * float * float * float) (starttime endtime : float)
    : call :=
  let '(min_x, max_x, min_y, max_y) := domain in
  fn meanderpy "build_3d_model"
    [Pos (PChannelBelt chb); Pos (PStr "fluvial");
     Kw "h_mud" (PArray (repeat 1%float
                           (List.length (ChannelBelt.channels chb))));
     Kw "h" (PFloat 4.0); Kw "w" (PInt 50);
     Kw "bth" (PFloat 0.0); Kw "dcr" (PFloat 10.0); Kw "dx" (PInt 1);
     Kw "delta_s" (PFloat 5.0); Kw "dt" (PFloat dt);
     Kw "starttime" (PFloat starttime); Kw "endtime" (PFloat endtime);
     Kw "diff_scale" (PFloat 100.0);
     Kw "v_fine" (PFloat 0.0); Kw "v_coarse" (PFloat 10.0);
     Kw "xmin" (PFloat (min_x - 100)); Kw "xmax" (PFloat (max_x + 100));
     Kw "ymin" (PFloat (min_y - 100)); Kw "ymax" (PFloat (max_y + 100))].

(** The model in what [mp.build_3d_model] returned. *)
Definition model_of (v : pyval) (m : ChannelBelt3D.t) : Prop :=
  exists l,
    v = PTuple l /\ List.length l = 7%nat
    /\ nth 0 l PNone = PChannelBelt3D m.

(** The [np.zeros] call of cells 43 and 46. *)
Definition zeros_call (m : ChannelBelt3D.t) : call :=
  let '(s0, s1, s2) := shape (ChannelBelt3D.strat m) in
  fn numpy "zeros" [Pos (PTuple [PInt s0; PInt s1; PInt (s2 - 1)])].

(** One iteration of the loop of cells 43 and 46: layer [i] of the volume
    is set to [facies[i] - 1]. *)
Definition facies_layer (facies : ndarray) (i : Z) (facies3d : ndarray3)
    : result ndarray3 :=
  code <- index facies i ;;
  set_last_axis facies3d i (code - float64_of_int 1).

(** What position [j] of the flat array of a volume with [d2] layers holds
    once the layers below [k] are written. *)
Definition written (facies : ndarray) (d2 k : Z) (j : nat) : float :=
  if (Z.of_nat j mod d2 <? k)%Z
  then nth (Z.to_nat (Z.of_nat j mod d2)) facies 0 - float64_of_int 1
  else 0.

(** A volume of shape [(s0, s1, d2)] whose layers below [k] are written. *)
Definition layers_below (facies : ndarray) (s0 s1 d2 k : Z) (a : ndarray3)
    : Prop :=
  List.length (flat a) = Z.to_nat (s0 * s1 * d2)
  /\ forall j, (j < List.length (flat a))%nat ->
       nth j (flat a) 0 = written facies d2 k j.

(** The loop of cells 43 and 46, on the array [np.zeros] returned. *)
Definition spread_facies (m : ChannelBelt3D.t) (facies3d : ndarray3)
    : result ndarray3 :=
  for_each (range 0 (len (ChannelBelt3D.facies m)))
    (facies_layer (ChannelBelt3D.facies m)) facies3d.

(** What that [np.zeros] call returns. *)
Definition zeros_like_strat (m : ChannelBelt3D.t) : ndarray3 :=
  let '(s0, s1, s2) := shape (ChannelBelt3D.strat m) in
  zeros3 s0 s1 (s2 - 1).

(** The [np.min] call of cells 44 and 47. *)
Definition lowest_call (m : ChannelBelt3D.t) : call :=
  fn numpy "min" [Pos (PArray3 (ChannelBelt3D.strat m))].

(** The [sg.create_random_cookie] call of cells 51, 53 and 56. *)
Definition cookie_call (m : ChannelBelt3D.t) (facies3d : ndarray3)
    (bottom : float) (section : list float * list float) : call :=
  let '(xcoords, ycoords) := section in
  fn stratigraph "create_random_cookie"
    [Pos (PArray3 (ChannelBelt3D.strat m));
     Kw "facies" (PArray3 facies3d);
     Kw "topo" (PArray3 (ChannelBelt3D.topo m));
     Kw "scale" (PInt 1); Kw "ve" (PInt 3);
     Kw "color_mode" (PStr "facies");
     Kw "colors" (PList [PList [PFloat 0.9; PFloat 0.9; PInt 0];
                         PList [PFloat 0.5; PFloat 0.25; PInt 0]]);
     Kw "colormap" (PStr "gist_earth");
     Kw "x1" (floats (removelast xcoords));
     Kw "x2" (floats (tl xcoords));
     Kw "y1" (floats (removelast ycoords));
     Kw "y2" (floats (tl ycoords));
     Kw "dx" (PFloat 1.0); Kw "bottom" (PFloat bottom);
     Kw "opacity" (PFloat 1.0)].

(** The calls that cut a cookie, and those that draw a block diagram. *)
Definition cookies (c : call) : list call :=
  if String.eqb (callee c) "create_random_cookie" then [c] else [].

Definition block_diagrams (c : call) : list pyval :=
  if String.eqb (callee c) "create_block_diagram" then positional c else [].




(** The file at [path] was read, and the coordinates of its first geometry
    were handed to [np.ones_like] and [mp.resample_centerline], which
    returned [xr], [yr] and [zr]. *)
Definition loaded (lib : Library) (log : list call) (path : string)
    (xr yr zr : ndarray) : Prop :=
  exists g line xs ys v,
    answered lib log (read_call path) (PGeoDataFrame g)
    /\ index g 0 = Ok line /\ xy line = Ok (xs, ys)
    /\ In (ones_like_call xs) log
    /\ answered lib log
         (resample_call xs ys (repeat 1%float (List.length xs))) v
    /\ resampled v xr yr zr.

(** [sp.signal.savgol_filter(a, window, 2)] returned [s]. *)
Definition smoothed (lib : Library) (log : list call) (a : ndarray)
    (window : Z) (s : ndarray) : Prop :=
  answered lib log (savgol_call a window 2) (PArray s).

(** The last centerline of [chb] was written to [path]. *)
Definition exported (log : list call) (chb : ChannelBelt.t) (path : string)
    : Prop :=
  exists last,
    index (ChannelBelt.channels chb) (-1) = Ok last
    /\ In (written_call last path) log.

(** [mp.build_3d_model] was called on [chb] over [domain], between the
    first and the last centerline time of [chb], and returned [m]. *)
Definition modelled (lib : Library) (log : list call) (chb : ChannelBelt.t)
    (domain : float * float * float * float) (m : ChannelBelt3D.t) : Prop :=
  exists starttime endtime b,
    index (ChannelBelt.cl_times chb) 0 = Ok starttime
    /\ index (ChannelBelt.cl_times chb) (-1) = Ok endtime
    /\ answered lib log (build_call chb domain starttime endtime) b
    /\ model_of b m.

(** The elevations [z] of the first T2 channel: the notebook's function on
    the T2 centerline, between the [np.min] of the first and the [np.max]
    of the last centerline of [chb]. *)
Definition elevated (lib : Library) (log : list call) (chb : ChannelBelt.t)
    (x y z : ndarray) : Prop :=
  exists ch0 last lower upper,
    index (ChannelBelt.channels chb) 0 = Ok ch0
    /\ index (ChannelBelt.channels chb) (-1) = Ok last
    /\ answered lib log (min_call (Channel.z ch0)) (PFloat lower)
    /\ answered lib log (max_call (Channel.z last)) (PFloat upper)
    /\ In (elevation_call x y lower upper) log
    /\ generate_z_coordinates_with_constant x y 225 lower upper = Ok z.

(** The three cookies were cut from [m], with the facies volume spread
    from [m] and the bottom of [m]'s block diagram. *)
Definition cookies_cut (lib : Library) (log : list call)
    (m : ChannelBelt3D.t) : Prop :=
  exists facies3d lowest,
    spread_facies m (zeros_like_strat m) = Ok facies3d
    /\ answered lib log (lowest_call m) (PFloat lowest)
    /\ flat_map cookies log
       = [cookie_call m facies3d (lowest - 2) cell_50;
          cookie_call m facies3d (lowest - 2) cell_52;
          cookie_call m facies3d (lowest - 2) cell_55].

(** The four files. *)
Definition t1_initial : string :=
  "../modeling/centerlines/t1_initial_centerline.shp".

Definition t2_initial : string :=
  "../modeling/centerlines/t2_initial_centerline.shp".

Definition t1_final : string :=
  "../modeling/centerlines/t1_final_centerline.shp".

Definition t2_final : string :=
  "../modeling/centerlines/t2_final_centerline.shp".

(** The model domain of cell 16. *)
Definition domain_t1 : float * float * float * float :=
  (2789.150971221104, 4802.228898997582,
   2545.097408532824, 4342.6693798509295).

(** What a finished run did, stage by stage: what each library call was
    given and what became of its answer. *)
Definition pipeline (lib : Library) (log : list call) : Prop :=
  exists xr1 yr1 z1 x1 y1 ch1 chb0 chb1 m1
         xr2 yr2 zr2 x2 y2 z2 ch2 chb2 box m2,
    loaded lib log t1_initial xr1 yr1 z1
    /\ In (flip_call xr1) log /\ In (flip_call yr1) log
    /\ smoothed lib log (local_x (rev xr1)) 11 x1
    /\ smoothed lib log (local_y (rev yr1)) 11 y1
    /\ answered lib log (channel_call x1 y1 z1) (PChannel ch1)
    /\ answered lib log (belt_call ch1) (PChannelBelt chb0)
    /\ answered lib log (migrate_call chb0) (PChannelBelt chb1)
    /\ exported log chb1 t1_final
    /\ modelled lib log chb1 domain_t1 m1
    /\ loaded lib log t2_initial xr2 yr2 zr2
    /\ smoothed lib log (local_x xr2) 31 x2
    /\ smoothed lib log (local_y yr2) 31 y2
    /\ elevated lib log chb1 x2 y2 z2
    /\ answered lib log (channel_call x2 y2 z2) (PChannel ch2)
    /\ answered lib log (migrate_call (channels_append chb1 ch2))
         (PChannelBelt chb2)
    /\ exported log chb2 t2_final
    /\ (10 < len (ChannelBelt.channels chb2))%Z
    /\ bounding_box chb2 = Ok box
    /\ modelled lib log chb2 box m2
    /\ flat_map block_diagrams log
       = [PArray3 (ChannelBelt3D.strat m1); PArray3 (ChannelBelt3D.strat m2)]
    /\ cookies_cut lib log m2.

(** A float from [lo] up to, but not reaching, [hi]. *)
Definition between (lo hi v : float) : Prop :=
  PrimFloat.leb lo v = true /\ PrimFloat.ltb v hi = true.

(** ** The bounding box of cell 36 *)

(** A channel with at least one node in each coordinate array. *)
Definition has_nodes (ch : Channel.t) : Prop :=
  Channel.x ch <> [] /\ Channel.y ch <> [].

(** A channel whose coordinates are all numbers. *)
Definition all_numbers (ch : Channel.t) : Prop :=
  Forall a_number (Channel.x ch) /\ Forall a_number (Channel.y ch).

(** One iteration of the loop of cell 36. *)
Definition widen (channel : Channel.t)
    (box : float * float * float * float)
    : result (float * float * float * float) :=
  let '(min_x, max_x, min_y, max_y) := box in
  a <- min_of (Channel.x channel) ;;
  b <- max_of (Channel.x channel) ;;
  c <- min_of (Channel.y channel) ;;
  d <- max_of (Channel.y channel) ;;
  Ok (py_min min_x a, py_max max_x b, py_min min_y c, py_max max_y d).

(** A coordinate that is a node of one of the channels. *)
Definition x_node_of (chs : list Channel.t) (v : float) : Prop :=
  exists ch, In ch chs /\ In v (Channel.x ch).

Definition y_node_of (chs : list Channel.t) (v : float) : Prop :=
  exists ch, In ch chs /\ In v (Channel.y ch).

(** A box that holds every node of a channel. *)
Definition encloses (box : float * float * float * float)
    (ch : Channel.t) : Prop :=
  let '(min_x, max_x, min_y, max_y) := box in
  Forall (fun v => PrimFloat.leb min_x v = true
                   /\ PrimFloat.leb v max_x = true) (Channel.x ch)
  /\ Forall (fun v => PrimFloat.leb min_y v = true
                      /\ PrimFloat.leb v max_y = true) (Channel.y ch).

(** ** What a computation does to the record *)

(** [m] records calls whose tags, in order, are [S]; when [m] raises, the
    tags recorded so far are a prefix of [S]. *)
Definition emits {X T} (tag : call -> list X) (m : M T) (S : list X) : Prop :=
  forall h,
    match m h with
    | (Ok _, h') => exists e, h' = h ++ e /\ flat_map tag e = S
    | (Raise _, h') =>
        exists e rest, h' = h ++ e /\ flat_map tag e ++ rest = S
    end.

(** From a record satisfying [Inv], [m] ends in one satisfying [Inv], or
    raises [e] leaving one that satisfies [Fail e]. *)
Definition respects {T} (Inv : list call -> Prop)
    (Fail : exn -> list call -> Prop) (m : M T) : Prop :=
  forall h, Inv h ->
    match m h with
    | (Ok _, h') => Inv h'
    | (Raise e, h') => Fail e h'
    end.

(** A call site that keeps the invariant, whatever the answer. *)
Definition sound_site {T} (Inv : list call -> Prop)
    (Fail : exn -> list call -> Prop) (c : call)
    (answer : list call -> result T) : Prop :=
  forall h, Inv h ->
    match answer h with
    | Ok _ => Inv (h ++ [c])
    | Raise e => Fail e (h ++ [c])
    end.

(** Two computations that do the same from every record. *)
Definition same {T} (m m' : M T) : Prop := forall h, m h = m' h.

(** ** Binary64 rounding on integers

    [SpecFloat] rounds by shifting a mantissa; below, the same rounding is
    written as a function of the value, in units of [2 ^ -2148] (the finest
    unit a product of two binary64 numbers needs). *)

Local Open Scope Z_scope.

(** What [j] right shifts leave of an exact mantissa [M]: the quotient, the
    last bit shifted out, and whether a lower bit was set. *)
Definition shifted (M : Z) (j : nat) : shr_record :=
  match j with
  | O => {| shr_m := M; shr_r := false; shr_s := false |}
  | S i => {| shr_m := M / 2 ^ Z.of_nat j;
              shr_r := Z.odd (M / 2 ^ Z.of_nat i);
              shr_s := negb (M mod 2 ^ Z.of_nat i =? 0) |}
  end.

(** Rounding [M / 2 ^ n] to the nearest integer, ties to even. *)
Definition rne (M n : Z) : Z :=
  let q := M / 2 ^ n in
  match 2 * (M mod 2 ^ n) ?= 2 ^ n with
  | Lt => q
  | Eq => if Z.even q then q else q + 1
  | Gt => q + 1
  end.

(** The float that [binary_round_aux] packs from a mantissa and an
    exponent. *)
Definition pack (s : bool) (m e : Z) : spec_float :=
  match m with
  | Z0 => S754_zero s
  | Zpos p => if e <=? 971 then S754_finite s p e else S754_infinity s
  | Zneg _ => S754_nan
  end.

(** The same after the carry of a mantissa rounded up to [2 ^ 53]. *)
Definition encode (s : bool) (e m : Z) : spec_float :=
  if m =? 9007199254740992 then pack s 4503599627370496 (e + 1) else pack s m e.

(** The exponent of the binary64 that a magnitude [W * 2 ^ -2148] rounds
    to (before a carry). *)
Definition exponent_of (W : Z) : Z := Z.max (Z.log2 W + 1 - 2148 - 53) (-1074).

(** The binary64 of sign [s] nearest to [W * 2 ^ -2148], ties to even. *)
Definition round64 (s : bool) (W : Z) : spec_float :=
  encode s (exponent_of W) (rne W (exponent_of W + 2148)).

(** The value of a finite binary64 in units of [2 ^ -1074]. *)
Definition scaled (x : spec_float) : Z :=
  match x with
  | S754_finite s m e => (if s then - Zpos m else Zpos m) * 2 ^ (e + 1074)
  | _ => 0
  end.

(** The binary64 nearest to [V * 2 ^ -1074]. *)
Definition nearest64 (V : Z) : spec_float :=
  match V with
  | Z0 => S754_zero false
  | Zpos P => round64 false (Zpos P * 2 ^ 1074)
  | Zneg P => round64 true (Zpos P * 2 ^ 1074)
  end.

(** Zero or finite. *)
Definition SFfinite (x : spec_float) : bool :=
  match x with
  | S754_zero _ | S754_finite _ _ _ => true
  | _ => false
  end.

(** Not below zero, and not a NaN. *)
Definition SFnonneg (x : spec_float) : bool :=
  match x with
  | S754_zero _ | S754_finite false _ _ | S754_infinity false => true
  | _ => false
  end.

(** Not above zero, and not a NaN. *)
Definition SFnonpos (x : spec_float) : bool :=
  match x with
  | S754_zero _ | S754_finite true _ _ | S754_infinity true => true
  | _ => false
  end.

(** The same float with an unsigned zero. *)
Definition unsigned_zero (x : spec_float) : spec_float :=
  match x with
  | S754_zero _ => S754_zero false
  | _ => x
  end.

Local Close Scope Z_scope.

(* ===================================================================== *)
(** * Part 7: properties of [generate_z_coordinates_with_constant] and of
      binary64 arithmetic *)
(* ===================================================================== *)

Lemma range_nil (a b : Z) : (b <= a)%Z -> range a b = [].
Proof.
  intros Hle. unfold range.
  replace (Z.to_nat (b - a)) with 0%nat by lia. reflexivity.
Qed.

Lemma range_cons (a b : Z) : (a < b)%Z -> range a b = a :: range (a + 1) b.
Proof.
  intros Hlt. unfold range.
  replace (Z.to_nat (b - a)) with (S (Z.to_nat (b - (a + 1)))) by lia.
  simpl. rewrite <- seq_shift, map_map. f_equal; [lia|].
  apply map_ext. intros k. lia.
Qed.

Lemma range_length (a b : Z) : List.length (range a b) = Z.to_nat (b - a).
Proof. unfold range. now rewrite length_map, length_seq. Qed.

Lemma range_nth (a b : Z) (k : nat) (d : Z) :
  (k < Z.to_nat (b - a))%nat -> nth k (range a b) d = (a + Z.of_nat k)%Z.
Proof.
  intros Hk. unfold range.
  set (f := fun j : nat => (a + Z.of_nat j)%Z).
  transitivity (nth k (map f (seq 0 (Z.to_nat (b - a)))) (f 0%nat)).
  - apply nth_indep. now rewrite length_map, length_seq.
  - rewrite map_nth, seq_nth by assumption. reflexivity.
Qed.

Section GenerateZFacts.
Context {A : Type} `{Number A} {T : Type}.
Variables (x_coordinates y_coordinates : list T).
Variable constant_values_count : Z.
Variables lower_bound upper_bound : A.

Let n := len x_coordinates.
Let body := loop_body x_coordinates constant_values_count
              lower_bound upper_bound.
Let ramp_entry := ramp_entry constant_values_count lower_bound upper_bound.

Lemma loop_succeeds (step : A) (items : list Z) (st : locals) :
  div (sub upper_bound lower_bound)
      (of_int (ramp_divisor x_coordinates constant_values_count)) = Ok step ->
  for_each items body st =
  Ok {| z_coordinates := z_coordinates st ++ map (ramp_entry step) items;
        z_coords := match items with
                    | [] => z_coords st
                    | _ => Some (z_coordinates st
                                 ++ map (ramp_entry step) items)
                    end |}.
Proof.
  intros Hdiv. revert st.
  induction items as [|i rest IH]; intros st; simpl.
  - rewrite app_nil_r. destruct st; reflexivity.
  - unfold body at 1, loop_body. rewrite Hdiv. simpl.
    rewrite IH. simpl. rewrite <- app_assoc. simpl.
    destruct rest; reflexivity.
Qed.

Lemma loop_fails (e : exn) (i : Z) (rest : list Z) (st : locals) :
  div (sub upper_bound lower_bound)
      (of_int (ramp_divisor x_coordinates constant_values_count)) = Raise e ->
  for_each (i :: rest) body st = Raise e.
Proof.
  intros Hdiv. simpl. unfold body, loop_body. rewrite Hdiv. reflexivity.
Qed.

(** No iteration: [z_coords] is still unbound at the [return]. *)
Lemma generate_z_unbound :
  (n <= constant_values_count)%Z ->
  generate_z_coordinates_with_constant x_coordinates y_coordinates
    constant_values_count lower_bound upper_bound
  = Raise (UnboundLocalError "z_coords").
Proof.
  intros Hle. unfold generate_z_coordinates_with_constant.
  rewrite range_nil by assumption. reflexivity.
Qed.

(** At least one iteration, and the division raises. *)
Lemma generate_z_raises (e : exn) :
  (constant_values_count < n)%Z ->
  div (sub upper_bound lower_bound)
      (of_int (ramp_divisor x_coordinates constant_values_count)) = Raise e ->
  generate_z_coordinates_with_constant x_coordinates y_coordinates
    constant_values_count lower_bound upper_bound
  = Raise e.
Proof.
  intros Hlt Hdiv. unfold generate_z_coordinates_with_constant.
  rewrite range_cons by assumption.
  fold body. rewrite (loop_fails _ _ _ Hdiv). reflexivity.
Qed.

(** At least one iteration, and the division returns [step]. *)
Lemma generate_z_returns (step : A) :
  (constant_values_count < n)%Z ->
  div (sub upper_bound lower_bound)
      (of_int (ramp_divisor x_coordinates constant_values_count)) = Ok step ->
  generate_z_coordinates_with_constant x_coordinates y_coordinates
    constant_values_count lower_bound upper_bound
  = Ok (list_repeat upper_bound (Z.min constant_values_count n)
        ++ map (ramp_entry step) (range constant_values_count n)).
Proof.
  intros Hlt Hdiv. unfold generate_z_coordinates_with_constant.
  fold body. rewrite (loop_succeeds _ _ Hdiv). simpl.
  destruct (range constant_values_count (len x_coordinates)) eqn:Hrange.
  - rewrite range_cons in Hrange by assumption. discriminate.
  - subst n. rewrite Hrange. reflexivity.
Qed.

End GenerateZFacts.

Lemma range_In (a b i : Z) : In i (range a b) -> (a <= i < b)%Z.
Proof.
  unfold range. rewrite in_map_iff. intros (k & <- & Hk).
  apply in_seq in Hk. lia.
Qed.

Lemma index_nth {T} (l : list T) (i : Z) (d : T) :
  (0 <= i < len l)%Z -> index l i = Ok (nth (Z.to_nat i) l d).
Proof.
  intros Hi. unfold index, len in *.
  destruct (Z.ltb_spec i 0) as [Hneg|Hneg]; [lia|].
  destruct (Z.ltb_spec i 0) as [Hneg'|Hneg']; [lia|].
  destruct (nth_error l (Z.to_nat i)) eqn:Hnth.
  - now rewrite (nth_error_nth _ _ _ Hnth).
  - apply nth_error_None in Hnth. lia.
Qed.

Lemma index_last {T} (l : list T) (d : T) :
  (0 < len l)%Z -> index l (-1) = Ok (nth (Z.to_nat (len l - 1)) l d).
Proof.
  intros Hpos. unfold index.
  change (-1 <? 0)%Z with true. cbv iota.
  replace (-1 + len l)%Z with (len l - 1)%Z by lia.
  destruct (Z.ltb_spec (len l - 1) 0) as [Hneg|Hneg]; [lia|].
  unfold len in *.
  destruct (nth_error l (Z.to_nat (Z.of_nat (List.length l) - 1))) eqn:Hnth.
  - now rewrite (nth_error_nth _ _ _ Hnth).
  - apply nth_error_None in Hnth. lia.
Qed.

Lemma len_app {T} (l1 l2 : list T) : len (l1 ++ l2) = (len l1 + len l2)%Z.
Proof. unfold len. rewrite length_app. lia. Qed.

Lemma len_list_repeat {T} (v : T) (k : Z) : len (list_repeat v k) = Z.max 0 k.
Proof. unfold len, list_repeat. rewrite repeat_length. lia. Qed.

Lemma len_range (a b : Z) : len (range a b) = Z.max 0 (b - a).
Proof. unfold len. rewrite range_length. lia. Qed.

(** The shape of a returned array, for any kind of number: the plateau,
    then one [ramp_entry] per remaining node. *)
Lemma generate_z_shape {A} `{Number A} {T} (x y : list T) (c : Z)
    (lb ub step : A) :
  (0 <= c < len x)%Z ->
  div (sub ub lb) (of_int (ramp_divisor x c)) = Ok step ->
  exists zs,
    generate_z_coordinates_with_constant x y c lb ub = Ok zs
    /\ len zs = len x
    /\ (forall i, (0 <= i < c)%Z -> index zs i = Ok ub)
    /\ (forall i, (c <= i < len x)%Z ->
          index zs i = Ok (ramp_entry c lb ub step i)).
Proof.
  intros Hc Hdiv.
  rewrite generate_z_returns with (step := step) by (tauto || assumption).
  eexists. split; [reflexivity|].
  assert (Hlen : len (list_repeat ub (Z.min c (len x))
                      ++ map (ramp_entry c lb ub step) (range c (len x)))
                 = len x).
  { rewrite len_app, len_list_repeat. unfold len at 2.
    rewrite length_map. fold (len (range c (len x))). rewrite len_range. lia. }
  split; [exact Hlen|]. split.
  - intros i Hi. rewrite (index_nth _ ub) by lia.
    rewrite app_nth1.
    + unfold list_repeat. now rewrite nth_repeat.
    + unfold list_repeat. rewrite repeat_length. lia.
  - intros i Hi. rewrite (index_nth _ ub) by lia.
    rewrite app_nth2 by (unfold list_repeat; rewrite repeat_length; lia).
    unfold list_repeat. rewrite repeat_length.
    set (k := (Z.to_nat i - Z.to_nat (Z.min c (len x)))%nat).
    f_equal.
    transitivity (nth k (map (ramp_entry c lb ub step) (range c (len x)))
                    (ramp_entry c lb ub step 0)).
    + apply nth_indep. rewrite length_map, range_length. lia.
    + rewrite map_nth. rewrite range_nth by lia. f_equal. lia.
Qed.

(** ** Exact arithmetic *)

Lemma fraction_div (a : Q) (m : Z) :
  (0 < m)%Z -> div a (of_int m) = Ok (a / inject_Z m)%Q.
Proof.
  intros Hm. simpl. destruct (Qeq_bool (inject_Z m) 0) eqn:Hz; [|reflexivity].
  apply Qeq_bool_eq in Hz. unfold Qeq in Hz. simpl in Hz. lia.
Qed.

(** The unclamped ramp value stays between the bounds. *)
Lemma ramp_within (lb ub : Q) (m k : Z) :
  (lb <= ub)%Q -> (0 < m)%Z -> (0 <= k <= m)%Z ->
  (lb <= ub - inject_Z k * ((ub - lb) / inject_Z m) <= ub)%Q.
Proof.
  intros Hb Hm Hk.
  assert (Hm' : (0 < inject_Z m)%Q) 
    by (change (inject_Z 0 < inject_Z m)%Q; rewrite <- Zlt_Qlt; lia).
  set (d := ((ub - lb) / inject_Z m)%Q).
  assert (Hmd : (inject_Z m * d == ub - lb)%Q).
  { unfold d. apply Qmult_div_r. intros Hz. rewrite Hz in Hm'.
    now apply Qlt_irrefl in Hm'. }
  assert (Hd : (0 <= d)%Q).
  { unfold d. apply Qle_shift_div_l; [assumption|]. lra. }
  assert (Hk0 : (0 <= inject_Z k)%Q) 
    by (change (inject_Z 0 <= inject_Z k)%Q; rewrite <- Zle_Qle; lia).
  assert (Hkm : (inject_Z k <= inject_Z m)%Q) by (rewrite <- Zle_Qle; lia).
  assert (H0 : (0 <= inject_Z k * d)%Q) by now apply Qmult_le_0_compat.
  assert (H1 : (inject_Z k * d <= inject_Z m * d)%Q)
    by now apply Qmult_le_compat_r.
  split; lra.
Qed.

(** Within the bounds the clamping line changes nothing. *)
Lemma clamp_within (lb ub v : Q) : (lb <= v <= ub)%Q -> clamp lb ub v = v.
Proof.
  intros [Hl Hu]. unfold clamp, py_min, py_max. simpl.
  apply Qle_bool_iff in Hu. rewrite Hu. simpl.
  apply Qle_bool_iff in Hl. rewrite Hl. reflexivity.
Qed.

(** On exact numbers with [lb <= ub] and at least two ramp nodes, the
    array that is returned, written out. *)
Lemma fraction_returns {T} (x y : list T) (c : Z) (lb ub : Q) :
  (lb <= ub)%Q -> (c + 1 < len x)%Z ->
  generate_z_coordinates_with_constant x y c lb ub
  = Ok (list_repeat ub (Z.min c (len x))
        ++ map (fun i => ub - inject_Z (i - c)
                              * ((ub - lb) / inject_Z (len x - c - 1)))%Q
               (range c (len x))).
Proof.
  intros Hb Hc.
  rewrite generate_z_returns
    with (step := ((ub - lb) / inject_Z (len x - c - 1))%Q).
  - do 2 f_equal. apply map_ext_in. intros i Hi. apply range_In in Hi.
    unfold ramp_entry. apply clamp_within. apply ramp_within; lia || assumption.
  - lia.
  - unfold ramp_divisor. apply fraction_div. lia.
Qed.

Lemma ramp_end (lb ub : Q) (m : Z) :
  (0 < m)%Z -> (ub - inject_Z m * ((ub - lb) / inject_Z m) == lb)%Q.
Proof.
  intros Hm.
  assert (Hnz : ~ (inject_Z m == 0)%Q).
  { intros Hz. unfold Qeq in Hz. simpl in Hz. lia. }
  rewrite Qmult_div_r by assumption. lra.
Qed.

Lemma ramp_descends (lb ub : Q) (m k : Z) :
  (lb <= ub)%Q -> (0 < m)%Z ->
  (ub - inject_Z (k + 1) * ((ub - lb) / inject_Z m)
   <= ub - inject_Z k * ((ub - lb) / inject_Z m))%Q.
Proof.
  intros Hb Hm.
  assert (Hm' : (0 < inject_Z m)%Q)
    by (change (inject_Z 0 < inject_Z m)%Q; rewrite <- Zlt_Qlt; lia).
  assert (Hd : (0 <= (ub - lb) / inject_Z m)%Q).
  { apply Qle_shift_div_l; [assumption|]. lra. }
  rewrite inject_Z_plus. change (inject_Z 1) with 1%Q. lra.
Qed.

(** ** Binary64 arithmetic *)

Unset Implicit Arguments.

Lemma SFcompare_antisym (a b : spec_float) :
  SFcompare a b = option_map CompOpp (SFcompare b a).
Proof.
  destruct a as [sa|sa| |sa ma ea], b as [sb|sb| |sb mb eb];
    try destruct sa; try destruct sb; simpl; try reflexivity;
    rewrite (Z.compare_antisym ea eb);
    destruct (ea ?= eb)%Z; simpl; try reflexivity;
    rewrite ?CompOpp_involutive;
    first [ rewrite (Pos.compare_cont_antisym mb ma Eq)
          | rewrite (Pos.compare_cont_antisym ma mb Eq) ];
    reflexivity.
Qed.

Lemma SFcompare_defined (a b : spec_float) :
  SFcompare a a <> None -> SFcompare b b <> None -> SFcompare a b <> None.
Proof.
  destruct a as [sa|sa| |sa ma ea], b as [sb|sb| |sb mb eb];
    simpl; congruence.
Qed.

Lemma SFcompare_refl (a : spec_float) :
  SFcompare a a <> None -> SFcompare a a = Some Eq.
Proof.
  destruct a as [sa|sa| |sa ma ea]; try destruct sa; simpl;
    try congruence; intros _;
    rewrite Z.compare_refl, Pos.compare_cont_refl; reflexivity.
Qed.

Lemma a_number_spec (v : float) :
  a_number v <-> SFcompare (Prim2SF v) (Prim2SF v) <> None.
Proof.
  unfold a_number. rewrite leb_spec. unfold SFleb. split.
  - destruct (SFcompare _ _); congruence.
  - intros Hv. now rewrite (SFcompare_refl _ Hv).
Qed.

Lemma leb_numbers (a b : float) :
  PrimFloat.leb a b = true -> a_number a /\ a_number b.
Proof.
  rewrite !a_number_spec, leb_spec. unfold SFleb.
  destruct (Prim2SF a) as [sa|sa| |sa ma ea],
           (Prim2SF b) as [sb|sb| |sb mb eb];
    simpl; split; congruence.
Qed.

Lemma not_ltb_leb (a b : float) :
  a_number a -> a_number b -> PrimFloat.ltb b a = false ->
  PrimFloat.leb a b = true.
Proof.
  rewrite !a_number_spec, ltb_spec, leb_spec. unfold SFltb, SFleb.
  intros Ha Hb. pose proof (SFcompare_defined _ _ Hb Ha) as Hdef.
  rewrite (SFcompare_antisym (Prim2SF a) (Prim2SF b)).
  destruct (SFcompare (Prim2SF b) (Prim2SF a)) as [[]|]; simpl; congruence.
Qed.

Lemma leb_not_ltb (a b : float) :
  PrimFloat.leb a b = true -> PrimFloat.ltb b a = false.
Proof.
  rewrite ltb_spec, leb_spec. unfold SFltb, SFleb.
  rewrite (SFcompare_antisym (Prim2SF a) (Prim2SF b)).
  destruct (SFcompare (Prim2SF b) (Prim2SF a)) as [[]|]; simpl; congruence.
Qed.

Lemma nan_not_ltb (a b : float) :
  ~ a_number a -> PrimFloat.ltb a b = false /\ PrimFloat.ltb b a = false.
Proof.
  rewrite a_number_spec, !ltb_spec. unfold SFltb.
  destruct (Prim2SF a) as [sa|sa| |sa ma ea],
           (Prim2SF b) as [sb|sb| |sb mb eb];
    simpl; intros Hnan; try (exfalso; apply Hnan; congruence); auto.
Qed.

(** On binary64 the clamping line yields a NaN or a value between the
    bounds. *)
Lemma clamp_float64 (lb ub v : float) :
  PrimFloat.leb lb ub = true ->
  ~ a_number (clamp lb ub v)
  \/ (PrimFloat.leb lb (clamp lb ub v) = true
      /\ PrimFloat.leb (clamp lb ub v) ub = true).
Proof.
  intros Hb. destruct (leb_numbers _ _ Hb) as [Hlb Hub].
  unfold clamp, py_min, py_max. simpl.
  destruct (PrimFloat.leb v v) eqn:Hv.
  - right. destruct (PrimFloat.ltb ub v) eqn:Huv.
    + rewrite (leb_not_ltb _ _ Hb). auto.
    + pose proof (not_ltb_leb v ub Hv Hub Huv) as Hvu.
      destruct (PrimFloat.ltb v lb) eqn:Hvl; [auto|].
      split; [|assumption]. apply not_ltb_leb; assumption.
  - left. assert (Hnan : ~ a_number v) by (unfold a_number; congruence).
    destruct (nan_not_ltb v ub Hnan) as [_ ->].
    destruct (nan_not_ltb v lb Hnan) as [-> _]. exact Hnan.
Qed.

Set Implicit Arguments.

(** On binary64 bounds with at least one ramp node, the array that is
    returned, written out. *)
Lemma float64_returns {T} (x y : list T) (c : Z) (lb ub : float) :
  (c < len x)%Z ->
  generate_z_coordinates_with_constant x y c lb ub
  = Ok (list_repeat ub (Z.min c (len x))
        ++ map (ramp_entry c lb ub
                  ((ub - lb) / float64_of_int (ramp_divisor x c)))
               (range c (len x))).
Proof.
  intros Hc. apply generate_z_returns; [assumption | reflexivity].
Qed.

(** ** Order of the entries *)

Lemma sorted_map_range {A : Type} (R : A -> A -> Prop) (r : Z -> A)
    (a b : Z) :
  (forall i, (a <= i)%Z -> (i + 1 < b)%Z -> R (r i) (r (i + 1)%Z)) ->
  Sorted R (map r (range a b)).
Proof.
  remember (Z.to_nat (b - a)) as k eqn:Hk. revert a Hk.
  induction k as [|k IH]; intros a Hk Hstep.
  - rewrite range_nil by lia. constructor.
  - rewrite range_cons by lia. simpl. constructor.
    + apply IH; [lia|]. intros i Hi Hi'. apply Hstep; lia.
    + destruct (Z_lt_le_dec (a + 1) b) as [Hlt|Hge].
      * rewrite range_cons by lia. simpl. constructor. apply Hstep; lia.
      * rewrite range_nil by lia. constructor.
Qed.

Lemma sorted_repeat_app {A : Type} (R : A -> A -> Prop) (v : A) (k : nat)
    (l : list A) :
  R v v -> HdRel R v l -> Sorted R l ->
  Sorted R (repeat v k ++ l).
Proof.
  intros Hrefl Hhd Hl. induction k as [|k IH]; simpl; [assumption|].
  constructor; [assumption|].
  destruct k; simpl; [assumption|]. now constructor.
Qed.

(** ** Binary64 rounding, value by value *)

Section Binary64.
Local Open Scope Z_scope.

Lemma iter_pos_nat (A : Type) (f : A -> A) (p : positive) (x : A) :
  iter_pos f p x = Nat.iter (Pos.to_nat p) f x.
Proof.
  revert x.
  induction p as [p IH | p IH |]; intro x; cbn [iter_pos].
  - rewrite !IH, Pos2Nat.inj_xI.
    replace (S (2 * Pos.to_nat p))%nat with (Pos.to_nat p + S (Pos.to_nat p))%nat by lia.
    rewrite Nat.iter_add, Nat.iter_succ_r.
    reflexivity.
  - rewrite !IH, Pos2Nat.inj_xO.
    replace (2 * Pos.to_nat p)%nat with (Pos.to_nat p + Pos.to_nat p)%nat by lia.
    rewrite Nat.iter_add.
    reflexivity.
  - reflexivity.
Qed.

Lemma pos_iter_nat (A : Type) (f : A -> A) (p : positive) (x : A) :
  Pos.iter f x p = Nat.iter (Pos.to_nat p) f x.
Proof.
  apply Pos2Nat.inj_iter.
Qed.

Lemma shift_left_nat (j : nat) (p : positive) :
  Zpos (Nat.iter j xO p) = Zpos p * 2 ^ Z.of_nat j.
Proof.
  induction j as [| j IH].
  - cbn. lia.
  - change (Nat.iter (S j) xO p) with (xO (Nat.iter j xO p)).
    rewrite (Pos2Z.inj_xO (Nat.iter j xO p)), IH, Nat2Z.inj_succ, Z.pow_succ_r by lia. lia.
Qed.

Lemma digits_spec (p : positive) :
  2 ^ (Zpos (digits2_pos p) - 1) <= Zpos p < 2 ^ Zpos (digits2_pos p).
Proof.
  induction p as [p IH | p IH |]; cbn [digits2_pos].
  - rewrite Pos2Z.inj_succ, Pos2Z.inj_xI.
    replace (Z.succ (Zpos (digits2_pos p)) - 1) with (Z.succ (Zpos (digits2_pos p) - 1)) by lia.
    rewrite !Z.pow_succ_r by lia. lia.
  - rewrite Pos2Z.inj_succ, (Pos2Z.inj_xO p).
    replace (Z.succ (Zpos (digits2_pos p)) - 1) with (Z.succ (Zpos (digits2_pos p) - 1)) by lia.
    rewrite !Z.pow_succ_r by lia. lia.
  - cbn. lia.
Qed.

Lemma digits_log2 (p : positive) : Zpos (digits2_pos p) = Z.log2 (Zpos p) + 1.
Proof.
  pose proof (digits_spec p) as H.
  symmetry.
  assert (Z.log2 (Zpos p) = Zpos (digits2_pos p) - 1); [| lia].
  apply Z.log2_unique; [lia |].
  replace (Z.succ (Zpos (digits2_pos p) - 1)) with (Zpos (digits2_pos p)) by lia.
  exact H.
Qed.

Lemma shr_1_nonneg (m : Z) (r s : bool) :
  0 <= m ->
  shr_1 {| shr_m := m; shr_r := r; shr_s := s |} =
  {| shr_m := m / 2; shr_r := Z.odd m; shr_s := r || s |}.
Proof.
  intro H.
  destruct m as [| p | p]; [reflexivity | | lia].
  destruct p as [p | p |]; cbn [shr_1 Z.odd].
  - f_equal. apply Z.div_unique with 1; lia.
  - f_equal. apply Z.div_unique with 0; lia.
  - reflexivity.
Qed.


Lemma low_bits (M i : Z) :
  0 <= i ->
  M mod 2 ^ (i + 1) = (if Z.odd (M / 2 ^ i) then 2 ^ i else 0) + M mod 2 ^ i.
Proof.
  intro Hi.
  assert (0 < 2 ^ i) as Hp by (apply Z.pow_pos_nonneg; lia).
  rewrite Z.pow_add_r, Z.pow_1_r by lia.
  rewrite Z.rem_mul_r by lia.
  rewrite Zmod_odd.
  destruct (Z.odd (M / 2 ^ i)); lia.
Qed.

Lemma iter_shr_1 (M : Z) (j : nat) :
  0 <= M ->
  Nat.iter j shr_1 {| shr_m := M; shr_r := false; shr_s := false |} = shifted M j.
Proof.
  intro HM.
  induction j as [| j IH]; [reflexivity |].
  change (Nat.iter (S j) shr_1 ?x) with (shr_1 (Nat.iter j shr_1 x)).
  change (shr_1 (Nat.iter j shr_1 {| shr_m := M; shr_r := false; shr_s := false |}) =
          shifted M (S j)).
  rewrite IH.
  destruct j as [| i].
  - cbn [shifted]. rewrite shr_1_nonneg by exact HM.
    cbn. rewrite Z.mod_1_r, Z.div_1_r. f_equal.
  - cbn [shifted].
    assert (0 < 2 ^ Z.of_nat (S i)) as Hp by (apply Z.pow_pos_nonneg; lia).
    rewrite shr_1_nonneg by (apply Z.div_pos; lia).
    f_equal.
    + rewrite Z.div_div by lia.
      f_equal. rewrite (Nat2Z.inj_succ (S i)), Z.pow_succ_r by lia. lia.
    + rewrite (Nat2Z.inj_succ i).
      pose proof (@low_bits M (Z.of_nat i) ltac:(lia)) as L.
      replace (Z.succ (Z.of_nat i)) with (Z.of_nat i + 1) by lia.
      rewrite L.
      assert (0 < 2 ^ Z.of_nat i) as Hq by (apply Z.pow_pos_nonneg; lia).
      pose proof (Z.mod_pos_bound M (2 ^ Z.of_nat i) Hq) as B.
      destruct (Z.odd (M / 2 ^ Z.of_nat i)); cbn [orb].
      * symmetry. apply negb_true_iff, Z.eqb_neq. lia.
      * reflexivity.
Qed.


Lemma round_shifted (M : Z) (j : nat) :
  0 <= M ->
  round_nearest_even (shr_m (shifted M j)) (loc_of_shr_record (shifted M j)) =
  rne M (Z.of_nat j).
Proof.
  intro HM.
  destruct j as [| i].
  - cbn [shifted shr_m loc_of_shr_record shr_r shr_s round_nearest_even].
    unfold rne. cbn [Z.of_nat]. rewrite Z.pow_0_r, Z.mod_1_r, Z.div_1_r. reflexivity.
  - cbn [shifted shr_m loc_of_shr_record shr_r shr_s].
    unfold rne.
    rewrite (Nat2Z.inj_succ i).
    replace (Z.succ (Z.of_nat i)) with (Z.of_nat i + 1) by lia.
    pose proof (@low_bits M (Z.of_nat i) ltac:(lia)) as L.
    rewrite L.
    assert (0 < 2 ^ Z.of_nat i) as Hq by (apply Z.pow_pos_nonneg; lia).
    pose proof (Z.mod_pos_bound M (2 ^ Z.of_nat i) Hq) as B.
    assert (2 ^ (Z.of_nat i + 1) = 2 * 2 ^ Z.of_nat i) as P
      by (rewrite Z.pow_add_r, Z.pow_1_r by lia; lia).
    rewrite P.
    destruct (Z.odd (M / 2 ^ Z.of_nat i)).
    + destruct (Z.eqb_spec (M mod 2 ^ Z.of_nat i) 0) as [E | E]; cbn [negb round_nearest_even].
      * rewrite E, Z.add_0_r, Z.compare_refl. reflexivity.
      * replace (2 * (2 ^ Z.of_nat i + M mod 2 ^ Z.of_nat i) ?= 2 * 2 ^ Z.of_nat i) with Gt
          by (symmetry; apply Z.compare_gt_iff; lia).
        reflexivity.
    + replace (2 * (0 + M mod 2 ^ Z.of_nat i) ?= 2 * 2 ^ Z.of_nat i) with Lt
        by (symmetry; apply Z.compare_lt_iff; lia).
      destruct (negb (M mod 2 ^ Z.of_nat i =? 0)); reflexivity.
Qed.

Lemma pow2_pos (n : Z) : 0 <= n -> 0 < 2 ^ n.
Proof. intro H. apply Z.pow_pos_nonneg; lia. Qed.

Lemma rne_range (M n : Z) :
  0 <= n -> M / 2 ^ n <= rne M n <= M / 2 ^ n + 1.
Proof.
  intro Hn. unfold rne.
  destruct (2 * (M mod 2 ^ n) ?= 2 ^ n); [destruct (Z.even _) | |]; lia.
Qed.

Lemma rne_exact (M n : Z) :
  0 <= n -> M mod 2 ^ n = 0 -> rne M n = M / 2 ^ n.
Proof.
  intros Hn E. unfold rne. rewrite E.
  pose proof (pow2_pos Hn) as P.
  replace (2 * 0 ?= 2 ^ n) with Lt by (symmetry; apply Z.compare_lt_iff; lia).
  reflexivity.
Qed.

Lemma compare_scale (a b c : Z) : 0 < c -> (a * c ?= b * c) = (a ?= b).
Proof.
  intro H.
  destruct (Z.compare_spec a b);
    [apply Z.compare_eq_iff | apply Z.compare_lt_iff | apply Z.compare_gt_iff]; nia.
Qed.

Lemma rne_scale (M n j : Z) :
  0 <= n -> 0 <= j -> rne (M * 2 ^ j) (n + j) = rne M n.
Proof.
  intros Hn Hj. unfold rne.
  pose proof (pow2_pos Hn) as P. pose proof (pow2_pos Hj) as Q.
  rewrite Z.pow_add_r by lia.
  rewrite Z.div_mul_cancel_r by lia.
  rewrite Z.mul_mod_distr_r by lia.
  replace (2 * (M mod 2 ^ n * 2 ^ j)) with (2 * (M mod 2 ^ n) * 2 ^ j) by lia.
  rewrite compare_scale by lia.
  reflexivity.
Qed.

Lemma rne_mono (M1 M2 n : Z) :
  0 <= n -> M1 <= M2 -> rne M1 n <= rne M2 n.
Proof.
  intros Hn H.
  pose proof (pow2_pos Hn) as P.
  pose proof (Z.div_le_mono M1 M2 (2 ^ n) P H) as D.
  pose proof (rne_range M1 Hn) as R1. pose proof (rne_range M2 Hn) as R2.
  destruct (Z.eq_dec (M1 / 2 ^ n) (M2 / 2 ^ n)) as [E | E]; [| lia].
  pose proof (Z.div_mod M1 (2 ^ n) ltac:(lia)) as D1.
  pose proof (Z.div_mod M2 (2 ^ n) ltac:(lia)) as D2.
  unfold rne in *. rewrite E in *.
  destruct (Z.compare_spec (2 * (M1 mod 2 ^ n)) (2 ^ n));
    destruct (Z.compare_spec (2 * (M2 mod 2 ^ n)) (2 ^ n));
    try destruct (Z.even (M2 / 2 ^ n)); lia.
Qed.

(** ** The two shifts of [binary_round_aux] *)

Lemma shr_exact (M E n : Z) :
  0 <= M -> 0 <= n ->
  shr {| shr_m := M; shr_r := false; shr_s := false |} E n =
  (shifted M (Z.to_nat n), E + n).
Proof.
  intros HM Hn.
  destruct n as [| p | p]; [| | lia].
  - cbn [shr Z.to_nat shifted Pos.to_nat]. rewrite Z.add_0_r. reflexivity.
  - cbn [shr Z.to_nat]. rewrite iter_pos_nat, iter_shr_1 by exact HM. reflexivity.
Qed.

Lemma shr_nonpos (mrs : shr_record) (e n : Z) : n <= 0 -> shr mrs e n = (mrs, e).
Proof.
  intro H. destruct n; [reflexivity | lia | reflexivity].
Qed.

Lemma fexp_eq (e : Z) : fexp prec emax e = Z.max (e - 53) (-1074).
Proof. reflexivity. Qed.

Lemma Zdigits2_small (m : Z) :
  0 <= m < 9007199254740992 -> 0 <= Zdigits2 m <= 53.
Proof.
  intro H.
  destruct m as [| p | p]; [cbn; lia | | lia].
  cbn [Zdigits2].
  pose proof (digits_spec p) as D.
  split; [lia |].
  destruct (Z_le_gt_dec (Zpos (digits2_pos p)) 53) as [L | G]; [exact L |].
  exfalso.
  assert (2 ^ 53 <= 2 ^ (Zpos (digits2_pos p) - 1)) as X
    by (apply Z.pow_le_mono_r; lia).
  change (2 ^ 53) with 9007199254740992 in X.
  lia.
Qed.

Lemma shr_fexp_small (m e : Z) :
  0 <= m < 9007199254740992 -> -1074 <= e ->
  shr_fexp prec emax m e loc_Exact =
  ({| shr_m := m; shr_r := false; shr_s := false |}, e).
Proof.
  intros Hm He.
  unfold shr_fexp. rewrite fexp_eq.
  pose proof (Zdigits2_small Hm) as D.
  rewrite shr_nonpos by lia.
  reflexivity.
Qed.

Lemma shr_fexp_carry (e : Z) :
  -1074 <= e ->
  shr_fexp prec emax 9007199254740992 e loc_Exact =
  ({| shr_m := 4503599627370496; shr_r := false; shr_s := false |}, e + 1).
Proof.
  intro He.
  unfold shr_fexp. rewrite fexp_eq.
  change (Zdigits2 9007199254740992) with 54.
  replace (Z.max (54 + e - 53) (-1074) - e) with 1 by lia.
  reflexivity.
Qed.



Lemma binary_round_aux_exact (s : bool) (M : positive) (E : Z) :
  let n := Z.max (Zpos (digits2_pos M) + E - 53) (-1074) - E in
  0 <= n ->
  binary_round_aux prec emax s (Zpos M) E loc_Exact =
  encode s (E + n) (rne (Zpos M) n).
Proof.
  intros n Hn.
  unfold binary_round_aux.
  assert (shr_fexp prec emax (Zpos M) E loc_Exact =
          (shifted (Zpos M) (Z.to_nat n), E + n)) as S1.
  { unfold shr_fexp. rewrite fexp_eq.
    cbn [Zdigits2 shr_record_of_loc].
    fold n. apply shr_exact; lia. }
  rewrite S1.
  rewrite round_shifted by lia.
  rewrite Z2Nat.id by exact Hn.
  pose proof (rne_range (Zpos M) Hn) as R.
  pose proof (digits_spec M) as D.
  pose proof (pow2_pos Hn) as P.
  assert (0 <= Zpos M / 2 ^ n < 9007199254740992) as Q.
  { split; [apply Z.div_pos; lia |].
    apply Z.div_lt_upper_bound; [lia |].
    change 9007199254740992 with (2 ^ 53).
    rewrite <- Z.pow_add_r by lia.
    apply Z.lt_le_trans with (2 ^ Zpos (digits2_pos M)); [lia |].
    apply Z.pow_le_mono_r; lia. }
  unfold encode.
  destruct (Z.eqb_spec (rne (Zpos M) n) 9007199254740992) as [C | C].
  - rewrite C, shr_fexp_carry by lia. reflexivity.
  - rewrite shr_fexp_small by lia. reflexivity.
Qed.

(** ** Rounding a magnitude given in units of [2 ^ -2148] *)








Lemma binary_round_aux_value (s : bool) (M : positive) (E : Z) :
  -2148 <= E ->
  E <= Z.max (Zpos (digits2_pos M) + E - 53) (-1074) ->
  binary_round_aux prec emax s (Zpos M) E loc_Exact =
  round64 s (Zpos M * 2 ^ (E + 2148)).
Proof.
  intros HE Hn.
  rewrite binary_round_aux_exact by lia.
  unfold round64, exponent_of.
  rewrite Z.log2_mul_pow2 by lia.
  rewrite (digits_log2 M) in *.
  set (e := Z.max (Z.log2 (Zpos M) + 1 + E - 53) (-1074)).
  replace (Z.max (E + 2148 + Z.log2 (Zpos M) + 1 - 2148 - 53) (-1074)) with e
    by (unfold e; lia).
  replace (E + (e - E)) with e by lia.
  replace (e + 2148) with ((e - E) + (E + 2148)) by lia.
  rewrite rne_scale by (unfold e; lia).
  reflexivity.
Qed.

(** What rounding leaves of a positive magnitude: an exponent and a
    mantissa in canonical position, up to the carry. *)
Lemma round64_canonical (W : Z) :
  0 < W ->
  let e := exponent_of W in
  let m := rne W (e + 2148) in
  -1074 <= e /\ 0 <= m <= 9007199254740992
  /\ (-1074 < e -> 4503599627370496 <= m).
Proof.
  intros HW e m.
  assert (-1074 <= e) as He by (unfold e, exponent_of; lia).
  pose proof (Z.log2_spec W HW) as L.
  pose proof (Z.log2_nonneg W) as L0.
  assert (0 <= e + 2148) as Hk by lia.
  pose proof (pow2_pos Hk) as P.
  pose proof (rne_range W Hk) as R. fold m in R.
  assert (0 <= W / 2 ^ (e + 2148)) as Q0 by (apply Z.div_pos; lia).
  assert (W / 2 ^ (e + 2148) < 9007199254740992) as Q1.
  { apply Z.div_lt_upper_bound; [lia |].
    change 9007199254740992 with (2 ^ 53).
    rewrite <- Z.pow_add_r by lia.
    apply Z.lt_le_trans with (2 ^ Z.succ (Z.log2 W)); [lia |].
    apply Z.pow_le_mono_r; [lia |]. unfold e, exponent_of. lia. }
  split; [exact He |]. split; [lia |].
  intro Hn.
  assert (e + 2148 = Z.log2 W - 52) as Ek by (unfold e, exponent_of in *; lia).
  assert (4503599627370496 <= W / 2 ^ (e + 2148)); [| lia].
  apply Z.div_le_lower_bound; [lia |].
  change 4503599627370496 with (2 ^ 52).
  rewrite <- Z.pow_add_r by lia.
  replace (e + 2148 + 52) with (Z.log2 W) by lia.
  lia.
Qed.

Lemma pack_le (e1 m1 e2 m2 : Z) :
  -1074 <= e1 -> 0 <= m1 < 9007199254740992 ->
  (-1074 < e1 -> 4503599627370496 <= m1) ->
  -1074 <= e2 -> 0 <= m2 < 9007199254740992 ->
  (-1074 < e2 -> 4503599627370496 <= m2) ->
  (e1 + 1074) * 4503599627370496 + m1 <= (e2 + 1074) * 4503599627370496 + m2 ->
  SFleb (pack false m1 e1) (pack false m2 e2) = true
  /\ SFleb (pack true m2 e2) (pack true m1 e1) = true.
Proof.
  intros He1 Hm1 Hn1 He2 Hm2 Hn2 K.
  unfold pack.
  destruct m1 as [| p1 | p1], m2 as [| p2 | p2]; try lia;
    destruct (Z.leb_spec e1 971), (Z.leb_spec e2 971);
    cbn [SFleb SFcompare]; try (split; reflexivity); try lia.
  rewrite (Z.compare_antisym e1 e2).
  destruct (Z.compare_spec e1 e2) as [E | E | E]; cbn [CompOpp];
    [| split; reflexivity | exfalso; lia].
  change (PosDef.Pos.compare_cont Eq p1 p2) with (Pos.compare p1 p2).
  change (PosDef.Pos.compare_cont Eq p2 p1) with (Pos.compare p2 p1).
  rewrite (Pos.compare_antisym p1 p2).
  destruct (Pos.compare_spec p1 p2) as [F | F | F]; cbn [CompOpp];
    [split; reflexivity | split; reflexivity | exfalso; subst e2; lia].
Qed.

Lemma encode_le (e1 m1 e2 m2 : Z) :
  -1074 <= e1 -> 0 <= m1 <= 9007199254740992 ->
  (-1074 < e1 -> 4503599627370496 <= m1) ->
  -1074 <= e2 -> 0 <= m2 <= 9007199254740992 ->
  (-1074 < e2 -> 4503599627370496 <= m2) ->
  (e1 + 1074) * 4503599627370496 + m1 <= (e2 + 1074) * 4503599627370496 + m2 ->
  SFleb (encode false e1 m1) (encode false e2 m2) = true
  /\ SFleb (encode true e2 m2) (encode true e1 m1) = true.
Proof.
  intros He1 Hm1 Hn1 He2 Hm2 Hn2 K.
  unfold encode.
  destruct (Z.eqb_spec m1 9007199254740992), (Z.eqb_spec m2 9007199254740992);
    apply pack_le; lia.
Qed.

Lemma round64_mono (W1 W2 : Z) :
  0 < W1 <= W2 ->
  SFleb (round64 false W1) (round64 false W2) = true
  /\ SFleb (round64 true W2) (round64 true W1) = true.
Proof.
  intros [H1 H].
  destruct (round64_canonical H1) as (A1 & B1 & C1).
  destruct (@round64_canonical W2 ltac:(lia)) as (A2 & B2 & C2).
  unfold round64.
  assert (exponent_of W1 <= exponent_of W2) as E.
  { unfold exponent_of. pose proof (Z.log2_le_mono W1 W2 H). lia. }
  apply encode_le; try assumption.
  destruct (Z.eq_dec (exponent_of W1) (exponent_of W2)) as [Q | Q].
  - rewrite Q in *.
    pose proof (@rne_mono W1 W2 (exponent_of W2 + 2148) ltac:(lia) H). lia.
  - lia.
Qed.

Lemma round64_sign (s : bool) (W : Z) :
  0 < W ->
  (if s then SFnonpos (round64 s W) else SFnonneg (round64 s W)) = true.
Proof.
  intro HW.
  destruct (round64_canonical HW) as (A & B & C).
  unfold round64, encode.
  destruct (Z.eqb_spec (rne W (exponent_of W + 2148)) 9007199254740992) as [E | E].
  - unfold pack. destruct (_ <=? _), s; reflexivity.
  - unfold pack.
    destruct (rne W (exponent_of W + 2148)) as [| p | p]; [| | lia];
      try destruct (_ <=? _); destruct s; reflexivity.
Qed.

Lemma bounded_canonical (m : positive) (e : Z) :
  bounded prec emax m e = true ->
  -1074 <= e <= 971 /\ Zpos m < 9007199254740992
  /\ (-1074 < e -> 4503599627370496 <= Zpos m)
  /\ Z.max (Zpos (digits2_pos m) + e - 53) (-1074) = e.
Proof.
  unfold bounded, canonical_mantissa. rewrite fexp_eq.
  intro H. apply andb_prop in H. destruct H as [C B].
  apply Z.eqb_eq in C. apply Z.leb_le in B. change (emax - prec) with 971 in B.
  pose proof (digits_spec m) as D.
  assert (Zpos (digits2_pos m) <= 53) as D53 by lia.
  split; [lia |]. split; [| split; [| exact C]].
  - apply Z.lt_le_trans with (2 ^ Zpos (digits2_pos m)); [lia |].
    change 9007199254740992 with (2 ^ 53). apply Z.pow_le_mono_r; lia.
  - intro Hn. assert (Zpos (digits2_pos m) = 53) as E by lia.
    rewrite E in D. change (2 ^ (53 - 1)) with 4503599627370496 in D. lia.
Qed.

Lemma canonical_bounded (m : positive) (e : Z) :
  -1074 <= e <= 971 -> Zpos m < 9007199254740992 ->
  (-1074 < e -> 4503599627370496 <= Zpos m) ->
  bounded prec emax m e = true.
Proof.
  intros He Hm Hn.
  unfold bounded, canonical_mantissa. rewrite fexp_eq.
  apply andb_true_intro. split; [| apply Z.leb_le; change (emax - prec) with 971; lia].
  apply Z.eqb_eq.
  rewrite digits_log2.
  assert (Z.log2 (Zpos m) < 53) as L
    by (apply Z.log2_lt_pow2; [lia | change (2 ^ 53) with 9007199254740992; lia]).
  destruct (Z.eq_dec e (-1074)) as [E | E]; [lia |].
  assert (52 <= Z.log2 (Zpos m)) as L'
    by (apply Z.log2_le_pow2; [lia | change (2 ^ 52) with 4503599627370496; lia]).
  lia.
Qed.

(** A magnitude that needs no rounding is kept as it is. *)
Lemma round64_representable (s : bool) (W : Z) :
  0 < W -> W mod 2 ^ (exponent_of W + 2148) = 0 -> exponent_of W <= 971 ->
  exists m : positive,
    round64 s W = S754_finite s m (exponent_of W)
    /\ bounded prec emax m (exponent_of W) = true
    /\ Zpos m * 2 ^ (exponent_of W + 2148) = W.
Proof.
  intros HW Hd He.
  destruct (round64_canonical HW) as (A & B & C).
  assert (0 <= exponent_of W + 2148) as Hk by lia.
  pose proof (pow2_pos Hk) as P.
  rewrite (rne_exact _ Hk Hd) in B, C.
  pose proof (Z.div_mod W (2 ^ (exponent_of W + 2148)) ltac:(lia)) as DM.
  rewrite Hd, Z.add_0_r in DM.
  assert (W / 2 ^ (exponent_of W + 2148) < 9007199254740992) as Q1.
  { apply Z.div_lt_upper_bound; [lia |].
    pose proof (Z.log2_spec W HW) as L.
    change 9007199254740992 with (2 ^ 53).
    rewrite <- Z.pow_add_r by lia.
    apply Z.lt_le_trans with (2 ^ Z.succ (Z.log2 W)); [lia |].
    apply Z.pow_le_mono_r; [lia |]. unfold exponent_of. lia. }
  unfold round64, encode. rewrite (rne_exact _ Hk Hd).
  destruct (W / 2 ^ (exponent_of W + 2148)) as [| m | m] eqn:Q; [nia | | lia].
  exists m.
  destruct (Z.eqb_spec (Zpos m) 9007199254740992) as [X | X]; [lia |].
  unfold pack.
  destruct (Z.leb_spec (exponent_of W) 971); [| lia].
  split; [reflexivity |]. split; [apply canonical_bounded; lia | lia].
Qed.

(** A magnitude [P * 2 ^ a] with at most 53 bits in [P], no finer than the
    smallest subnormal, needs no rounding. *)
Lemma short_needs_no_rounding (P a : Z) :
  0 < P < 9007199254740992 -> 1074 <= a ->
  (P * 2 ^ a) mod 2 ^ (exponent_of (P * 2 ^ a) + 2148) = 0.
Proof.
  intros HP Ha.
  assert (Z.log2 P < 53) as L
    by (apply Z.log2_lt_pow2; [lia | change (2 ^ 53) with 9007199254740992; lia]).
  pose proof (Z.log2_nonneg P) as L0.
  unfold exponent_of. rewrite Z.log2_mul_pow2 by lia.
  set (k := Z.max (a + Z.log2 P + 1 - 2148 - 53) (-1074) + 2148).
  assert (0 <= k <= a) as Hk by (unfold k; lia).
  replace a with ((a - k) + k) at 1 by lia.
  rewrite Z.pow_add_r by lia.
  rewrite Z.mul_assoc.
  apply Z.mod_mul.
  pose proof (@pow2_pos k ltac:(lia)). lia.
Qed.

(** ** The operations in terms of [nearest64] *)

Lemma shl_align_value (mx : positive) (ex ez : Z) :
  ez <= ex ->
  Zpos (fst (shl_align mx ex ez)) = Zpos mx * 2 ^ (ex - ez)
  /\ snd (shl_align mx ex ez) = ez.
Proof.
  intro H. unfold shl_align.
  destruct (ez - ex) as [| d | d] eqn:E; [| lia |]; cbn [fst snd].
  - replace (ex - ez) with 0 by lia. rewrite Z.pow_0_r. lia.
  - rewrite pos_iter_nat, shift_left_nat, positive_nat_Z.
    replace (ex - ez) with (Zpos d) by lia. tauto.
Qed.

Lemma binary_round_value (s : bool) (mx : positive) (ex : Z) :
  -1074 <= ex ->
  binary_round prec emax s mx ex = round64 s (Zpos mx * 2 ^ (ex + 2148)).
Proof.
  intro He.
  unfold binary_round. rewrite fexp_eq.
  set (t := Z.max (Zpos (digits2_pos mx) + ex - 53) (-1074)).
  unfold shl_align.
  destruct (t - ex) as [| d | d] eqn:E.
  - apply binary_round_aux_value; lia.
  - apply binary_round_aux_value; lia.
  - assert (Zpos (PosDef.Pos.iter xO mx d) = Zpos mx * 2 ^ Zpos d) as V
      by (rewrite pos_iter_nat, shift_left_nat, positive_nat_Z; reflexivity).
    rewrite binary_round_aux_value.
    + rewrite V. f_equal. rewrite <- Z.mul_assoc, <- Z.pow_add_r by lia.
      f_equal. f_equal. lia.
    + unfold t. lia.
    + rewrite digits_log2, V, Z.log2_mul_pow2 by lia.
      unfold t in *. rewrite (digits_log2 mx) in *. lia.
Qed.

Lemma binary_normalize_value (I e : Z) :
  -1074 <= e ->
  binary_normalize prec emax I e false = nearest64 (I * 2 ^ (e + 1074)).
Proof.
  intro He.
  pose proof (@pow2_pos (e + 1074) ltac:(lia)) as P.
  assert (forall p, Zpos p * 2 ^ (e + 2148) = Zpos p * 2 ^ (e + 1074) * 2 ^ 1074) as S.
  { intro p. rewrite <- Z.mul_assoc, <- Z.pow_add_r by lia. do 2 f_equal. lia. }
  destruct I as [| p | p]; cbn [binary_normalize].
  - reflexivity.
  - rewrite binary_round_value by exact He.
    destruct (Zpos p * 2 ^ (e + 1074)) as [| q | q] eqn:Q; [lia | | lia].
    cbn [nearest64]. rewrite <- Q, S. reflexivity.
  - rewrite binary_round_value by exact He.
    destruct (Zneg p * 2 ^ (e + 1074)) as [| q | q] eqn:Q; [lia | lia |].
    cbn [nearest64]. rewrite S. f_equal.
    assert (Zpos q = Zpos p * 2 ^ (e + 1074)) as Q' by lia.
    rewrite Q'. reflexivity.
Qed.

Lemma binary_round_exact (s : bool) (m : positive) (e : Z) :
  bounded prec emax m e = true ->
  binary_round prec emax s m e = S754_finite s m e.
Proof.
  intro B.
  destruct (bounded_canonical _ _ B) as (He & Hm & Hn & C).
  unfold binary_round. rewrite fexp_eq, C.
  unfold shl_align. rewrite Z.sub_diag.
  rewrite binary_round_aux_exact by lia.
  rewrite C, Z.sub_diag, Z.add_0_r.
  rewrite rne_exact by (rewrite ?Z.pow_0_r, ?Z.mod_1_r; lia || reflexivity).
  rewrite Z.pow_0_r, Z.div_1_r.
  unfold encode.
  destruct (Z.eqb_spec (Zpos m) 9007199254740992) as [X | X]; [lia |].
  unfold pack.
  destruct (Z.leb_spec e 971); [reflexivity | lia].
Qed.

Lemma nearest64_exact (s : bool) (m : positive) (e : Z) :
  bounded prec emax m e = true ->
  nearest64 (scaled (S754_finite s m e)) = S754_finite s m e.
Proof.
  intro B.
  destruct (bounded_canonical _ _ B) as (He & _).
  cbn [scaled].
  rewrite <- binary_normalize_value by lia.
  destruct s; cbn [binary_normalize]; apply binary_round_exact; exact B.
Qed.

Lemma zero_le_nonneg (s : bool) (x : spec_float) :
  SFnonneg x = true -> SFleb (S754_zero s) x = true.
Proof.
  destruct x as [t | t | | t m e]; try destruct t; cbn; congruence.
Qed.

Lemma nonpos_le_zero (s : bool) (x : spec_float) :
  SFnonpos x = true -> SFleb x (S754_zero s) = true.
Proof.
  destruct x as [t | t | | t m e]; try destruct t; cbn; congruence.
Qed.

Lemma nonpos_le_nonneg (x y : spec_float) :
  SFnonpos x = true -> SFnonneg y = true -> SFleb x y = true.
Proof.
  destruct x as [t | t | | t m e], y as [u | u | | u n f];
    try destruct t; try destruct u; cbn; congruence.
Qed.

Lemma scale_pos (p : positive) (a : Z) : 0 <= a -> 0 < Zpos p * 2 ^ a.
Proof.
  intro H. pose proof (pow2_pos H). lia.
Qed.

Lemma nearest64_mono (V1 V2 : Z) :
  V1 <= V2 -> SFleb (nearest64 V1) (nearest64 V2) = true.
Proof.
  intro H.
  assert (0 < 2 ^ 1074) as P by (apply pow2_pos; lia).
  destruct V1 as [| p1 | p1], V2 as [| p2 | p2]; try lia; cbn [nearest64].
  - reflexivity.
  - apply zero_le_nonneg. apply (@round64_sign false). lia.
  - apply (@round64_mono (Zpos p1 * 2 ^ 1074) (Zpos p2 * 2 ^ 1074)). nia.
  - apply nonpos_le_zero. apply (@round64_sign true). lia.
  - apply nonpos_le_nonneg;
      [apply (@round64_sign true) | apply (@round64_sign false)]; lia.
  - apply (@round64_mono (Zpos p2 * 2 ^ 1074) (Zpos p1 * 2 ^ 1074)). nia.
Qed.

Lemma nearest64_sign (V : Z) :
  (0 <= V -> SFnonneg (nearest64 V) = true)
  /\ (V <= 0 -> SFnonpos (nearest64 V) = true).
Proof.
  assert (0 < 2 ^ 1074) as P by (apply pow2_pos; lia).
  destruct V as [| p | p]; cbn [nearest64]; split; intro H; try lia;
    try reflexivity.
  - apply (@round64_sign false). lia.
  - apply (@round64_sign true). lia.
Qed.

(** A value with at most 53 significant bits, no finer than the smallest
    subnormal and below the overflow threshold, is a binary64. *)
Lemma nearest64_short (I a : Z) :
  Z.abs I < 9007199254740992 -> 0 <= a <= 2045 ->
  SFfinite (nearest64 (I * 2 ^ a)) = true
  /\ valid_binary (nearest64 (I * 2 ^ a)) = true
  /\ scaled (nearest64 (I * 2 ^ a)) = I * 2 ^ a.
Proof.
  intros HI Ha.
  assert (0 < 2 ^ a) as Pa by (apply pow2_pos; lia).
  assert (0 < 2 ^ 1074) as P by (apply pow2_pos; lia).
  assert (forall (s : bool) (q : positive),
            Zpos q = Z.abs I * 2 ^ a ->
            let r := round64 s (Zpos q * 2 ^ 1074) in
            SFfinite r = true /\ valid_binary r = true
            /\ scaled r = (if s then - Zpos q else Zpos q)) as main.
  { intros s q Q r.
    assert (Zpos q * 2 ^ 1074 = Z.abs I * 2 ^ (a + 1074)) as W
      by (rewrite Q, Z.pow_add_r by lia; lia).
    assert (0 < Z.abs I) as I0 by nia.
    destruct (@round64_representable s (Zpos q * 2 ^ 1074)) as (m & R & B & V).
    - lia.
    - rewrite W. apply short_needs_no_rounding; lia.
    - rewrite W. unfold exponent_of. rewrite Z.log2_mul_pow2 by lia.
      assert (Z.log2 (Z.abs I) < 53)
        by (apply Z.log2_lt_pow2; [lia | change (2 ^ 53) with 9007199254740992; lia]).
      lia.
    - unfold r. rewrite R. cbn [SFfinite valid_binary scaled].
      split; [reflexivity |]. split; [exact B |].
      destruct (bounded_canonical _ _ B) as (He & _).
      replace (exponent_of (Zpos q * 2 ^ 1074) + 2148)
        with (exponent_of (Zpos q * 2 ^ 1074) + 1074 + 1074) in V by lia.
      rewrite Z.pow_add_r in V by lia.
      destruct s; nia. }
  destruct (I * 2 ^ a) as [| q | q] eqn:Q; cbn [nearest64].
  - cbn. auto.
  - apply (main false q). nia.
  - apply (main true q). nia.
Qed.

Lemma SFsub_value (sx : bool) (mx : positive) (ex : Z)
    (sy : bool) (my : positive) (ey : Z) :
  bounded prec emax mx ex = true -> bounded prec emax my ey = true ->
  SFsub prec emax (S754_finite sx mx ex) (S754_finite sy my ey) =
  nearest64 (scaled (S754_finite sx mx ex) - scaled (S754_finite sy my ey)).
Proof.
  intros Bx By.
  destruct (bounded_canonical _ _ Bx) as (Hx & _).
  destruct (bounded_canonical _ _ By) as (Hy & _).
  cbn [SFsub scaled].
  change (IntDef.Z.min ex ey) with (Z.min ex ey).
  set (ez := Z.min ex ey).
  rewrite binary_normalize_value by (unfold ez; lia).
  destruct (@shl_align_value mx ex ez ltac:(unfold ez; lia)) as [-> _].
  destruct (@shl_align_value my ey ez ltac:(unfold ez; lia)) as [-> _].
  f_equal.
  replace (ex + 1074) with ((ex - ez) + (ez + 1074)) by lia.
  replace (ey + 1074) with ((ey - ez) + (ez + 1074)) by lia.
  rewrite (Z.pow_add_r 2 (ex - ez) (ez + 1074)) by (unfold ez; lia).
  rewrite (Z.pow_add_r 2 (ey - ez) (ez + 1074)) by (unfold ez; lia).
  destruct sx, sy; cbn [cond_Zopp]; ring.
Qed.

Lemma SFadd_value (sx : bool) (mx : positive) (ex : Z)
    (sy : bool) (my : positive) (ey : Z) :
  bounded prec emax mx ex = true -> bounded prec emax my ey = true ->
  SFadd prec emax (S754_finite sx mx ex) (S754_finite sy my ey) =
  nearest64 (scaled (S754_finite sx mx ex) + scaled (S754_finite sy my ey)).
Proof.
  intros Bx By.
  destruct (bounded_canonical _ _ Bx) as (Hx & _).
  destruct (bounded_canonical _ _ By) as (Hy & _).
  cbn [SFadd scaled].
  change (IntDef.Z.min ex ey) with (Z.min ex ey).
  set (ez := Z.min ex ey).
  rewrite binary_normalize_value by (unfold ez; lia).
  destruct (@shl_align_value mx ex ez ltac:(unfold ez; lia)) as [-> _].
  destruct (@shl_align_value my ey ez ltac:(unfold ez; lia)) as [-> _].
  f_equal.
  replace (ex + 1074) with ((ex - ez) + (ez + 1074)) by lia.
  replace (ey + 1074) with ((ey - ez) + (ez + 1074)) by lia.
  rewrite (Z.pow_add_r 2 (ex - ez) (ez + 1074)) by (unfold ez; lia).
  rewrite (Z.pow_add_r 2 (ey - ez) (ez + 1074)) by (unfold ez; lia).
  destruct sx, sy; cbn [cond_Zopp]; ring.
Qed.

Lemma SFmul_value (mx : positive) (ex : Z) (my : positive) (ey : Z) :
  bounded prec emax mx ex = true -> bounded prec emax my ey = true ->
  SFmul prec emax (S754_finite false mx ex) (S754_finite false my ey) =
  round64 false (scaled (S754_finite false mx ex)
                 * scaled (S754_finite false my ey)).
Proof.
  intros Bx By.
  destruct (bounded_canonical _ _ Bx) as (Hx & Mx & Nx & _).
  destruct (bounded_canonical _ _ By) as (Hy & My & Ny & _).
  cbn [SFmul scaled xorb].
  rewrite binary_round_aux_value.
  - f_equal. rewrite Pos2Z.inj_mul.
    replace (ex + ey + 2148) with ((ex + 1074) + (ey + 1074)) by lia.
    rewrite Z.pow_add_r by lia. ring.
  - lia.
  - rewrite digits_log2.
    destruct (Z.eq_dec ex (-1074)) as [X | X];
      [destruct (Z.eq_dec ey (-1074)) as [Y | Y]; [lia |] |];
      (assert (52 <= Z.log2 (Zpos (mx * my)));
       [apply Z.log2_le_pow2; [lia |];
        change (2 ^ 52) with 4503599627370496; rewrite Pos2Z.inj_mul; nia
       | lia]).
Qed.

Lemma canonical_lt (m1 : positive) (e1 : Z) (m2 : positive) (e2 : Z) :
  bounded prec emax m1 e1 = true -> bounded prec emax m2 e2 = true ->
  e1 < e2 -> Zpos m1 * 2 ^ (e1 + 1074) < Zpos m2 * 2 ^ (e2 + 1074).
Proof.
  intros B1 B2 H.
  destruct (bounded_canonical _ _ B1) as (H1 & M1 & N1 & _).
  destruct (bounded_canonical _ _ B2) as (H2 & M2 & N2 & _).
  replace (e2 + 1074) with ((e2 - e1 - 1) + 1 + (e1 + 1074)) by lia.
  rewrite (Z.pow_add_r 2 (e2 - e1 - 1 + 1) (e1 + 1074)) by lia.
  rewrite (Z.pow_add_r 2 (e2 - e1 - 1) 1), Z.pow_1_r by lia.
  pose proof (@pow2_pos (e1 + 1074) ltac:(lia)) as A.
  pose proof (@pow2_pos (e2 - e1 - 1) ltac:(lia)) as B.
  specialize (N2 ltac:(lia)).
  set (A' := 2 ^ (e1 + 1074)) in *. set (B' := 2 ^ (e2 - e1 - 1)) in *.
  assert (Zpos m1 * A' < 9007199254740992 * A') as X1
    by (apply Z.mul_lt_mono_pos_r; lia).
  assert (A' <= B' * A') as X2 by nia.
  assert (4503599627370496 * (B' * A') <= Zpos m2 * (B' * A')) as X3
    by (apply Z.mul_le_mono_nonneg_r; nia).
  replace (Zpos m2 * (B' * 2 * A')) with (2 * (Zpos m2 * (B' * A'))) by ring.
  lia.
Qed.

(** On finite binary64 numbers the order is the order of the values. *)
Lemma SFleb_value (x y : spec_float) :
  valid_binary x = true -> valid_binary y = true ->
  SFfinite x = true -> SFfinite y = true ->
  SFleb x y = true -> scaled x <= scaled y.
Proof.
  intros Vx Vy Fx Fy.
  destruct x as [sx | sx | | sx mx ex], y as [sy | sy | | sy my ey];
    try discriminate; cbn [valid_binary] in Vx, Vy; cbn [scaled].
  - destruct (bounded_canonical _ _ Vy) as (H & _).
    pose proof (@scale_pos my (ey + 1074) ltac:(lia)).
    unfold SFleb. cbn [SFcompare].
    destruct sy; [discriminate | intros _; lia].
  - destruct (bounded_canonical _ _ Vx) as (H & _).
    pose proof (@scale_pos mx (ex + 1074) ltac:(lia)).
    unfold SFleb. cbn [SFcompare].
    destruct sx; [intros _; lia | discriminate].
  - destruct (bounded_canonical _ _ Vx) as (Hx & _).
    destruct (bounded_canonical _ _ Vy) as (Hy & _).
    pose proof (@scale_pos mx (ex + 1074) ltac:(lia)) as Px.
    pose proof (@scale_pos my (ey + 1074) ltac:(lia)) as Py.
    unfold SFleb. cbn [SFcompare].
    change (PosDef.Pos.compare_cont Eq mx my) with (Pos.compare mx my).
    destruct sx, sy; try (intros _; lia); try discriminate.
    + destruct (Z.compare_spec ex ey) as [E | E | E]; try discriminate.
      * subst ey. destruct (Pos.compare_spec mx my) as [F | F | F];
          cbn [CompOpp]; try discriminate; intros _.
        -- subst my. lia.
        -- pose proof (@pow2_pos (ex + 1074) ltac:(lia)). nia.
      * intros _. pose proof (@canonical_lt _ _ _ _ Vy Vx E). lia.
    + destruct (Z.compare_spec ex ey) as [E | E | E]; try discriminate.
      * subst ey. destruct (Pos.compare_spec mx my) as [F | F | F];
          try discriminate; intros _.
        -- subst my. lia.
        -- pose proof (@pow2_pos (ex + 1074) ltac:(lia)). nia.
      * intros _. pose proof (@canonical_lt _ _ _ _ Vx Vy E). lia.
Qed.

Lemma SFleb_unsigned (x y : spec_float) :
  SFleb x y = SFleb (unsigned_zero x) (unsigned_zero y).
Proof.
  destruct x as [sx | sx | | sx mx ex], y as [sy | sy | | sy my ey]; reflexivity.
Qed.

Lemma SFnonneg_unsigned (x : spec_float) :
  SFnonneg x = SFnonneg (unsigned_zero x).
Proof.
  destruct x as [sx | sx | | sx mx ex]; reflexivity.
Qed.

Lemma SFsub_finite_value (u t : spec_float) :
  valid_binary u = true -> valid_binary t = true ->
  SFfinite u = true -> SFfinite t = true ->
  unsigned_zero (SFsub prec emax u t) =
  unsigned_zero (nearest64 (scaled u - scaled t)).
Proof.
  intros Vu Vt Fu Ft.
  destruct u as [su | su | | su mu eu], t as [st | st | | st mt et];
    try discriminate.
  - destruct su, st; reflexivity.
  - change (SFsub prec emax (S754_zero su) (S754_finite st mt et))
      with (S754_finite (negb st) mt et).
    rewrite <- (@nearest64_exact (negb st) mt et Vt).
    f_equal. f_equal. cbn [scaled]. destruct st; cbn [negb]; lia.
  - change (SFsub prec emax (S754_finite su mu eu) (S754_zero st))
      with (S754_finite su mu eu).
    rewrite <- (@nearest64_exact su mu eu Vu) at 1.
    f_equal. f_equal. cbn [scaled]. lia.
  - rewrite SFsub_value by assumption. reflexivity.
Qed.

Lemma nearest64_number (V : Z) : SFcompare (nearest64 V) (nearest64 V) <> None.
Proof.
  destruct (nearest64_sign V) as [P N].
  destruct (Z_le_gt_dec 0 V) as [H | H].
  - specialize (P H). destruct (nearest64 V) as [s | s | | s m e];
      cbn in *; congruence.
  - specialize (N ltac:(lia)). destruct (nearest64 V) as [s | s | | s m e];
      cbn in *; congruence.
Qed.

(** [u - t] does not grow with [t]. *)
Lemma SFsub_antitone (u t1 t2 : spec_float) :
  valid_binary u = true -> valid_binary t1 = true -> valid_binary t2 = true ->
  SFfinite u = true -> SFnonneg t1 = true -> SFnonneg t2 = true ->
  SFleb t1 t2 = true ->
  SFleb (SFsub prec emax u t2) (SFsub prec emax u t1) = true.
Proof.
  intros Vu V1 V2 Fu N1 N2 L.
  destruct (SFfinite t2) eqn:F2.
  - assert (SFfinite t1 = true) as F1.
    { destruct t1 as [s1 | s1 | | s1 m1 e1], t2 as [s2 | s2 | | s2 m2 e2];
        try destruct s1; try destruct s2; try discriminate; reflexivity. }
    rewrite SFleb_unsigned, !SFsub_finite_value by assumption.
    rewrite <- SFleb_unsigned.
    apply nearest64_mono.
    pose proof (SFleb_value _ _ V1 V2 F1 F2 L). lia.
  - assert (t2 = S754_infinity false) as ->
      by (destruct t2 as [s2 | s2 | | s2 m2 e2]; try destruct s2; try discriminate;
          reflexivity).
    assert (SFsub prec emax u (S754_infinity false) = S754_infinity true) as ->
      by (destruct u as [su | su | | su mu eu]; try discriminate; reflexivity).
    destruct (SFfinite t1) eqn:F1.
    + rewrite SFleb_unsigned, SFsub_finite_value by assumption.
      pose proof (nearest64_number (scaled u - scaled t1)) as X.
      destruct (nearest64 (scaled u - scaled t1)) as [s | s | | s m e];
        try destruct s; cbn in *; congruence.
    + assert (t1 = S754_infinity false) as ->
        by (destruct t1 as [s1 | s1 | | s1 m1 e1]; try destruct s1;
            try discriminate; reflexivity).
      destruct u as [su | su | | su mu eu]; try discriminate; reflexivity.
Qed.

(** [a * s] grows with [a] when [s] is not negative. *)
Lemma SFmul_monotone (a b s : spec_float) :
  valid_binary a = true -> valid_binary b = true -> valid_binary s = true ->
  SFfinite a = true -> SFfinite b = true -> SFfinite s = true ->
  SFnonneg a = true -> SFnonneg b = true -> SFnonneg s = true ->
  SFleb a b = true ->
  SFleb (SFmul prec emax a s) (SFmul prec emax b s) = true
  /\ SFnonneg (SFmul prec emax a s) = true
  /\ SFnonneg (SFmul prec emax b s) = true.
Proof.
  intros Va Vb Vs Fa Fb Fs Na Nb Ns L.
  assert (forall m e, bounded prec emax m e = true ->
                      0 < scaled (S754_finite false m e)) as pos.
  { intros m e B. destruct (bounded_canonical _ _ B) as (He & _).
    cbn [scaled]. apply scale_pos. lia. }
  destruct s as [ss | ss | | ss ms es]; try discriminate.
  - destruct a as [sa | sa | | sa ma ea], b as [sb | sb | | sb mb eb];
      try discriminate; cbn; auto.
  - destruct ss; [discriminate |].
    destruct a as [sa | sa | | sa ma ea], b as [sb | sb | | sb mb eb];
      try discriminate; try destruct sa; try destruct sb; try discriminate;
      cbn [valid_binary] in *.
    all: try (cbn; auto; fail).
    all: rewrite ?SFmul_value by assumption.
    all: try (pose proof (pos _ _ Va)); try (pose proof (pos _ _ Vb));
         pose proof (pos _ _ Vs).
    all: repeat split;
      try (apply zero_le_nonneg);
      try (apply (@round64_sign false); nia);
      try reflexivity.
    apply round64_mono.
    pose proof (SFleb_value (S754_finite false ma ea) (S754_finite false mb eb)
                  Va Vb Fa Fb L).
    split; [nia |]. apply Z.mul_le_mono_nonneg_r; lia.
Qed.

Lemma is_finite_spec (v : float) :
  PrimFloat.is_finite v = true -> SFfinite (Prim2SF v) = true.
Proof.
  unfold PrimFloat.is_finite, PrimFloat.is_nan, PrimFloat.is_infinity.
  rewrite !FloatAxioms.eqb_spec, abs_spec.
  change (Prim2SF infinity) with (S754_infinity false).
  destruct (Prim2SF v) as [s | s | | s m e]; try destruct s; cbn; congruence.
Qed.

Lemma binary_round_aux_sign (s : bool) (m e : Z) (l : location) :
  SFfinite (binary_round_aux prec emax s m e l) = true ->
  (if s then SFnonpos (binary_round_aux prec emax s m e l)
   else SFnonneg (binary_round_aux prec emax s m e l)) = true.
Proof.
  unfold binary_round_aux.
  destruct (shr_fexp prec emax m e l) as [mrs' e'].
  destruct (shr_fexp prec emax _ e' loc_Exact) as [mrs'' e''].
  destruct (shr_m mrs'') as [| p | p]; [| destruct (_ <=? _)%Z |];
    destruct s; cbn; congruence.
Qed.

(** A finite quotient by a positive number: the dividend is finite, and the
    quotient is not negative when the dividend is not. *)
Lemma SFdiv_finite (d : spec_float) (m : positive) (e : Z) :
  SFfinite (SFdiv prec emax d (S754_finite false m e)) = true ->
  SFfinite d = true
  /\ (SFnonneg d = true ->
      SFnonneg (SFdiv prec emax d (S754_finite false m e)) = true).
Proof.
  destruct d as [sd | sd | | sd md ed]; try (cbn; congruence).
  - intros _. split; [reflexivity |]. destruct sd; reflexivity.
  - cbn [SFdiv].
    destruct (SFdiv_core_binary prec emax (Zpos md) ed (Zpos m) e) as [[mz ez] lz].
    intro F. split; [reflexivity |].
    destruct sd; [discriminate |]. intros _.
    apply (@binary_round_aux_sign (xorb false false) mz ez lz F).
Qed.

(** A finite difference [u - l] with [l <= u]: both are finite, and the
    difference is not negative. *)
Lemma SFsub_ordered (u l : spec_float) :
  valid_binary u = true -> valid_binary l = true ->
  SFfinite (SFsub prec emax u l) = true -> SFleb l u = true ->
  SFfinite u = true /\ SFfinite l = true
  /\ SFnonneg (SFsub prec emax u l) = true.
Proof.
  intros Vu Vl F L.
  assert (SFfinite u = true /\ SFfinite l = true) as [Fu Fl].
  { destruct u as [su | su | | su mu eu], l as [sl | sl | | sl ml el];
      try destruct su; try destruct sl; try discriminate; auto. }
  split; [exact Fu |]. split; [exact Fl |].
  pose proof (SFleb_value _ _ Vl Vu Fl Fu L) as V.
  pose proof (SFsub_finite_value u l Vu Vl Fu Fl) as S.
  destruct (nearest64_sign (scaled u - scaled l)) as [P _].
  specialize (P ltac:(lia)).
  rewrite SFnonneg_unsigned, S, <- SFnonneg_unsigned.
  exact P.
Qed.

(** ** Python [int]s as binary64 *)

Lemma float64_of_int_exact (k : Z) :
  (Z.abs k < 9007199254740992)%Z ->
  Prim2SF (float64_of_int k) = nearest64 (k * 2 ^ 1074)
  /\ SFfinite (nearest64 (k * 2 ^ 1074)) = true
  /\ valid_binary (nearest64 (k * 2 ^ 1074)) = true
  /\ scaled (nearest64 (k * 2 ^ 1074)) = (k * 2 ^ 1074)%Z.
Proof.
  intro H.
  destruct (@nearest64_short k 1074 H ltac:(lia)) as (F & V & S).
  unfold float64_of_int.
  rewrite binary_normalize_value by lia.
  change (0 + 1074)%Z with 1074%Z.
  rewrite Prim2SF_SF2Prim by exact V.
  auto.
Qed.

Lemma float64_of_int_order (j k : Z) :
  (0 <= j <= k)%Z -> (k < 9007199254740992)%Z ->
  let a := Prim2SF (float64_of_int j) in
  let b := Prim2SF (float64_of_int k) in
  valid_binary a = true /\ valid_binary b = true
  /\ SFfinite a = true /\ SFfinite b = true
  /\ SFnonneg a = true /\ SFnonneg b = true
  /\ SFleb a b = true.
Proof.
  intros Hj Hk a b.
  destruct (@float64_of_int_exact j ltac:(lia)) as (Ej & Fj & Vj & Sj).
  destruct (@float64_of_int_exact k ltac:(lia)) as (Ek & Fk & Vk & Sk).
  assert (0 < 2 ^ 1074)%Z as P by (apply pow2_pos; lia).
  unfold a, b. rewrite Ej, Ek.
  repeat split; try assumption.
  - apply nearest64_sign. nia.
  - apply nearest64_sign. nia.
  - apply nearest64_mono. nia.
Qed.

(** ** The order of binary64 *)

Unset Implicit Arguments.

Ltac order_cases :=
  repeat match goal with
         | H : context [(?a ?= ?b)%Z] |- _ =>
             destruct (Z.compare_spec a b); simpl in H
         | |- context [(?a ?= ?b)%Z] => destruct (Z.compare_spec a b); simpl
         | H : context [PosDef.Pos.compare_cont Eq ?a ?b] |- _ =>
             change (PosDef.Pos.compare_cont Eq a b) with (a ?= b)%positive in H;
             destruct (Pos.compare_spec a b); simpl in H
         | |- context [PosDef.Pos.compare_cont Eq ?a ?b] =>
             change (PosDef.Pos.compare_cont Eq a b) with (a ?= b)%positive;
             destruct (Pos.compare_spec a b); simpl
         end;
  try congruence; try lia.

Ltac three_floats a b c :=
  destruct a as [[]|[]| |[] ? ?], b as [[]|[]| |[] ? ?], c as [[]|[]| |[] ? ?];
  simpl; try congruence; intros; order_cases.

Lemma SFleb_ltb_trans (a b c : spec_float) :
  SFleb a b = true -> SFltb b c = true -> SFltb a c = true.
Proof. unfold SFleb, SFltb. three_floats a b c. Qed.

Lemma SFleb_trans (a b c : spec_float) :
  SFleb a b = true -> SFleb b c = true -> SFleb a c = true.
Proof. unfold SFleb. three_floats a b c. Qed.

Lemma leb_trans (a b c : float) :
  PrimFloat.leb a b = true -> PrimFloat.leb b c = true ->
  PrimFloat.leb a c = true.
Proof. rewrite !leb_spec. apply SFleb_trans. Qed.

Lemma leb_ltb_trans (a b c : float) :
  PrimFloat.leb a b = true -> PrimFloat.ltb b c = true ->
  PrimFloat.ltb a c = true.
Proof. rewrite !leb_spec, !ltb_spec. apply SFleb_ltb_trans. Qed.

Lemma ltb_leb (a b : float) :
  PrimFloat.ltb a b = true -> PrimFloat.leb a b = true.
Proof.
  rewrite ltb_spec, leb_spec. unfold SFltb, SFleb.
  destruct (SFcompare _ _) as [[]|]; congruence.
Qed.

(** Python's [min(a, u)] and [max(a, l)] grow with [a]. *)
Lemma py_min_monotone (a b u : float) :
  a_number u -> PrimFloat.leb a b = true ->
  PrimFloat.leb (py_min a u) (py_min b u) = true.
Proof.
  intros Nu L. destruct (leb_numbers _ _ L) as [Na Nb].
  unfold py_min. simpl.
  destruct (PrimFloat.ltb u a) eqn:A, (PrimFloat.ltb u b) eqn:B.
  - exact Nu.
  - pose proof (not_ltb_leb b u Nb Nu B) as X.
    pose proof (leb_not_ltb _ _ (leb_trans _ _ _ L X)). congruence.
  - apply not_ltb_leb; assumption.
  - exact L.
Qed.

Lemma py_max_monotone (a b l : float) :
  a_number l -> PrimFloat.leb a b = true ->
  PrimFloat.leb (py_max a l) (py_max b l) = true.
Proof.
  intros Nl L. destruct (leb_numbers _ _ L) as [Na Nb].
  unfold py_max. simpl.
  destruct (PrimFloat.ltb a l) eqn:A, (PrimFloat.ltb b l) eqn:B.
  - exact Nl.
  - apply not_ltb_leb; assumption.
  - apply leb_trans with b; [exact L | apply ltb_leb; exact B].
  - exact L.
Qed.

Lemma clamp_monotone (lb ub a b : float) :
  PrimFloat.leb lb ub = true -> PrimFloat.leb a b = true ->
  PrimFloat.leb (clamp lb ub a) (clamp lb ub b) = true.
Proof.
  intros Hb L. destruct (leb_numbers _ _ Hb) as [Nl Nu].
  unfold clamp. apply py_max_monotone; [exact Nl |].
  apply py_min_monotone; assumption.
Qed.

Set Implicit Arguments.

(** With a finite ramp step the value before the clamping line does not
    grow along the ramp. *)
Lemma ramp_descends_float64 (lb ub : float) (n j k : Z) :
  PrimFloat.leb lb ub = true ->
  0 < n < 9007199254740992 ->
  PrimFloat.is_finite ((ub - lb) / float64_of_int n) = true ->
  0 <= j <= k -> k < 9007199254740992 ->
  PrimFloat.leb (ub - float64_of_int k * ((ub - lb) / float64_of_int n))
                (ub - float64_of_int j * ((ub - lb) / float64_of_int n)) = true.
Proof.
  intros Hb Hn Hfin Hj Hk.
  set (step := ((ub - lb) / float64_of_int n)%float) in *.
  assert (SFfinite (Prim2SF step) = true) as FS by (apply is_finite_spec; exact Hfin).
  assert (SFfinite (Prim2SF ub) = true /\ SFnonneg (Prim2SF step) = true) as [FU NS].
  { unfold step in *. rewrite div_spec, sub_spec in *.
    destruct (@float64_of_int_exact n ltac:(lia)) as (En & Fn & Vn & Sn).
    rewrite En in *.
    assert (0 < 2 ^ 1074) as P by (apply pow2_pos; lia).
    destruct (nearest64 (n * 2 ^ 1074)) as [s | s | | s m e];
      try discriminate; cbn [scaled] in Sn; [nia |].
    destruct s.
    { cbn [valid_binary] in Vn.
      destruct (bounded_canonical _ _ Vn) as (He & _).
      pose proof (@scale_pos m (e + 1074) ltac:(lia)). nia. }
    destruct (SFdiv_finite _ _ _ FS) as [FD ND].
    rewrite leb_spec in Hb.
    destruct (SFsub_ordered _ _ (Prim2SF_valid ub) (Prim2SF_valid lb) FD Hb)
      as (FU & _ & NDiff).
    split; [exact FU | exact (ND NDiff)]. }
  destruct (float64_of_int_order Hj Hk) as (Va & Vb & Fa & Fb & Na & Nb & Lab).
  destruct (SFmul_monotone _ _ _ Va Vb (Prim2SF_valid step) Fa Fb FS Na Nb NS Lab)
    as (Lt & Nta & Ntb).
  rewrite leb_spec, !sub_spec.
  apply SFsub_antitone; try apply Prim2SF_valid; try assumption;
    rewrite !mul_spec; assumption.
Qed.

(** On binary64 with [lb <= ub], at least two ramp nodes and a finite ramp
    step, the returned array never rises. *)
Lemma float64_descends {T} (x y : list T) (c : Z) (lb ub : float) :
  PrimFloat.leb lb ub = true ->
  c + 1 < len x -> len x - c <= 9007199254740992 ->
  PrimFloat.is_finite ((ub - lb) / float64_of_int (len x - c - 1)) = true ->
  exists zs,
    generate_z_coordinates_with_constant x y c lb ub = Ok zs
    /\ Sorted (fun before after => PrimFloat.leb after before = true) zs.
Proof.
  intros Hb Hc Hlen Hfin.
  rewrite float64_returns by lia.
  eexists. split; [reflexivity |].
  destruct (leb_numbers _ _ Hb) as [Nl Nu].
  assert (forall i, c <= i -> i + 1 < len x ->
            PrimFloat.leb
              (ramp_entry c lb ub
                 ((ub - lb) / float64_of_int (ramp_divisor x c))%float (i + 1))
              (ramp_entry c lb ub
                 ((ub - lb) / float64_of_int (ramp_divisor x c))%float i) = true)
    as step.
  { intros i Hi Hi'. unfold ramp_entry.
    apply clamp_monotone; [exact Hb |].
    unfold ramp_divisor. cbn [of_int sub mul float64].
    apply ramp_descends_float64; try assumption; lia. }
  apply sorted_repeat_app.
  - exact Nu.
  - rewrite range_cons by lia. cbn [map]. constructor.
    unfold ramp_entry at 1.
    destruct (clamp_float64 lb ub
                (sub ub (mul (of_int (c - c))
                   ((ub - lb) / float64_of_int (ramp_divisor x c))%float)) Hb)
      as [Nan | [_ Le]].
    + exfalso. apply Nan.
      exact (proj2 (leb_numbers _ _ (step c ltac:(lia) ltac:(lia)))).
    + exact Le.
  - apply sorted_map_range. exact step.
Qed.

(** ** Subtracting and adding back a number of the same binade *)

Lemma same_exponent_round_trip (v c : float) (m mc : positive) (e : Z) :
  Prim2SF v = S754_finite false m e ->
  Prim2SF c = S754_finite false mc e ->
  (v - c + c)%float = v.
Proof.
  intros Hv Hc.
  pose proof (Prim2SF_valid v) as Vv. rewrite Hv in Vv.
  pose proof (Prim2SF_valid c) as Vc. rewrite Hc in Vc.
  cbn [valid_binary] in Vv, Vc.
  destruct (bounded_canonical _ _ Vv) as (He & Mv & _).
  destruct (bounded_canonical _ _ Vc) as (_ & Mc & _).
  apply Prim2SF_inj.
  rewrite add_spec, sub_spec, Hv, Hc.
  unfold SF64add, SF64sub.
  rewrite SFsub_value by assumption.
  assert (scaled (S754_finite false m e) - scaled (S754_finite false mc e)
          = (Zpos m - Zpos mc) * 2 ^ (e + 1074)) as D by (cbn [scaled]; ring).
  rewrite D.
  destruct (@nearest64_short (Zpos m - Zpos mc) (e + 1074) ltac:(lia) ltac:(lia))
    as (F & V & S).
  assert (0 < 2 ^ (e + 1074)) as P by (apply pow2_pos; lia).
  destruct (nearest64 ((Zpos m - Zpos mc) * 2 ^ (e + 1074)))
    as [s | s | | s m' e'] eqn:R; try discriminate.
  - cbn [scaled] in S.
    assert (m = mc) as -> by nia.
    reflexivity.
  - rewrite SFadd_value by assumption.
    rewrite S.
    replace ((Zpos m - Zpos mc) * 2 ^ (e + 1074) + scaled (S754_finite false mc e))
      with (scaled (S754_finite false m e)) by (cbn [scaled]; ring).
    apply nearest64_exact. exact Vv.
Qed.

(** A binary64 from [2 ^ (e + 52)] up to, but not reaching,
    [2 ^ (e + 53)] has exponent [e]. *)
Lemma binade_exponent_of (c : positive) (x : spec_float) (e : Z) :
  Zpos c = 4503599627370496 ->
  valid_binary x = true -> -1074 <= e ->
  SFleb (S754_finite false c e) x = true ->
  SFltb x (S754_finite false c (e + 1)) = true ->
  exists m, x = S754_finite false m e.
Proof.
  intros C V He L U.
  destruct x as [s | s | | s m ex];
    [destruct s; discriminate | destruct s; discriminate | discriminate |].
  destruct s; [discriminate |].
  cbn [valid_binary] in V.
  destruct (bounded_canonical _ _ V) as (Hx & Mx & Nx & _).
  exists m. f_equal.
  unfold SFleb, SFltb in *. cbn [SFcompare] in *.
  change (PosDef.Pos.compare_cont Eq m c) with (Pos.compare m c) in U.
  destruct (Z.compare_spec e ex) as [E1 | E1 | E1]; [symmetry; exact E1 | | discriminate].
  destruct (Z.compare_spec ex (e + 1)) as [E2 | E2 | E2]; [| lia | discriminate].
  subst ex. specialize (Nx ltac:(lia)).
  destruct (Pos.compare_spec m c) as [X | X | X]; try discriminate; lia.
Qed.

Lemma binade_exponent (x : spec_float) (e : Z) :
  valid_binary x = true -> -1074 <= e ->
  SFleb (S754_finite false 4503599627370496 e) x = true ->
  SFltb x (S754_finite false 4503599627370496 (e + 1)) = true ->
  exists m, x = S754_finite false m e.
Proof.
  apply binade_exponent_of. reflexivity.
Qed.

Lemma easting_round_trip (v : float) :
  PrimFloat.leb 524288 v = true -> PrimFloat.ltb v 1048576 = true ->
  (v - 560000 + 560000)%float = v.
Proof.
  rewrite leb_spec, ltb_spec. intros L U.
  destruct (@binade_exponent (Prim2SF v) (-33) (Prim2SF_valid v) ltac:(lia) L U)
    as [m Hm].
  apply (@same_exponent_round_trip v 560000%float m 4810363371520000%positive (-33) Hm).
  vm_compute. reflexivity.
Qed.

Lemma northing_round_trip (v : float) :
  PrimFloat.leb 4194304 v = true -> PrimFloat.ltb v 8388608 = true ->
  (v - 4300000 + 4300000)%float = v.
Proof.
  rewrite leb_spec, ltb_spec. intros L U.
  destruct (@binade_exponent (Prim2SF v) (-30) (Prim2SF_valid v) ltac:(lia) L U)
    as [m Hm].
  apply (@same_exponent_round_trip v 4300000%float m 4617089843200000%positive (-30) Hm).
  vm_compute. reflexivity.
Qed.

End Binary64.

(** On the binades of the two offsets, adding an offset back after
    subtracting it gives the very same binary64 numbers. *)
Lemma round_trip_of_eastings (a : ndarray) :
  Forall (between 524288 1048576) a ->
  map (fun v => v + 560000) (local_x a) = a.
Proof.
  unfold local_x. rewrite map_map.
  induction 1 as [|v a [Hlo Hhi] _ IH]; simpl; [reflexivity|].
  rewrite IH, (easting_round_trip Hlo Hhi). reflexivity.
Qed.

Lemma round_trip_of_northings (a : ndarray) :
  Forall (between 4194304 8388608) a ->
  map (fun v => v + 4300000) (local_y a) = a.
Proof.
  unfold local_y. rewrite map_map.
  induction 1 as [|v a [Hlo Hhi] _ IH]; simpl; [reflexivity|].
  rewrite IH, (northing_round_trip Hlo Hhi). reflexivity.
Qed.

(** ** More on the clamping line and on the loop *)

Unset Implicit Arguments.

Lemma nan_is_no_number (v : float) : Prim2SF v = S754_nan -> ~ a_number v.
Proof. intros Hv. rewrite a_number_spec, Hv. simpl. congruence. Qed.

(** A NaN passes the clamping line unchanged. *)
Lemma clamp_nan (lb ub v : float) : ~ a_number v -> clamp lb ub v = v.
Proof.
  intros Hnan. unfold clamp, py_min, py_max. simpl.
  destruct (nan_not_ltb v ub Hnan) as [_ ->].
  destruct (nan_not_ltb v lb Hnan) as [-> _]. reflexivity.
Qed.

(** [ub - 0 * (d / 0)] is a NaN, whatever [ub] and [d]. *)
Lemma zero_times_quotient_by_zero (ub d : float) :
  Prim2SF (ub - 0 * (d / 0)) = S754_nan.
Proof.
  rewrite sub_spec, mul_spec, div_spec.
  change (Prim2SF 0) with (S754_zero false).
  destruct (Prim2SF d) as [sd|sd| |sd md ed], (Prim2SF ub) as [su|su| |su mu eu];
    reflexivity.
Qed.

(** With the bounds the wrong way round the clamping line yields the lower
    bound, or hands a NaN through. *)
Lemma clamp_swapped_float64 (lb ub v : float) :
  PrimFloat.ltb ub lb = true ->
  ~ a_number (clamp lb ub v) \/ clamp lb ub v = lb.
Proof.
  intros Hb.
  destruct (leb_numbers _ _ (ltb_leb _ _ Hb)) as [Hub Hlb].
  destruct (PrimFloat.leb v v) eqn:Hv.
  - right. unfold clamp, py_min, py_max. simpl.
    destruct (PrimFloat.ltb ub v) eqn:Huv.
    + now rewrite Hb.
    + pose proof (not_ltb_leb v ub Hv Hub Huv) as Hvu.
      now rewrite (leb_ltb_trans _ _ _ Hvu Hb).
  - left. assert (Hnan : ~ a_number v) by (unfold a_number; congruence).
    now rewrite clamp_nan.
Qed.

Set Implicit Arguments.

Lemma clamp_swapped (lb ub v : Q) : (ub < lb)%Q -> clamp lb ub v = lb.
Proof.
  intros Hb. unfold clamp, py_min, py_max. simpl.
  assert (Hw : forall w, (w <= ub)%Q -> negb (Qle_bool lb w) = true).
  { intros w Hw. destruct (Qle_bool lb w) eqn:Hle; [|reflexivity].
    apply Qle_bool_iff in Hle. lra. }
  destruct (negb (Qle_bool v ub)) eqn:Huv.
  - rewrite Hw by apply Qle_refl. reflexivity.
  - rewrite Hw; [reflexivity|].
    now apply Bool.negb_false_iff, Qle_bool_iff in Huv.
Qed.

Lemma len_map {T U} (f : T -> U) (l : list T) : len (map f l) = len l.
Proof. unfold len. now rewrite length_map. Qed.

Lemma for_each_ext {I S} (items : list I) (body body' : I -> S -> result S)
    (st : S) :
  (forall i s, body i s = body' i s) ->
  for_each items body st = for_each items body' st.
Proof.
  intros Hbody. revert st.
  induction items as [|i rest IH]; intros st; simpl; [reflexivity|].
  rewrite Hbody. destruct (body' i st); simpl; auto.
Qed.

(* ===================================================================== *)
(** * Part 8: reasoning about a run *)
(* ===================================================================== *)

(** ** What a computation adds to the record *)

Section Emits.
Context {X : Type}.
Variable tag : call -> list X.
Variable lib : Library.

Lemma emits_ret {T} (v : T) : emits tag (ret v) [].
Proof. intros h. exists []. now rewrite app_nil_r. Qed.

Lemma emits_lift {T} (r : result T) : emits tag (lift r) [].
Proof.
  intros h. unfold lift. destruct r.
  - exists []. now rewrite app_nil_r.
  - exists [], []. now rewrite app_nil_r.
Qed.

Lemma emits_call_lib (c : call) (S : list X) :
  tag c = S -> emits tag (call_lib lib c) S.
Proof.
  intros <- h. unfold call_lib. destruct (lib h c).
  - exists [c]. simpl. now rewrite app_nil_r.
  - exists [c], []. simpl. now rewrite !app_nil_r.
Qed.

Lemma emits_call_local {T} (c : call) (body : result T) (S : list X) :
  tag c = S -> emits tag (call_local c body) S.
Proof.
  intros <- h. unfold call_local. destruct body.
  - exists [c]. simpl. now rewrite app_nil_r.
  - exists [c], []. simpl. now rewrite !app_nil_r.
Qed.

Lemma emits_bind {T U} (m : M T) (k : T -> M U) (S1 S2 : list X) :
  emits tag m S1 -> (forall v, emits tag (k v) S2) ->
  emits tag (bindM m k) (S1 ++ S2).
Proof.
  intros Hm Hk h. unfold bindM. specialize (Hm h).
  destruct (m h) as [[v|e] h1].
  - destruct Hm as (e1 & -> & <-). specialize (Hk v (h ++ e1)).
    destruct (k v (h ++ e1)) as [[w|e] h2].
    + destruct Hk as (e2 & -> & <-). exists (e1 ++ e2).
      split; [now rewrite app_assoc | apply flat_map_app].
    + destruct Hk as (e2 & rest & -> & <-). exists (e1 ++ e2), rest.
      split; [now rewrite app_assoc|].
      rewrite flat_map_app, <- app_assoc. reflexivity.
  - destruct Hm as (e1 & rest & -> & <-). exists e1, (rest ++ S2).
    split; [reflexivity | now rewrite app_assoc].
Qed.

Lemma emits_for_eachM {I} (items : list I) (body : I -> M unit) :
  (forall i, emits tag (body i) []) -> emits tag (for_eachM items body) [].
Proof.
  intros Hbody. induction items as [|i rest IH]; simpl.
  - apply emits_ret.
  - change (@nil X) with (@nil X ++ []). apply emits_bind; auto.
Qed.

Lemma emits_eq {T} (m : M T) (S S' : list X) :
  emits tag m S' -> S' = S -> emits tag m S.
Proof. now intros Hm <-. Qed.

End Emits.

(** ** What a computation preserves *)

Section Respects.
Variable lib : Library.
Variable Inv : list call -> Prop.
Variable Fail : exn -> list call -> Prop.
Hypothesis Inv_Fail : forall e h, Inv h -> Fail e h.

Lemma respects_ret {T} (v : T) : respects Inv Fail (ret v).
Proof. intros h Hh. exact Hh. Qed.

Lemma respects_lift {T} (r : result T) : respects Inv Fail (lift r).
Proof. intros h Hh. unfold lift. destruct r; auto. Qed.

Lemma respects_call_lib (c : call) :
  sound_site Inv Fail c (fun h => lib h c) ->
  respects Inv Fail (call_lib lib c).
Proof. intros Hc h Hh. unfold call_lib. apply Hc, Hh. Qed.

Lemma respects_call_local {T} (c : call) (body : result T) :
  sound_site Inv Fail c (fun _ => body) ->
  respects Inv Fail (call_local c body).
Proof. intros Hc h Hh. unfold call_local. apply (Hc h Hh). Qed.

Lemma respects_bind {T U} (m : M T) (k : T -> M U) :
  respects Inv Fail m -> (forall v, respects Inv Fail (k v)) ->
  respects Inv Fail (bindM m k).
Proof.
  intros Hm Hk h Hh. unfold bindM. specialize (Hm h Hh).
  destruct (m h) as [[v|e] h1]; [|exact Hm]. apply Hk, Hm.
Qed.

Lemma respects_for_eachM {I} (items : list I) (body : I -> M unit) :
  (forall i, respects Inv Fail (body i)) ->
  respects Inv Fail (for_eachM items body).
Proof.
  intros Hbody. induction items as [|i rest IH]; simpl.
  - apply respects_ret.
  - apply respects_bind; auto.
Qed.

End Respects.

(** Unfolding the notebook down to its calls. *)
Ltac open_notebook :=
  cbv beta iota zeta delta
    [notebook pass_t1 pass_t2 rendering
     cell_04 cell_06 cell_08 cell_10 cell_12 cell_14 cell_16 cell_19
     cell_21 cell_24 cell_26 cell_28 cell_30 cell_32 cell_34 cell_36
     cell_40 cell_41 cell_50 cell_52 cell_55
     build_3d_model export_last read_first_line resample_centerline
     savgol_filter np_flip np_ones mp_Channel migrate subplots
     ax_plot ax_text plot_channel plt_legend plt_axis py_round py_print
     py_import
     label_points label_channel facies_volume mlab_figure block_diagram
     random_cookie known call_array call_float call_gdf call_channel
     call_belt call_void call_tuple].

(** Walking a computation along its structure. *)
Ltac walk_emits :=
  repeat (intros;
    lazymatch goal with
    | |- emits _ (bindM _ _) _ => eapply emits_bind
    | |- emits _ (ret _) _ => apply emits_ret
    | |- emits _ (lift _) _ => apply emits_lift
    | |- emits _ (call_lib _ _) _ => apply emits_call_lib; lazy; reflexivity
    | |- emits _ (call_local _ _) _ => apply emits_call_local; lazy; reflexivity
    | |- emits _ (for_eachM _ _) _ =>
        apply emits_for_eachM; intros; eapply emits_eq
    | |- emits _ (match ?v with _ => _ end) _ => destruct v
    | |- @eq (list _) _ _ => lazy; reflexivity
    end).

Ltac walk_respects inv_fail site :=
  repeat (intros;
    lazymatch goal with
    | |- respects _ _ (bindM _ _) => apply respects_bind
    | |- respects _ _ (ret _) => apply respects_ret
    | |- respects _ _ (lift _) => apply respects_lift; inv_fail
    | |- respects _ _ (call_lib _ _) => apply respects_call_lib; site
    | |- respects _ _ (call_local _ _) => apply respects_call_local; site
    | |- respects _ _ (for_eachM _ _) => apply respects_for_eachM
    | |- respects _ _ (match ?v with _ => _ end) => destruct v
    end).

(** ** Properties that every recorded call has *)

Section EveryCall.
Variable lib : Library.
Variable P : call -> Prop.

Lemma every_call_site {T} (c : call) (answer : list call -> result T) :
  P c -> sound_site (Forall P) (fun _ => Forall P) c answer.
Proof.
  intros Hc h Hh.
  assert (Hall : Forall P (h ++ [c])) by (apply Forall_app; auto).
  destruct (answer h); exact Hall.
Qed.

End EveryCall.

Ltac every_call site :=
  walk_respects ltac:(intros ? ? Hinv; exact Hinv)
                ltac:(apply every_call_site; site).

Lemma notebook_passes_constants (lib : Library) :
  respects (Forall passes_constants) (fun _ => Forall passes_constants)
    (notebook lib).
Proof.
  open_notebook.
  every_call ltac:(unfold passes_constants; simpl;
                   repeat split; intros; try discriminate;
                   try (eexists; reflexivity); eauto 20).
Qed.


(** ** Calls that raise *)


(** ** Runs that finish *)

Lemma bindM_ok {T U} (m : M T) (k : T -> M U) (h h' : list call) (v : U) :
  bindM m k h = (Ok v, h') ->
  exists u h1, m h = (Ok u, h1) /\ k u h1 = (Ok v, h').
Proof.
  unfold bindM. destruct (m h) as [[u|e] h1]; [|discriminate].
  intros Hk. eauto.
Qed.

Lemma emits_grows {X T} (tag : call -> list X) (m : M T) (S : list X)
    (h h' : list call) (r : result T) :
  emits tag m S -> m h = (r, h') -> exists e, h' = h ++ e.
Proof.
  intros Hm Hrun. specialize (Hm h). rewrite Hrun in Hm.
  destruct r as [v|err];
    [destruct Hm as (e & -> & _) | destruct Hm as (e & _ & -> & _)];
    eauto.
Qed.

(** The record only grows: a call stays recorded. *)
Ltac grows H :=
  eapply (emits_grows (tag := fun _ => @nil unit)) in H;
  [ | open_notebook; walk_emits ].

Ltac next_cell H u h E :=
  apply bindM_ok in H; destruct H as (u & h & E & H).

Section Cells.
Variable lib : Library.

Lemma migrate_spec (chb chb' : ChannelBelt.t) (h h' : list call) :
  migrate lib chb h = (Ok chb', h') ->
  h' = h ++ [migrate_call chb]
  /\ lib h (migrate_call chb) = Ok (PChannelBelt chb').
Proof.
  unfold migrate, migrate_call, migrate_args, call_belt, bindM, call_lib, lift.
  destruct (lib h _) as [[]|]; simpl; intros Hrun; try discriminate.
  now inversion Hrun.
Qed.

Lemma mp_Channel_spec (x y z : ndarray) (ch : Channel.t) (h h' : list call) :
  mp_Channel lib x y z h = (Ok ch, h') ->
  h' = h ++ [channel_call x y z]
  /\ lib h (channel_call x y z) = Ok (PChannel ch).
Proof.
  unfold mp_Channel, channel_call, call_channel, bindM, call_lib, lift.
  destruct (lib h _) as [[]|]; simpl; intros Hrun; try discriminate.
  now inversion Hrun.
Qed.

(** What an export records, whether or not it gets to the end. *)
Lemma export_last_spec (chb : ChannelBelt.t) (path : string)
    (last : Channel.t) (h : list call) :
  index (ChannelBelt.channels chb) (-1) = Ok last ->
  exists e,
    snd (export_last lib chb path h) = h ++ e
    /\ (forall c, In c e -> callee c = "to_file"%string ->
          c = to_file_call last path)
    /\ (fst (export_last lib chb path h) = Ok tt ->
          In (to_file_call last path) e).
Proof.
  intros Hlast.
  unfold export_last, known, call_void, bindM, call_lib, lift, ret.
  rewrite Hlast.
  repeat match goal with
         | |- context [lib ?h0 ?c] =>
             destruct (lib h0 c); rewrite <- ?app_assoc; simpl
         end;
    eexists; (split; [reflexivity|]); split;
    try (intros c Hin Hc; simpl in Hin;
         repeat (destruct Hin as [<-|Hin]; try discriminate Hc);
         solve [reflexivity | contradiction]);
    intros Hok; try discriminate Hok; simpl; tauto.
Qed.

(** What cell 24 returns is what the notebook's own function computes. *)
Lemma cell_24_spec (chb : ChannelBelt.t) (x y z : ndarray)
    (h h' : list call) :
  cell_24 lib chb x y h = (Ok z, h') ->
  exists lower upper e,
    h' = h ++ e ++ [elevation_call x y lower upper]
    /\ generate_z_coordinates_with_constant x y N lower upper = Ok z.
Proof.
  unfold cell_24, call_float, call_local, bindM, call_lib, lift.
  destruct (index (ChannelBelt.channels chb) 0); [|discriminate].
  destruct (lib h _) as [[]|]; simpl; try discriminate.
  destruct (index (ChannelBelt.channels chb) (-1)); [|discriminate].
  destruct (lib _ _) as [[]|]; simpl; try discriminate.
  intros Hrun. inversion Hrun as [[Hz Hh]].
  eexists _, _, [_; _]. split; [|reflexivity].
  rewrite <- !app_assoc. reflexivity.
Qed.

End Cells.

(** ** What the loading cells hand on *)

Section Loading.
Variable lib : Library.

Lemma known_spec {T} (c : call) (v u : T) (h h' : list call) :
  known lib c v h = (Ok u, h') -> u = v /\ h' = h ++ [c].
Proof.
  unfold known, bindM, call_lib, ret. destruct (lib h c); [|discriminate].
  intros Hrun. now inversion Hrun.
Qed.

Lemma savgol_filter_spec (a s : ndarray) (window_size order : Z)
    (h h' : list call) :
  savgol_filter lib a window_size order h = (Ok s, h') ->
  lib h (savgol_call a window_size order) = Ok (PArray s).
Proof.
  unfold savgol_filter, savgol_call, call_array, bindM, call_lib, lift.
  destruct (lib h _) as [[]|]; simpl; intros Hrun; try discriminate.
  now inversion Hrun.
Qed.

(** Cell 6 hands on the smoothed local coordinates: the resampled [x] and
    [y], reversed, less 560000 and 4300000. *)
Lemma cell_06_spec (x y z : ndarray) (h h' : list call) :
  cell_06 lib h = (Ok (x, y, z), h') ->
  exists xr yr h1 h2,
    lib h1 (savgol_call (array_sub_int (flip xr) 560000) 11 2)
      = Ok (PArray x)
    /\ lib h2 (savgol_call (array_sub_int (flip yr) 4300000) 11 2)
       = Ok (PArray y).
Proof.
  intros H. unfold cell_06 in H.
  next_cell H p g1 E1. destruct p as [x0 y0]. simpl in H.
  next_cell H z0 g2 E2.
  next_cell H r g3 E3. destruct r as [[xr yr] zr]. simpl in H.
  next_cell H xf g4 E4. apply known_spec in E4 as [-> ->].
  next_cell H yf g5 E5. apply known_spec in E5 as [-> ->].
  cbv zeta in H.
  next_cell H xs g6 E6. apply savgol_filter_spec in E6.
  next_cell H ys g7 E7. apply savgol_filter_spec in E7.
  unfold ret in H. inversion H. subst.
  exists xr, yr. do 2 eexists. split; eassumption.
Qed.

(** Cell 19 does the same without reversing. *)
Lemma cell_19_spec (x y z : ndarray) (h h' : list call) :
  cell_19 lib h = (Ok (x, y, z), h') ->
  exists xr yr h1 h2,
    lib h1 (savgol_call (array_sub_int xr 560000) 31 2) = Ok (PArray x)
    /\ lib h2 (savgol_call (array_sub_int yr 4300000) 31 2) = Ok (PArray y).
Proof.
  intros H. unfold cell_19 in H.
  next_cell H p g1 E1. destruct p as [x0 y0]. simpl in H.
  next_cell H z0 g2 E2.
  next_cell H r g3 E3. destruct r as [[xr yr] zr]. simpl in H.
  cbv zeta in H.
  next_cell H xs g6 E6. apply savgol_filter_spec in E6.
  next_cell H ys g7 E7. apply savgol_filter_spec in E7.
  unfold ret in H. inversion H. subst.
  exists xr, yr. do 2 eexists. split; eassumption.
Qed.

End Loading.

(** ** A run that finishes, call by call *)

Lemma export_reached (lib : Library) (chb : ChannelBelt.t) (path : string)
    (h h' : list call) :
  export_last lib chb path h = (Ok tt, h') ->
  exists last e,
    index (ChannelBelt.channels chb) (-1) = Ok last
    /\ h' = h ++ e
    /\ In (to_file_call last path) e.
Proof.
  intros Hrun.
  destruct (index (ChannelBelt.channels chb) (-1)) as [last|err] eqn:Hlast.
  - destruct (export_last_spec lib chb path h Hlast) as (e & Hlog & _ & Hin).
    rewrite Hrun in Hlog, Hin. simpl in Hlog, Hin.
    exists last, e. auto.
  - unfold export_last, bindM, lift in Hrun. rewrite Hlast in Hrun.
    discriminate.
Qed.

(** In a run that finishes: each migration's answer is the belt whose last
    centerline the next export writes; the elevations of the first T2
    channel are those the notebook's function returned; and the second
    migration runs on the first one's belt with that channel appended. *)
Lemma finished_run (lib : Library) (log : list call) :
  notebook lib [] = (Ok tt, log) ->
  exists chb0 chb1 h1 last1 x y lower upper z ch2 h2 chb2 h3 last2,
    (exists rest, log = h1 ++ migrate_call chb0 :: rest)
    /\ lib h1 (migrate_call chb0) = Ok (PChannelBelt chb1)
    /\ index (ChannelBelt.channels chb1) (-1) = Ok last1
    /\ In (to_file_call last1 output_shapefile_t1) log
    /\ In (elevation_call x y lower upper) log
    /\ generate_z_coordinates_with_constant x y N lower upper = Ok z
    /\ (exists rest, log = h2 ++ channel_call x y z :: rest)
    /\ lib h2 (channel_call x y z) = Ok (PChannel ch2)
    /\ (exists rest,
          log = h3 ++ migrate_call (channels_append chb1 ch2) :: rest)
    /\ lib h3 (migrate_call (channels_append chb1 ch2))
       = Ok (PChannelBelt chb2)
    /\ index (ChannelBelt.channels chb2) (-1) = Ok last2
    /\ In (to_file_call last2 output_shapefile_t2) log.
Proof.
  intros H. unfold notebook in H.
  next_cell H p1 g1 Hp1. destruct p1 as [chb1 m1]. simpl in H.
  next_cell H m2 g2 Hp2.
  grows H. destruct H as (e_r & ->).
  (* the T1 pass *)
  unfold pass_t1 in Hp1.
  next_cell Hp1 u04 g04 H04. clear H04.
  next_cell Hp1 u06 g06 H06. destruct u06 as [[x0 y0] z0]. simpl in Hp1.
  clear H06.
  next_cell Hp1 u08 g08 H08. clear H08.
  next_cell Hp1 chb0 g10 H10. clear H10.
  next_cell Hp1 chb1' g12 H12.
  next_cell Hp1 u14 g14 H14. destruct u14.
  cbv beta iota zeta delta [cell_16] in Hp1.
  next_cell Hp1 m1' g17 H17.
  unfold ret in Hp1. inversion Hp1. subst chb1' m1' g17. clear Hp1.
  apply migrate_spec in H12 as [-> Hm1].
  apply export_reached in H14 as (last1 & e14 & Hlast1 & -> & Hin1).
  grows H17. destruct H17 as (e17 & ->).
  (* the T2 pass *)
  unfold pass_t2 in Hp2.
  next_cell Hp2 u19 g19 H19. destruct u19 as [[x y] z1]. simpl in Hp2.
  grows H19. destruct H19 as (e19 & ->).
  next_cell Hp2 u21 g21 H21. grows H21. destruct H21 as (e21 & ->).
  next_cell Hp2 z g24 H24.
  apply cell_24_spec in H24 as (lower & upper & e24 & -> & Hz).
  next_cell Hp2 u26 g26 H26. grows H26. destruct H26 as (e26 & ->).
  next_cell Hp2 chb1a g28 H28.
  unfold cell_28 in H28. next_cell H28 ch2 g28' Hch2.
  unfold ret in H28. inversion H28. subst chb1a g28'. clear H28.
  apply mp_Channel_spec in Hch2 as [-> Hch2].
  next_cell Hp2 chb2 g30 H30.
  unfold cell_30 in H30. next_cell H30 chb2' g30' Hm2.
  apply migrate_spec in Hm2 as [-> Hm2].
  next_cell H30 endtime g30a H30a. unfold lift in H30a.
  inversion H30a. subst g30a. clear H30a.
  next_cell H30 u30 g30b H30b. grows H30b. destruct H30b as (e30 & ->).
  unfold ret in H30. inversion H30. subst chb2' g30. clear H30.
  next_cell Hp2 u32 g32 H32. destruct u32.
  apply export_reached in H32 as (last2 & e32 & Hlast2 & -> & Hin2).
  next_cell Hp2 u34 g34 H34. grows H34. destruct H34 as (e34 & ->).
  next_cell Hp2 u36 g36 H36. grows H36. destruct H36 as (e36 & ->).
  destruct u36 as [[[min_x max_x] min_y] max_y]. simpl in Hp2.
  grows Hp2. destruct Hp2 as (e38 & ->).
  exists chb0, chb1, g10, last1, x, y, lower, upper, z, ch2.
  eexists. exists chb2. eexists. exists last2.
  repeat split; try eassumption;
    try (eexists; rewrite <- ?app_assoc; simpl; reflexivity);
    rewrite ?in_app_iff; simpl; tauto.
Qed.

Lemma run_emits {X T} (tag : call -> list X) (m : M T) (S : list X) :
  emits tag m S ->
  match m [] with
  | (Ok _, log) => flat_map tag log = S
  | (Raise _, log) => exists rest, flat_map tag log ++ rest = S
  end.
Proof.
  intros Hm. specialize (Hm []). destruct (m []) as [[v|e] log].
  - destruct Hm as (e & -> & <-). reflexivity.
  - destruct Hm as (e' & rest & -> & <-). eauto.
Qed.

(** ** Stage by stage *)

Lemma stage_eqb_eq (a b : stage) : stage_eqb a b = true -> a = b.
Proof. destruct a, b; intros Heq; cbv in Heq; congruence. Qed.

Lemma runs_head (a : stage) (l : list stage) :
  exists t, runs (a :: l) = a :: t.
Proof.
  revert a. induction l as [|b l IH]; intros a.
  - exists []. reflexivity.
  - simpl. destruct (stage_eqb a b) eqn:Hab.
    + apply stage_eqb_eq in Hab as ->. apply IH.
    + eauto.
Qed.

(** The stages of the start of a record start the stages of the record. *)
Lemma runs_prefix (p r : list stage) :
  exists rest, runs p ++ rest = runs (p ++ r).
Proof.
  induction p as [|a p IH].
  - exists (runs r). reflexivity.
  - destruct p as [|b p].
    + simpl. destruct r as [|b r]; [exists []; reflexivity|].
      destruct (stage_eqb a b) eqn:Hab.
      * apply stage_eqb_eq in Hab as ->.
        destruct (runs_head b r) as (t & ->). exists t. reflexivity.
      * eauto.
    + destruct IH as (rest & IH). simpl in *.
      destruct (stage_eqb a b); exists rest; [|simpl; f_equal]; exact IH.
Qed.

Lemma notebook_stage_calls (lib : Library) :
  exists S, emits stage_of (notebook lib) S /\ runs S = whole_run.
Proof.
  eexists. split.
  - open_notebook. walk_emits.
  - vm_compute. reflexivity.
Qed.

Lemma notebook_files_read (lib : Library) :
  emits file_read (notebook lib)
    [fn geopandas "read_file"
       [Pos (PStr "../modeling/centerlines/t1_initial_centerline.shp")];
     fn geopandas "read_file"
       [Pos (PStr "../modeling/centerlines/t2_initial_centerline.shp")]].
Proof.
  eapply emits_eq.
  - open_notebook. walk_emits.
  - vm_compute. reflexivity.
Qed.

Lemma notebook_files_written (lib : Library) :
  emits file_written (notebook lib)
    [[Pos (PStr "../modeling/centerlines/t1_final_centerline.shp")];
     [Pos (PStr "../modeling/centerlines/t2_final_centerline.shp")]].
Proof.
  eapply emits_eq.
  - open_notebook. walk_emits.
  - vm_compute. reflexivity.
Qed.


(** ** Two installations that differ past the first geometry *)

Section FirstGeometry.
Variable lib : Library.

Lemma same_refl {T} (m : M T) : same m m.
Proof. intros h. reflexivity. Qed.

Lemma same_bind {T U} (m m' : M T) (k k' : T -> M U) :
  same m m' -> (forall v, same (k v) (k' v)) -> same (bindM m k) (bindM m' k').
Proof.
  intros Hm Hk h. unfold bindM. rewrite Hm.
  destruct (m' h) as [[v|e] h1]; [apply Hk | reflexivity].
Qed.

Lemma same_for_eachM {I} (items : list I) (body body' : I -> M unit) :
  (forall i, same (body i) (body' i)) ->
  same (for_eachM items body) (for_eachM items body').
Proof.
  intros Hbody. induction items as [|i rest IH]; simpl.
  - apply same_refl.
  - apply same_bind; auto.
Qed.

Ltac answer_by_answer :=
  intros h;
  unfold call_array, call_float, call_channel, call_belt, call_void,
    call_tuple, known, read_first_line, call_gdf,
    bindM, call_lib, lift, ret, first_geometry_only;
  destruct (lib h _) as [[]|]; try reflexivity.

Lemma same_call_array (c : call) :
  same (call_array lib c) (call_array (first_geometry_only lib) c).
Proof. answer_by_answer. Qed.

Lemma same_call_float (c : call) :
  same (call_float lib c) (call_float (first_geometry_only lib) c).
Proof. answer_by_answer. Qed.

Lemma same_call_channel (c : call) :
  same (call_channel lib c) (call_channel (first_geometry_only lib) c).
Proof. answer_by_answer. Qed.

Lemma same_call_belt (c : call) :
  same (call_belt lib c) (call_belt (first_geometry_only lib) c).
Proof. answer_by_answer. Qed.

Lemma same_call_void (c : call) :
  same (call_void lib c) (call_void (first_geometry_only lib) c).
Proof. answer_by_answer. Qed.

Lemma same_call_tuple (n : nat) (c : call) :
  same (call_tuple lib n c) (call_tuple (first_geometry_only lib) n c).
Proof. answer_by_answer. Qed.

Lemma same_known {T} (c : call) (v : T) :
  same (known lib c v) (known (first_geometry_only lib) c v).
Proof. answer_by_answer. Qed.

(** The file's geometries past the first are never looked at. *)
Lemma same_read_first_line (path : string) :
  same (read_first_line lib path)
       (read_first_line (first_geometry_only lib) path).
Proof. answer_by_answer. simpl. destruct g; reflexivity. Qed.

End FirstGeometry.

Ltac open_cells :=
  cbv beta iota zeta delta
    [notebook pass_t1 pass_t2 rendering
     cell_04 cell_06 cell_08 cell_10 cell_12 cell_14 cell_16 cell_19
     cell_21 cell_24 cell_26 cell_28 cell_30 cell_32 cell_34 cell_36
     cell_40 cell_41 cell_50 cell_52 cell_55
     build_3d_model export_last resample_centerline
     savgol_filter np_flip np_ones mp_Channel migrate subplots
     ax_plot ax_text plot_channel plt_legend plt_axis py_round py_print
     py_import
     label_points label_channel facies_volume mlab_figure block_diagram
     random_cookie].

Ltac walk_same :=
  repeat (intros;
    lazymatch goal with
    | |- same ?m ?m => apply same_refl
    | |- same (bindM _ _) (bindM _ _) => apply same_bind
    | |- same (for_eachM _ _) (for_eachM _ _) => apply same_for_eachM
    | |- same (match ?v with _ => _ end) _ => destruct v
    | |- same (call_array _ _) _ => apply same_call_array
    | |- same (call_float _ _) _ => apply same_call_float
    | |- same (call_channel _ _) _ => apply same_call_channel
    | |- same (call_belt _ _) _ => apply same_call_belt
    | |- same (call_void _ _) _ => apply same_call_void
    | |- same (call_tuple _ _ _) _ => apply same_call_tuple
    | |- same (known _ _ _) _ => apply same_known
    | |- same (read_first_line _ _) _ => apply same_read_first_line
    end).

Lemma notebook_first_geometry (lib : Library) :
  same (notebook lib) (notebook (first_geometry_only lib)).
Proof. open_cells. walk_same. Qed.


Lemma notebook_takes_constants (lib : Library) :
  emits takes_constants (notebook lib)
    ["Channel"; "migrate"; "build_3d_model";
     "Channel"; "migrate"; "build_3d_model"]%string.
Proof.
  eapply emits_eq.
  - open_notebook. walk_emits.
  - vm_compute. reflexivity.
Qed.


(** ** A run, call by call *)

(** ** The calls of the pipeline *)










(* ------------------------------------------------------------------ *)

Section Answers.
Variable lib : Library.

Lemma lift_ok {T} (r : result T) (v : T) (h h' : list call) :
  lift r h = (Ok v, h') -> r = Ok v /\ h' = h.
Proof. unfold lift. intros H. now inversion H. Qed.

Lemma call_lib_ok (c : call) (v : pyval) (h h' : list call) :
  call_lib lib c h = (Ok v, h') -> lib h c = Ok v /\ h' = h ++ [c].
Proof. unfold call_lib. intros H. now inversion H. Qed.

Lemma known_ok {T} (c : call) (v u : T) (h h' : list call) :
  known lib c v h = (Ok u, h') ->
  (exists a, lib h c = Ok a) /\ u = v /\ h' = h ++ [c].
Proof.
  unfold known, bindM, call_lib, ret. destruct (lib h c); [|discriminate].
  intros Hrun. inversion Hrun. eauto.
Qed.

Lemma call_void_ok (c : call) (h h' : list call) :
  call_void lib c h = (Ok tt, h') ->
  (exists a, lib h c = Ok a) /\ h' = h ++ [c].
Proof.
  unfold call_void, bindM, call_lib, ret. destruct (lib h c); [|discriminate].
  intros Hrun. inversion Hrun. eauto.
Qed.

Lemma call_array_ok (c : call) (a : ndarray) (h h' : list call) :
  call_array lib c h = (Ok a, h') -> lib h c = Ok (PArray a) /\ h' = h ++ [c].
Proof.
  unfold call_array, bindM, call_lib, lift.
  destruct (lib h c) as [[]|]; simpl; intros Hrun; try discriminate.
  now inversion Hrun.
Qed.

Lemma call_float_ok (c : call) (f : float) (h h' : list call) :
  call_float lib c h = (Ok f, h') -> lib h c = Ok (PFloat f) /\ h' = h ++ [c].
Proof.
  unfold call_float, bindM, call_lib, lift.
  destruct (lib h c) as [[]|]; simpl; intros Hrun; try discriminate.
  now inversion Hrun.
Qed.

Lemma call_gdf_ok (c : call) (g : GeoDataFrame) (h h' : list call) :
  call_gdf lib c h = (Ok g, h') ->
  lib h c = Ok (PGeoDataFrame g) /\ h' = h ++ [c].
Proof.
  unfold call_gdf, bindM, call_lib, lift.
  destruct (lib h c) as [[]|]; simpl; intros Hrun; try discriminate.
  now inversion Hrun.
Qed.

Lemma call_channel_ok (c : call) (ch : Channel.t) (h h' : list call) :
  call_channel lib c h = (Ok ch, h') ->
  lib h c = Ok (PChannel ch) /\ h' = h ++ [c].
Proof.
  unfold call_channel, bindM, call_lib, lift.
  destruct (lib h c) as [[]|]; simpl; intros Hrun; try discriminate.
  now inversion Hrun.
Qed.

Lemma call_belt_ok (c : call) (b : ChannelBelt.t) (h h' : list call) :
  call_belt lib c h = (Ok b, h') ->
  lib h c = Ok (PChannelBelt b) /\ h' = h ++ [c].
Proof.
  unfold call_belt, bindM, call_lib, lift.
  destruct (lib h c) as [[]|]; simpl; intros Hrun; try discriminate.
  now inversion Hrun.
Qed.

Lemma call_tuple_ok (n : nat) (c : call) (l : list pyval) (h h' : list call) :
  call_tuple lib n c h = (Ok l, h') ->
  lib h c = Ok (PTuple l) /\ List.length l = n /\ h' = h ++ [c].
Proof.
  unfold call_tuple, bindM, call_lib, lift.
  destruct (lib h c) as [[]|]; simpl; intros Hrun; try discriminate.
  destruct (Nat.eqb_spec (List.length l0) n); inversion Hrun. subst. auto.
Qed.

Lemma read_first_line_ok (path : string) (xs ys : ndarray)
    (h h' : list call) :
  read_first_line lib path h = (Ok (xs, ys), h') ->
  exists g line,
    lib h (read_call path) = Ok (PGeoDataFrame g)
    /\ index g 0 = Ok line /\ xy line = Ok (xs, ys)
    /\ h' = h ++ [read_call path].
Proof.
  intros H. unfold read_first_line in H.
  next_cell H g h1 E1. apply call_gdf_ok in E1 as [Hg ->].
  next_cell H line h2 E2. apply lift_ok in E2 as [Hline ->].
  apply lift_ok in H as [Hxy ->].
  exists g, line. auto.
Qed.

Lemma resample_centerline_ok (x y z x' y' z' : ndarray) (ds : float)
    (h h' : list call) :
  resample_centerline lib x y z ds h = (Ok (x', y', z'), h') ->
  let c := fn meanderpy "resample_centerline"
             [Pos (PArray x); Pos (PArray y); Pos (PArray z);
              Pos (PFloat ds)] in
  (exists v, lib h c = Ok v /\ resampled v x' y' z') /\ h' = h ++ [c].
Proof.
  intros H c. unfold resample_centerline in H.
  next_cell H l h1 E1. apply call_tuple_ok in E1 as (Hl & Hlen & ->).
  next_cell H x0 h2 E2. apply lift_ok in E2 as [Hx ->].
  next_cell H y0 h3 E3. apply lift_ok in E3 as [Hy ->].
  next_cell H z0 h4 E4. apply lift_ok in E4 as [Hz ->].
  unfold ret in H. inversion H. subst. split; [|reflexivity].
  exists (PTuple l). split; [exact Hl|]. exists l.
  split; [reflexivity|]. split; [exact Hlen|].
  destruct (nth 0 l PNone); try discriminate Hx.
  destruct (nth 1 l PNone); try discriminate Hy.
  destruct (nth 2 l PNone); try discriminate Hz.
  inversion Hx. inversion Hy. inversion Hz. auto.
Qed.

End Answers.

Lemma ones_like_repeat {T} (a : list T) :
  ones_like a = repeat 1%float (List.length a).
Proof. unfold ones_like. induction a; simpl; congruence. Qed.

Lemma array_sub_easting (a : ndarray) : array_sub_int a 560000 = local_x a.
Proof. reflexivity. Qed.

Lemma array_sub_northing (a : ndarray) : array_sub_int a 4300000 = local_y a.
Proof. reflexivity. Qed.

Section Loads.
Variable lib : Library.

(** Cell 6, call by call. *)
Lemma cell_06_chain (x y z : ndarray) (h h' : list call) :
  cell_06 lib h = (Ok (x, y, z), h') ->
  exists g line xs ys v xr yr,
    let path := "../modeling/centerlines/t1_initial_centerline.shp"%string in
    let c1 := read_call path in
    let c2 := ones_like_call xs in
    let c3 := resample_call xs ys (repeat 1%float (List.length xs)) in
    let c4 := flip_call xr in
    let c5 := flip_call yr in
    let c6 := savgol_call (local_x (rev xr)) 11 2 in
    let c7 := savgol_call (local_y (rev yr)) 11 2 in
    h' = h ++ [c1; c2; c3; c4; c5; c6; c7]
    /\ lib h c1 = Ok (PGeoDataFrame g)
    /\ index g 0 = Ok line /\ xy line = Ok (xs, ys)
    /\ lib (h ++ [c1; c2]) c3 = Ok v /\ resampled v xr yr z
    /\ lib (h ++ [c1; c2; c3; c4; c5]) c6 = Ok (PArray x)
    /\ lib (h ++ [c1; c2; c3; c4; c5; c6]) c7 = Ok (PArray y).
Proof.
  intros H. unfold cell_06 in H.
  next_cell H p g1 E1. destruct p as [xs ys]. simpl in H.
  apply read_first_line_ok in E1 as (g & line & Hg & Hline & Hxy & ->).
  next_cell H z0 g2 E2. apply known_ok in E2 as (_ & -> & ->).
  next_cell H r g3 E3. destruct r as [[xr yr] zr]. simpl in H.
  apply resample_centerline_ok in E3 as ((v & Hv & Hres) & ->).
  next_cell H xf g4 E4. apply known_ok in E4 as (_ & -> & ->).
  next_cell H yf g5 E5. apply known_ok in E5 as (_ & -> & ->).
  cbv zeta in H.
  next_cell H xsm g6 E6. unfold savgol_filter in E6.
  apply call_array_ok in E6 as [Hx ->].
  next_cell H ysm g7 E7. unfold savgol_filter in E7.
  apply call_array_ok in E7 as [Hy ->].
  unfold ret in H. inversion H. subst.
  rewrite ones_like_repeat in *.
  rewrite array_sub_easting, array_sub_northing in *. unfold flip in *.
  exists g, line, xs, ys, v, xr, yr. cbv zeta.
  rewrite <- !app_assoc in *. cbn [app] in *.
  repeat (split; [first [reflexivity | eassumption]|]). assumption.
Qed.

(** Cell 19, call by call: no reversal, and a window of 31. *)
Lemma cell_19_chain (x y z : ndarray) (h h' : list call) :
  cell_19 lib h = (Ok (x, y, z), h') ->
  exists g line xs ys v xr yr,
    let path := "../modeling/centerlines/t2_initial_centerline.shp"%string in
    let c1 := read_call path in
    let c2 := ones_like_call xs in
    let c3 := resample_call xs ys (repeat 1%float (List.length xs)) in
    let c4 := savgol_call (local_x xr) 31 2 in
    let c5 := savgol_call (local_y yr) 31 2 in
    h' = h ++ [c1; c2; c3; c4; c5]
    /\ lib h c1 = Ok (PGeoDataFrame g)
    /\ index g 0 = Ok line /\ xy line = Ok (xs, ys)
    /\ lib (h ++ [c1; c2]) c3 = Ok v /\ resampled v xr yr z
    /\ lib (h ++ [c1; c2; c3]) c4 = Ok (PArray x)
    /\ lib (h ++ [c1; c2; c3; c4]) c5 = Ok (PArray y).
Proof.
  intros H. unfold cell_19 in H.
  next_cell H p g1 E1. destruct p as [xs ys]. simpl in H.
  apply read_first_line_ok in E1 as (g & line & Hg & Hline & Hxy & ->).
  next_cell H z0 g2 E2. apply known_ok in E2 as (_ & -> & ->).
  next_cell H r g3 E3. destruct r as [[xr yr] zr]. simpl in H.
  apply resample_centerline_ok in E3 as ((v & Hv & Hres) & ->).
  cbv zeta in H.
  next_cell H xsm g6 E6. unfold savgol_filter in E6.
  apply call_array_ok in E6 as [Hx ->].
  next_cell H ysm g7 E7. unfold savgol_filter in E7.
  apply call_array_ok in E7 as [Hy ->].
  unfold ret in H. inversion H. subst.
  rewrite ones_like_repeat in *.
  rewrite array_sub_easting, array_sub_northing in *.
  exists g, line, xs, ys, v, xr, yr. cbv zeta.
  rewrite <- !app_assoc in *. cbn [app] in *.
  repeat (split; [first [reflexivity | eassumption]|]). assumption.
Qed.

End Loads.

(** ** The remaining calls *)









Lemma h_mud_per_channel {T} (l : list T) :
  float_mul_array 1.0 (ones (len l)) = repeat 1%float (List.length l).
Proof.
  unfold float_mul_array, ones, list_repeat, len. rewrite Nat2Z.id.
  induction (List.length l) as [|k IH]; simpl; [reflexivity|].
  now rewrite IH.
Qed.

Section Passes.
Variable lib : Library.

Lemma export_last_chain (chb : ChannelBelt.t) (path : string)
    (h h' : list call) :
  export_last lib chb path h = (Ok tt, h') ->
  exists last,
    index (ChannelBelt.channels chb) (-1) = Ok last
    /\ h' = h ++ [copy_call (Channel.x last); copy_call (Channel.y last);
                  linestring_call (utm_points last);
                  frame_call (LineString (utm_points last));
                  written_call last path].
Proof.
  intros H. unfold export_last in H.
  next_cell H lastc h1 E1. apply lift_ok in E1 as [Hlast ->].
  next_cell H fx h2 E2. apply known_ok in E2 as (_ & -> & ->).
  cbv zeta in H.
  next_cell H lastc' h3 E3. apply lift_ok in E3 as [Hlast' ->].
  rewrite Hlast in Hlast'. injection Hlast' as <-.
  next_cell H fy h4 E4. apply known_ok in E4 as (_ & -> & ->).
  cbv zeta in H.
  next_cell H lg h5 E5. apply known_ok in E5 as (_ & -> & ->).
  next_cell H gdf h6 E6. apply known_ok in E6 as (_ & -> & ->).
  apply call_void_ok in H as (_ & ->).
  exists lastc. split; [exact Hlast|].
  rewrite <- !app_assoc. reflexivity.
Qed.

Lemma cell_10_chain (x y z : ndarray) (chb : ChannelBelt.t)
    (h h' : list call) :
  cell_10 lib x y z h = (Ok chb, h') ->
  exists ch,
    lib h (channel_call x y z) = Ok (PChannel ch)
    /\ lib (h ++ [channel_call x y z]) (belt_call ch) = Ok (PChannelBelt chb)
    /\ h' = h ++ [channel_call x y z; belt_call ch].
Proof.
  intros H. unfold cell_10 in H.
  next_cell H ch h1 E1. apply mp_Channel_spec in E1 as [-> Hch].
  apply call_belt_ok in H as [Hb ->].
  exists ch. rewrite <- app_assoc. auto.
Qed.

Lemma build_3d_model_chain (chb : ChannelBelt.t)
    (min_x max_x min_y max_y : float) (m : ChannelBelt3D.t)
    (h h' : list call) :
  build_3d_model lib chb min_x max_x min_y max_y h = (Ok m, h') ->
  exists starttime endtime v,
    let c := build_call chb (min_x, max_x, min_y, max_y) starttime endtime in
    let n := ones_call (len (ChannelBelt.channels chb)) in
    index (ChannelBelt.cl_times chb) 0 = Ok starttime
    /\ index (ChannelBelt.cl_times chb) (-1) = Ok endtime
    /\ lib (h ++ [n]) c = Ok v /\ model_of v m
    /\ h' = h ++ [n; c].
Proof.
  intros H. unfold build_3d_model in H.
  next_cell H ones_ g1 E1. apply known_ok in E1 as (_ & -> & ->).
  cbv zeta in H.
  next_cell H starttime g2 E2. apply lift_ok in E2 as [Hst ->].
  next_cell H endtime g3 E3. apply lift_ok in E3 as [Het ->].
  next_cell H l g4 E4. apply call_tuple_ok in E4 as (Hl & Hlen & ->).
  apply lift_ok in H as [Hm ->].
  rewrite h_mud_per_channel in Hl. rewrite h_mud_per_channel.
  exists starttime, endtime, (PTuple l). cbv zeta.
  split; [exact Hst|]. split; [exact Het|].
  split; [exact Hl|]. split.
  - exists l. split; [reflexivity|]. split; [exact Hlen|].
    destruct (nth 0 l PNone); try discriminate Hm. now inversion Hm.
  - rewrite <- app_assoc. reflexivity.
Qed.

Lemma cell_24_chain (chb : ChannelBelt.t) (x y z : ndarray)
    (h h' : list call) :
  cell_24 lib chb x y h = (Ok z, h') ->
  exists ch0 last lower upper,
    index (ChannelBelt.channels chb) 0 = Ok ch0
    /\ index (ChannelBelt.channels chb) (-1) = Ok last
    /\ lib h (min_call (Channel.z ch0)) = Ok (PFloat lower)
    /\ lib (h ++ [min_call (Channel.z ch0)]) (max_call (Channel.z last))
       = Ok (PFloat upper)
    /\ generate_z_coordinates_with_constant x y 225 lower upper = Ok z
    /\ h' = h ++ [min_call (Channel.z ch0); max_call (Channel.z last);
                  elevation_call x y lower upper].
Proof.
  intros H. unfold cell_24 in H.
  next_cell H ch0 h1 E1. apply lift_ok in E1 as [Hch0 ->].
  next_cell H lower h2 E2. apply call_float_ok in E2 as [Hlo ->].
  next_cell H lastc h3 E3. apply lift_ok in E3 as [Hlast ->].
  next_cell H upper h4 E4. apply call_float_ok in E4 as [Hup ->].
  unfold call_local in H. injection H as Hz <-.
  exists ch0, lastc, lower, upper. rewrite <- !app_assoc. auto 10.
Qed.

End Passes.

Lemma answered_later (lib : Library) (log e : list call) (c : call)
    (v : pyval) :
  answered lib log c v -> answered lib (log ++ e) c v.
Proof.
  intros (before & after & -> & Hv). exists before, (after ++ e).
  split; [|exact Hv]. now rewrite <- app_assoc.
Qed.

(** From the library's answer at a point of the run to [answered]. *)
Ltac answered_by Hyp :=
  match type of Hyp with
  | _ ?b ?c = Ok ?v =>
      exists b; eexists; split;
      [ rewrite <- ?app_assoc; cbn [app]; reflexivity | exact Hyp ]
  end.

Section WholePasses.
Variable lib : Library.

(** The pre-avulsion pass of a run that finishes, answer by answer. *)
Lemma pass_t1_chain (chb1 : ChannelBelt.t) (m1 : ChannelBelt3D.t)
    (g1 : list call) :
  pass_t1 lib [] = (Ok (chb1, m1), g1) ->
  exists g line xs ys v xr yr x y z ch chb0 last1 st et b,
    answered lib g1
      (read_call "../modeling/centerlines/t1_initial_centerline.shp")
      (PGeoDataFrame g)
    /\ index g 0 = Ok line /\ xy line = Ok (xs, ys)
    /\ In (ones_like_call xs) g1
    /\ answered lib g1
         (resample_call xs ys (repeat 1%float (List.length xs))) v
    /\ resampled v xr yr z
    /\ In (flip_call xr) g1 /\ In (flip_call yr) g1
    /\ answered lib g1 (savgol_call (local_x (rev xr)) 11 2) (PArray x)
    /\ answered lib g1 (savgol_call (local_y (rev yr)) 11 2) (PArray y)
    /\ answered lib g1 (channel_call x y z) (PChannel ch)
    /\ answered lib g1 (belt_call ch) (PChannelBelt chb0)
    /\ answered lib g1 (migrate_call chb0) (PChannelBelt chb1)
    /\ index (ChannelBelt.channels chb1) (-1) = Ok last1
    /\ In (written_call last1
             "../modeling/centerlines/t1_final_centerline.shp") g1
    /\ index (ChannelBelt.cl_times chb1) 0 = Ok st
    /\ index (ChannelBelt.cl_times chb1) (-1) = Ok et
    /\ answered lib g1
         (build_call chb1
            (2789.150971221104, 4802.228898997582,
             2545.097408532824, 4342.6693798509295) st et) b
    /\ model_of b m1.
Proof.
  intros Hp1. unfold pass_t1 in Hp1.
  next_cell Hp1 u04 g04 H04. grows H04. destruct H04 as (e04 & ->).
  next_cell Hp1 u06 g06 H06. destruct u06 as [[x y] z]. simpl in Hp1.
  apply cell_06_chain in H06
    as (g & line & xs & ys & v & xr & yr & H06); cbv zeta in H06.
  destruct H06 as (-> & Hg & Hline & Hxy & Hv & Hres & Hx & Hy).
  next_cell Hp1 u08 g08 H08. grows H08. destruct H08 as (e08 & ->).
  next_cell Hp1 chb0 g10 H10.
  apply cell_10_chain in H10 as (ch & Hch & Hb & ->).
  next_cell Hp1 chb1' g12 H12. unfold cell_12 in H12.
  apply migrate_spec in H12 as [-> Hm1].
  next_cell Hp1 u14 g14 H14. destruct u14. unfold cell_14 in H14.
  apply export_last_chain in H14 as (last1 & Hlast1 & ->).
  cbv beta iota zeta delta [cell_16] in Hp1.
  next_cell Hp1 m1' g17 H17.
  apply build_3d_model_chain in H17 as (st & et & b & H17); cbv zeta in H17.
  destruct H17 as (Hst & Het & Hb1 & Hmodel & ->).
  unfold ret in Hp1. inversion Hp1. subst chb1' m1' g1. clear Hp1.
  exists g, line, xs, ys, v, xr, yr, x, y, z, ch, chb0, last1, st, et, b.
  split; [answered_by Hg|]. split; [exact Hline|]. split; [exact Hxy|].
  split; [rewrite !in_app_iff; cbn [In]; tauto|].
  split; [answered_by Hv|]. split; [exact Hres|].
  split; [rewrite !in_app_iff; cbn [In]; tauto|].
  split; [rewrite !in_app_iff; cbn [In]; tauto|].
  split; [answered_by Hx|]. split; [answered_by Hy|].
  split; [answered_by Hch|]. split; [answered_by Hb|].
  split; [answered_by Hm1|]. split; [exact Hlast1|].
  split; [rewrite !in_app_iff; cbn [In]; tauto|].
  split; [exact Hst|]. split; [exact Het|].
  split; [answered_by Hb1 | exact Hmodel].
Qed.

End WholePasses.

(** ** Rendering *)




Lemma facies_volume_unfold (lib : Library) (m : ChannelBelt3D.t)
    (h : list call) :
  facies_volume lib m h
  = match lib h (zeros_call m) with
    | Ok _ => (spread_facies m (zeros_like_strat m), h ++ [zeros_call m])
    | Raise e => (Raise e, h ++ [zeros_call m])
    end.
Proof.
  unfold facies_volume, zeros_call, zeros_like_strat, spread_facies.
  destruct (shape (ChannelBelt3D.strat m)) as [[s0 s1] s2].
  unfold known, bindM, call_lib, lift, ret.
  destruct (lib h _); reflexivity.
Qed.

Lemma index_inside {T} (l : list T) (i : Z) (v : T) :
  (0 <= i)%Z -> index l i = Ok v -> (i < len l)%Z.
Proof.
  intros Hi. unfold index.
  destruct (Z.ltb_spec i 0) as [|_]; [lia|].
  destruct (Z.ltb_spec i 0) as [|_]; [lia|].
  destruct (nth_error l (Z.to_nat i)) eqn:Hnth; [|discriminate].
  intros _. assert (Hsome : nth_error l (Z.to_nat i) <> None) by congruence.
  apply nth_error_Some in Hsome. unfold len. lia.
Qed.




Lemma plot_channel_spec (lib : Library) (ax : pyval) (chb : ChannelBelt.t)
    (k : Z) (color style label : string) (h h' : list call) :
  plot_channel lib ax chb k color style label h = (Ok tt, h') ->
  exists ch, index (ChannelBelt.channels chb) k = Ok ch.
Proof.
  intros H. unfold plot_channel in H.
  next_cell H ch g E. apply lift_ok in E as [E _]. eauto.
Qed.

(** Cell 34 plots [chb.channels[9]] and [chb.channels[10]]. *)
Lemma cell_34_spec (lib : Library) (chb : ChannelBelt.t) (h h' : list call) :
  cell_34 lib chb h = (Ok tt, h') ->
  (10 < len (ChannelBelt.channels chb))%Z.
Proof.
  intros H. unfold cell_34 in H.
  next_cell H p g0 E0. destruct p as [fix_ ax]. simpl in H.
  next_cell H u1 g1 E1. next_cell H u2 g2 E2. next_cell H u3 g3 E3.
  destruct u3. apply plot_channel_spec in E3 as (ch & Hch).
  now apply index_inside in Hch.
Qed.

Lemma cell_36_spec (lib : Library) (chb : ChannelBelt.t)
    (box : float * float * float * float) (h h' : list call) :
  cell_36 lib chb h = (Ok box, h') -> bounding_box chb = Ok box.
Proof.
  intros H. unfold cell_36 in H.
  next_cell H b g0 E0. apply lift_ok in E0 as [E0 ->].
  destruct b as [[[min_x max_x] min_y] max_y]. simpl in H.
  next_cell H u1 g1 E1. next_cell H u2 g2 E2.
  next_cell H u3 g3 E3. next_cell H u4 g4 E4.
  unfold ret in H. inversion H. subst. exact E0.
Qed.

Lemma emits_ok {X T} (tag : call -> list X) (m : M T) (S : list X)
    (h h' : list call) (v : T) :
  emits tag m S -> m h = (Ok v, h') ->
  exists e, h' = h ++ e /\ flat_map tag e = S.
Proof. intros Hm Hrun. specialize (Hm h). now rewrite Hrun in Hm. Qed.

(** What a finished computation added to the record, read through [tag]. *)
Ltac tagged tag H :=
  eapply (emits_ok (tag := tag)) in H; [ | open_notebook; walk_emits ].

Lemma block_diagram_spec (lib : Library) (m : ChannelBelt3D.t)
    (bottom : float) (h h' : list call) :
  block_diagram lib m h = (Ok bottom, h') ->
  exists lowest e,
    answered lib h' (lowest_call m) (PFloat lowest)
    /\ bottom = lowest - 2
    /\ h' = h ++ e
    /\ flat_map cookies e = []
    /\ flat_map block_diagrams e = [PArray3 (ChannelBelt3D.strat m)].
Proof.
  unfold block_diagram, mlab_figure, call_void, call_float, bindM, call_lib,
    lift, ret.
  destruct (lib h _) as [v1|]; [|discriminate].
  destruct (lib (h ++ _) _) as [v2|]; [|discriminate].
  destruct (lib _ (fn numpy "min" _)) as [v3|] eqn:Hlow; [|discriminate].
  destruct v3; simpl; try discriminate.
  destruct (lib _ (fn stratigraph _ _)) as [v4|]; [|discriminate].
  intros H. injection H as <- <-.
  exists f. eexists. split; [answered_by Hlow|].
  split; [reflexivity|]. split; [rewrite <- !app_assoc; reflexivity|].
  split; reflexivity.
Qed.

Lemma random_cookie_spec (lib : Library) (m : ChannelBelt3D.t)
    (facies3d : ndarray3) (bottom : float) (xcoords ycoords : list float)
    (h h' : list call) :
  random_cookie lib m facies3d bottom xcoords ycoords h = (Ok tt, h') ->
  exists e,
    h' = h ++ e
    /\ flat_map cookies e = [cookie_call m facies3d bottom (xcoords, ycoords)]
    /\ flat_map block_diagrams e = [].
Proof.
  unfold random_cookie, mlab_figure, call_void, bindM, call_lib, ret.
  destruct (lib h _) as [v1|]; [|discriminate].
  destruct (lib (h ++ _) _) as [v2|]; [|discriminate].
  intros H. injection H as <-.
  eexists. split; [rewrite <- !app_assoc; reflexivity|].
  split; reflexivity.
Qed.

Lemma facies_volume_ok (lib : Library) (m : ChannelBelt3D.t)
    (v : ndarray3) (h h' : list call) :
  facies_volume lib m h = (Ok v, h') ->
  spread_facies m (zeros_like_strat m) = Ok v /\ h' = h ++ [zeros_call m].
Proof.
  rewrite facies_volume_unfold.
  destruct (lib h (zeros_call m)); intros H; now inversion H.
Qed.

Lemma zeros_call_tags (m : ChannelBelt3D.t) :
  cookies (zeros_call m) = [] /\ block_diagrams (zeros_call m) = [].
Proof.
  unfold zeros_call. destruct (shape _) as [[s0 s1] s2]. split; reflexivity.
Qed.

(** A rendering that finishes: the first block diagram shows the
    pre-avulsion model and the second the post-avulsion one; the three
    cookies are all cut from the post-avulsion model, with the facies
    volume and the [bottom] that cells 46 and 47 left bound. *)
Lemma rendering_spec (lib : Library) (pre post : ChannelBelt3D.t)
    (h h' : list call) :
  rendering lib pre post h = (Ok tt, h') ->
  exists facies3d lowest e,
    spread_facies post (zeros_like_strat post) = Ok facies3d
    /\ answered lib h' (lowest_call post) (PFloat lowest)
    /\ h' = h ++ e
    /\ flat_map block_diagrams e
       = [PArray3 (ChannelBelt3D.strat pre);
          PArray3 (ChannelBelt3D.strat post)]
    /\ flat_map cookies e
       = [cookie_call post facies3d (lowest - 2) cell_50;
          cookie_call post facies3d (lowest - 2) cell_52;
          cookie_call post facies3d (lowest - 2) cell_55].
Proof.
  intros H. unfold rendering in H.
  next_cell H u40 g40 E40. pose proof E40 as B40.
  tagged cookies E40. tagged block_diagrams B40.
  destruct E40 as (e40 & -> & C40). destruct B40 as (e40' & B40 & D40).
  apply app_inv_head in B40 as <-.
  next_cell H u41 g41 E41. pose proof E41 as B41.
  tagged cookies E41. tagged block_diagrams B41.
  destruct E41 as (e41 & -> & C41). destruct B41 as (e41' & B41 & D41).
  apply app_inv_head in B41 as <-.
  next_cell H f1 g43 E43. apply facies_volume_ok in E43 as [_ ->].
  next_cell H b1 g44 E44.
  apply block_diagram_spec in E44 as (l1 & e44 & _ & _ & -> & C44 & D44).
  next_cell H facies3d g46 E46. apply facies_volume_ok in E46 as [Hf ->].
  next_cell H bottom g47 E47.
  apply block_diagram_spec in E47
    as (lowest & e47 & Hlow & -> & Hg47 & C47 & D47).
  rewrite Hg47 in Hlow.
  cbv beta iota zeta delta [cell_50 cell_52 cell_55] in H.
  next_cell H u51 g51 E51. destruct u51.
  apply random_cookie_spec in E51 as (e51 & -> & C51 & D51).
  next_cell H u53 g53 E53. destruct u53.
  apply random_cookie_spec in E53 as (e53 & -> & C53 & D53).
  apply random_cookie_spec in H as (e56 & -> & C56 & D56).
  destruct (zeros_call_tags pre) as [Zc1 Zd1].
  destruct (zeros_call_tags post) as [Zc2 Zd2].
  subst g47.
  exists facies3d, lowest. eexists. split; [exact Hf|].
  split; [do 3 apply answered_later; exact Hlow|].
  split; [rewrite <- !app_assoc; reflexivity|].
  rewrite !flat_map_app. cbn [flat_map].
  rewrite C40, C41, C44, C47, C51, C53, C56, D40, D41, D44, D47, D51, D53, D56,
    Zc1, Zd1, Zc2, Zd2.
  split; reflexivity.
Qed.

Section SecondPass.
Variable lib : Library.

(** The post-avulsion pass of a run that finishes, answer by answer. *)
Lemma pass_t2_chain (chb1 : ChannelBelt.t) (m2 : ChannelBelt3D.t)
    (g1 g2 : list call) :
  pass_t2 lib chb1 g1 = (Ok m2, g2) ->
  exists g line xs ys v xr yr x y zr ch0 last1 lower upper z ch2 chb2 last2
         box st et b,
    (exists e, g2 = g1 ++ e)
    /\ answered lib g2
         (read_call "../modeling/centerlines/t2_initial_centerline.shp")
         (PGeoDataFrame g)
    /\ index g 0 = Ok line /\ xy line = Ok (xs, ys)
    /\ In (ones_like_call xs) g2
    /\ answered lib g2
         (resample_call xs ys (repeat 1%float (List.length xs))) v
    /\ resampled v xr yr zr
    /\ answered lib g2 (savgol_call (local_x xr) 31 2) (PArray x)
    /\ answered lib g2 (savgol_call (local_y yr) 31 2) (PArray y)
    /\ index (ChannelBelt.channels chb1) 0 = Ok ch0
    /\ index (ChannelBelt.channels chb1) (-1) = Ok last1
    /\ answered lib g2 (min_call (Channel.z ch0)) (PFloat lower)
    /\ answered lib g2 (max_call (Channel.z last1)) (PFloat upper)
    /\ In (elevation_call x y lower upper) g2
    /\ generate_z_coordinates_with_constant x y 225 lower upper = Ok z
    /\ answered lib g2 (channel_call x y z) (PChannel ch2)
    /\ answered lib g2 (migrate_call (channels_append chb1 ch2))
         (PChannelBelt chb2)
    /\ index (ChannelBelt.channels chb2) (-1) = Ok last2
    /\ In (written_call last2
             "../modeling/centerlines/t2_final_centerline.shp") g2
    /\ (10 < len (ChannelBelt.channels chb2))%Z
    /\ bounding_box chb2 = Ok box
    /\ index (ChannelBelt.cl_times chb2) 0 = Ok st
    /\ index (ChannelBelt.cl_times chb2) (-1) = Ok et
    /\ answered lib g2 (build_call chb2 box st et) b
    /\ model_of b m2.
Proof.
  intros Hp2. unfold pass_t2 in Hp2.
  next_cell Hp2 u19 g19 H19. destruct u19 as [[x y] zr]. simpl in Hp2.
  apply cell_19_chain in H19
    as (g & line & xs & ys & v & xr & yr & H19); cbv zeta in H19.
  destruct H19 as (-> & Hg & Hline & Hxy & Hv & Hres & Hx & Hy).
  next_cell Hp2 u21 g21 H21. grows H21. destruct H21 as (e21 & ->).
  next_cell Hp2 z g24 H24.
  apply cell_24_chain in H24
    as (ch0 & last1 & lower & upper & Hch0 & Hlast1 & Hlo & Hup & Hz & ->).
  next_cell Hp2 u26 g26 H26. grows H26. destruct H26 as (e26 & ->).
  next_cell Hp2 chb1a g28 H28.
  unfold cell_28 in H28. next_cell H28 ch2 g28' Hch2.
  unfold ret in H28. inversion H28. subst chb1a g28'. clear H28.
  apply mp_Channel_spec in Hch2 as [-> Hch2].
  next_cell Hp2 chb2 g30 H30.
  unfold cell_30 in H30. next_cell H30 chb2' g30' Hm2.
  apply migrate_spec in Hm2 as [-> Hm2].
  next_cell H30 endtime g30a H30a. apply lift_ok in H30a as [_ ->].
  next_cell H30 u30 g30b H30b. grows H30b. destruct H30b as (e30 & ->).
  unfold ret in H30. inversion H30. subst chb2' g30. clear H30.
  next_cell Hp2 u32 g32 H32. destruct u32. unfold cell_32 in H32.
  apply export_last_chain in H32 as (last2 & Hlast2 & ->).
  next_cell Hp2 u34 g34 H34. destruct u34.
  pose proof H34 as Heleven. apply cell_34_spec in Heleven.
  grows H34. destruct H34 as (e34 & ->).
  next_cell Hp2 u36 g36 H36. pose proof H36 as Hbox.
  apply cell_36_spec in Hbox.
  grows H36. destruct H36 as (e36 & ->).
  destruct u36 as [[[min_x max_x] min_y] max_y]. simpl in Hp2.
  apply build_3d_model_chain in Hp2 as (st & et & b & Hp2); cbv zeta in Hp2.
  destruct Hp2 as (Hst & Het & Hb2 & Hmodel & ->).
  exists g, line, xs, ys, v, xr, yr, x, y, zr, ch0, last1, lower, upper, z,
    ch2, chb2, last2, (min_x, max_x, min_y, max_y), st, et, b.
  split; [eexists; rewrite <- !app_assoc; reflexivity|].
  split; [answered_by Hg|]. split; [exact Hline|]. split; [exact Hxy|].
  split; [rewrite !in_app_iff; cbn [In]; tauto|].
  split; [answered_by Hv|]. split; [exact Hres|].
  split; [answered_by Hx|]. split; [answered_by Hy|].
  split; [exact Hch0|]. split; [exact Hlast1|].
  split; [answered_by Hlo|]. split; [answered_by Hup|].
  split; [rewrite !in_app_iff; cbn [In]; tauto|].
  split; [exact Hz|].
  split; [answered_by Hch2|]. split; [answered_by Hm2|].
  split; [exact Hlast2|].
  split; [rewrite !in_app_iff; cbn [In]; tauto|].
  split; [exact Heleven|]. split; [exact Hbox|].
  split; [exact Hst|]. split; [exact Het|].
  split; [answered_by Hb2 | exact Hmodel].
Qed.

End SecondPass.

(** ** What a finished run did, stage by stage *)











Lemma loaded_later (lib : Library) (log e : list call) (path : string)
    (xr yr zr : ndarray) :
  loaded lib log path xr yr zr -> loaded lib (log ++ e) path xr yr zr.
Proof.
  intros (g & line & xs & ys & v & Hg & Hline & Hxy & Hones & Hv & Hres).
  exists g, line, xs, ys, v.
  repeat (split; [first [assumption | now apply answered_later
                        | apply in_or_app; now left]|]).
  assumption.
Qed.

Lemma exported_later (log e : list call) (chb : ChannelBelt.t)
    (path : string) :
  exported log chb path -> exported (log ++ e) chb path.
Proof.
  intros (last & Hlast & Hin). exists last. split; [assumption|].
  apply in_or_app. now left.
Qed.

Lemma modelled_later (lib : Library) (log e : list call)
    (chb : ChannelBelt.t) (domain : float * float * float * float)
    (m : ChannelBelt3D.t) :
  modelled lib log chb domain m -> modelled lib (log ++ e) chb domain m.
Proof.
  intros (st & et & b & Hst & Het & Hb & Hm). exists st, et, b.
  repeat (split; [first [assumption | now apply answered_later]|]).
  assumption.
Qed.

(** A run that finishes, stage by stage: what each library call was given
    and what became of its answer. *)
Lemma finished_run_in_full (lib : Library) (log : list call) :
  notebook lib [] = (Ok tt, log) -> pipeline lib log.
Proof.
  intros Hrun. unfold pipeline. unfold notebook in Hrun.
  next_cell Hrun p1 g1 Hp1. destruct p1 as [chb1 m1]. simpl in Hrun.
  next_cell Hrun m2 g2 Hp2.
  pose proof Hp1 as C1. tagged cookies C1. destruct C1 as (c1 & C1 & C1').
  pose proof Hp1 as D1. tagged block_diagrams D1.
  destruct D1 as (d1 & D1 & D1').
  simpl in C1, D1. subst c1 d1.
  pose proof Hp2 as C2. tagged cookies C2. destruct C2 as (c2 & C2 & C2').
  pose proof Hp2 as D2. tagged block_diagrams D2.
  destruct D2 as (d2 & D2 & D2').
  rewrite C2 in D2. apply app_inv_head in D2 as <-.
  apply pass_t1_chain in Hp1
    as (g & line & xs & ys & v & xr1 & yr1 & x1 & y1 & z1 & ch1 & chb0
        & last1 & st1 & et1 & b1 & Hg & Hline & Hxy & Hones & Hv & Hres
        & Hfx & Hfy & Hx1 & Hy1 & Hch1 & Hb0 & Hm1 & Hlast1 & Hw1 & Hst1
        & Het1 & Hb1 & Hmod1).
  apply pass_t2_chain in Hp2
    as (g' & line' & xs' & ys' & v' & xr2 & yr2 & x2 & y2 & zr2 & ch0
        & last1' & lower & upper & z2 & ch2 & chb2 & last2 & box & st2 & et2
        & b2 & _ & Hg' & Hline' & Hxy' & Hones' & Hv' & Hres'
        & Hx2 & Hy2 & Hch0 & Hlast1' & Hlo & Hup & Hel & Hz & Hch2 & Hm2
        & Hlast2 & Hw2 & Heleven & Hbox & Hst2 & Het2 & Hb2 & Hmod2).
  apply rendering_spec in Hrun
    as (facies3d & lowest & er & Hf & Hlow & -> & Hblocks & Hcookies).
  subst g2.
  exists xr1, yr1, z1, x1, y1, ch1, chb0, chb1, m1,
    xr2, yr2, zr2, x2, y2, z2, ch2, chb2, box, m2.
  split.
  { do 2 apply loaded_later. exists g, line, xs, ys, v. auto 10. }
  split; [rewrite !in_app_iff; tauto|].
  split; [rewrite !in_app_iff; tauto|].
  split; [do 2 apply answered_later; exact Hx1|].
  split; [do 2 apply answered_later; exact Hy1|].
  split; [do 2 apply answered_later; exact Hch1|].
  split; [do 2 apply answered_later; exact Hb0|].
  split; [do 2 apply answered_later; exact Hm1|].
  split; [do 2 apply exported_later; exists last1; auto|].
  split; [do 2 apply modelled_later; exists st1, et1, b1; auto|].
  split.
  { apply loaded_later. exists g', line', xs', ys', v'. auto 10. }
  split; [apply answered_later; exact Hx2|].
  split; [apply answered_later; exact Hy2|].
  split.
  { exists ch0, last1', lower, upper.
    split; [exact Hch0|]. split; [exact Hlast1'|].
    split; [apply answered_later; exact Hlo|].
    split; [apply answered_later; exact Hup|].
    split; [apply in_or_app; now left | exact Hz]. }
  split; [apply answered_later; exact Hch2|].
  split; [apply answered_later; exact Hm2|].
  split; [apply exported_later; exists last2; auto|].
  split; [exact Heleven|]. split; [exact Hbox|].
  split; [apply modelled_later; exists st2, et2, b2; auto|].
  split; [rewrite !flat_map_app, D1', D2'; exact Hblocks|].
  exists facies3d, lowest. split; [exact Hf|]. split; [exact Hlow|].
  rewrite !flat_map_app, C1', C2'. exact Hcookies.
Qed.

(** Once a file read has come back with a first geometry that has
    coordinates, the next call is [np.ones_like] on its [x], and the one
    after that [mp.resample_centerline] on its [x] and [y]. *)
Lemma first_line_is_used (lib : Library) (h : list call) (g : GeoDataFrame)
    (line : geometry) (xs ys : ndarray) :
  index g 0 = Ok line -> xy line = Ok (xs, ys) ->
  (lib h (read_call t1_initial) = Ok (PGeoDataFrame g) ->
     exists rest,
       snd (cell_06 lib h)
       = h ++ read_call t1_initial :: ones_like_call xs :: rest
       /\ (forall a,
             lib (h ++ [read_call t1_initial]) (ones_like_call xs) = Ok a ->
             exists rest',
               rest = resample_call xs ys (repeat 1%float (List.length xs))
                      :: rest'))
  /\ (lib h (read_call t2_initial) = Ok (PGeoDataFrame g) ->
        exists rest,
          snd (cell_19 lib h)
          = h ++ read_call t2_initial :: ones_like_call xs :: rest
          /\ (forall a,
                lib (h ++ [read_call t2_initial]) (ones_like_call xs) = Ok a ->
                exists rest',
                  rest = resample_call xs ys (repeat 1%float (List.length xs))
                         :: rest')).
Proof.
  intros Hline Hxy. split; intros Hg.
  - unfold cell_06, read_first_line, resample_centerline, savgol_filter,
      np_flip, call_gdf, call_tuple, call_array, known, bindM, call_lib,
      lift, ret.
    change (centerline_dir ++ "t1_initial_centerline.shp")%string
      with t1_initial.
    fold (read_call t1_initial). rewrite Hg. cbn [as_gdf]. rewrite Hline, Hxy.
    fold (ones_like_call xs). rewrite ones_like_repeat.
    fold (resample_call xs ys (repeat 1%float (List.length xs))).
    destruct (lib (h ++ [read_call t1_initial]) (ones_like_call xs))
      as [a0|e0] eqn:Hones.
    + repeat match goal with
             | |- context [match lib ?h0 ?c with _ => _ end] =>
                 destruct (lib h0 c)
             | |- context [match unpack ?n ?v with _ => _ end] =>
                 destruct (unpack n v)
             | |- context [match as_array ?v with _ => _ end] =>
                 destruct (as_array v)
             end;
        (eexists; split;
         [ cbn [snd]; rewrite <- ?app_assoc; cbn [app]; reflexivity
         | intros a _; eexists; reflexivity ]).
    + eexists. split; [cbn [snd]; rewrite <- app_assoc; reflexivity|].
      intros a Ha. discriminate.
  - unfold cell_19, read_first_line, resample_centerline, savgol_filter,
      call_gdf, call_tuple, call_array, known, bindM, call_lib, lift, ret.
    change (centerline_dir ++ "t2_initial_centerline.shp")%string
      with t2_initial.
    fold (read_call t2_initial). rewrite Hg. cbn [as_gdf]. rewrite Hline, Hxy.
    fold (ones_like_call xs). rewrite ones_like_repeat.
    fold (resample_call xs ys (repeat 1%float (List.length xs))).
    destruct (lib (h ++ [read_call t2_initial]) (ones_like_call xs))
      as [a0|e0] eqn:Hones.
    + repeat match goal with
             | |- context [match lib ?h0 ?c with _ => _ end] =>
                 destruct (lib h0 c)
             | |- context [match unpack ?n ?v with _ => _ end] =>
                 destruct (unpack n v)
             | |- context [match as_array ?v with _ => _ end] =>
                 destruct (as_array v)
             end;
        (eexists; split;
         [ cbn [snd]; rewrite <- ?app_assoc; cbn [app]; reflexivity
         | intros a _; eexists; reflexivity ]).
    + eexists. split; [cbn [snd]; rewrite <- app_assoc; reflexivity|].
      intros a Ha. discriminate.
Qed.

Lemma combine_nth_min {T U} (l : list T) (l' : list U) (i : nat)
    (d : T) (d' : U) :
  (i < Nat.min (List.length l) (List.length l'))%nat ->
  nth i (combine l l') (d, d') = (nth i l d, nth i l' d').
Proof.
  revert l' i. induction l as [|a l IH]; intros [|b l'] i Hi; simpl in *;
    try lia.
  destruct i as [|i]; [reflexivity|]. apply IH. lia.
Qed.

(** The points of an export, one by one. *)
Lemma utm_points_nth (last : Channel.t) :
  List.length (utm_points last)
  = Nat.min (List.length (Channel.x last)) (List.length (Channel.y last))
  /\ forall i,
       (i < List.length (utm_points last))%nat ->
       nth i (utm_points last) (0, 0)
       = (nth i (Channel.x last) 0 + 560000,
          nth i (Channel.y last) 0 + 4300000).
Proof.
  unfold utm_points.
  assert (Hlen : List.length
                   (combine (map (fun v => v + 560000) (Channel.x last))
                            (map (fun v => v + 4300000) (Channel.y last)))
                 = Nat.min (List.length (Channel.x last))
                           (List.length (Channel.y last)))
    by now rewrite length_combine, !length_map.
  split; [exact Hlen|].
  intros i Hi. rewrite Hlen in Hi.
  rewrite combine_nth_min by (rewrite !length_map; exact Hi).
  f_equal.
  - rewrite (nth_indep _ 0 (0 + 560000)) by (rewrite length_map; lia).
    apply (map_nth (fun v => v + 560000)).
  - rewrite (nth_indep _ 0 (0 + 4300000)) by (rewrite length_map; lia).
    apply (map_nth (fun v => v + 4300000)).
Qed.

(** What an export records, whether or not it gets to the end. *)
Lemma export_last_record (lib : Library) (chb : ChannelBelt.t)
    (path : string) (last : Channel.t) (h : list call) :
  index (ChannelBelt.channels chb) (-1) = Ok last ->
  exists e,
    snd (export_last lib chb path h) = h ++ e
    /\ (forall c, In c e -> callee c = "to_file"%string ->
          c = written_call last path)
    /\ (fst (export_last lib chb path h) = Ok tt ->
          e = [copy_call (Channel.x last); copy_call (Channel.y last);
               linestring_call (utm_points last);
               frame_call (LineString (utm_points last));
               written_call last path]).
Proof.
  intros Hlast.
  unfold export_last, known, call_void, bindM, call_lib, lift, ret.
  rewrite Hlast.
  repeat match goal with
         | |- context [lib ?h0 ?c] =>
             destruct (lib h0 c); rewrite <- ?app_assoc; simpl
         end;
    eexists; (split; [reflexivity|]); split;
    try (intros c Hin Hc; simpl in Hin;
         repeat (destruct Hin as [<-|Hin]; try discriminate Hc);
         solve [reflexivity | contradiction]);
    intros Hok; try discriminate Hok; reflexivity.
Qed.

(** ** Runs that raise *)

Section Raising.
Variable lib : Library.





End Raising.







Section Sites.
Variable lib : Library.


End Sites.







(** ** The bounding box of cell 36 *)

Lemma bounding_box_unfold (chb : ChannelBelt.t) :
  bounding_box chb
  = (ch0 <- index (ChannelBelt.channels chb) 0 ;;
     min_x <- min_of (Channel.x ch0) ;;
     max_x <- max_of (Channel.x ch0) ;;
     min_y <- min_of (Channel.y ch0) ;;
     max_y <- max_of (Channel.y ch0) ;;
     for_each (ChannelBelt.channels chb) widen (min_x, max_x, min_y, max_y)).
Proof. reflexivity. Qed.

Lemma min_of_nodes (a : ndarray) :
  match min_of a with
  | Ok _ => a <> []
  | Raise e => e = ValueError /\ a = []
  end.
Proof. destruct a; simpl; [auto | discriminate]. Qed.

Lemma max_of_nodes (a : ndarray) :
  match max_of a with
  | Ok _ => a <> []
  | Raise e => e = ValueError /\ a = []
  end.
Proof. destruct a; simpl; [auto | discriminate]. Qed.

Lemma widen_nodes (ch : Channel.t) (box : float * float * float * float) :
  match widen ch box with
  | Ok _ => has_nodes ch
  | Raise e => e = ValueError /\ (Channel.x ch = [] \/ Channel.y ch = [])
  end.
Proof.
  destruct box as [[[a b] c] d]. unfold widen, has_nodes.
  destruct (Channel.x ch) as [|x0 xs], (Channel.y ch) as [|y0 ys]; simpl;
    intuition discriminate.
Qed.

Lemma widen_all_nodes (items : list Channel.t)
    (box : float * float * float * float) :
  match for_each items widen box with
  | Ok _ => Forall has_nodes items
  | Raise e =>
      e = ValueError
      /\ Exists (fun ch => Channel.x ch = [] \/ Channel.y ch = []) items
  end.
Proof.
  revert box. induction items as [|ch rest IH]; intros box; simpl.
  - constructor.
  - pose proof (widen_nodes ch box) as Hch.
    destruct (widen ch box) as [box'|e]; simpl.
    + specialize (IH box'). destruct (for_each rest widen box').
      * now constructor.
      * destruct IH as [-> IH]. split; [reflexivity|]. now right.
    + destruct Hch as [-> Hch]. split; [reflexivity|]. now left.
Qed.

(** The built-in minimum and maximum pick one of their arguments. *)
Lemma py_min_either (a b : float) : py_min a b = a \/ py_min a b = b.
Proof. unfold py_min. destruct (lt b a); auto. Qed.

Lemma py_max_either (a b : float) : py_max a b = a \/ py_max a b = b.
Proof. unfold py_max. destruct (lt a b); auto. Qed.

Lemma fold_py_min_In (rest : list float) (v : float) :
  In (fold_left py_min rest v) (v :: rest).
Proof.
  revert v. induction rest as [|r rest IH]; intros v; simpl; [auto|].
  destruct (IH (py_min v r)) as [Heq|Hin]; [|auto].
  destruct (py_min_either v r) as [Hv|Hr]; rewrite <- Heq; auto.
Qed.

Lemma fold_py_max_In (rest : list float) (v : float) :
  In (fold_left py_max rest v) (v :: rest).
Proof.
  revert v. induction rest as [|r rest IH]; intros v; simpl; [auto|].
  destruct (IH (py_max v r)) as [Heq|Hin]; [|auto].
  destruct (py_max_either v r) as [Hv|Hr]; rewrite <- Heq; auto.
Qed.

Lemma min_of_In (a : ndarray) (m : float) : min_of a = Ok m -> In m a.
Proof.
  destruct a as [|v rest]; simpl; [discriminate|].
  intros Hm. injection Hm as <-. apply fold_py_min_In.
Qed.

Lemma max_of_In (a : ndarray) (m : float) : max_of a = Ok m -> In m a.
Proof.
  destruct a as [|v rest]; simpl; [discriminate|].
  intros Hm. injection Hm as <-. apply fold_py_max_In.
Qed.

Lemma widen_attained (chs items : list Channel.t)
    (a b c d a' b' c' d' : float) :
  incl items chs ->
  x_node_of chs a -> x_node_of chs b -> y_node_of chs c -> y_node_of chs d ->
  for_each items widen (a, b, c, d) = Ok (a', b', c', d') ->
  x_node_of chs a' /\ x_node_of chs b' /\ y_node_of chs c' /\ y_node_of chs d'.
Proof.
  revert a b c d. induction items as [|ch rest IH]; intros a b c d Hincl
    Ha Hb Hc Hd; simpl.
  - intros Heq. injection Heq as <- <- <- <-. auto.
  - assert (Hch : In ch chs) by (apply Hincl; now left).
    assert (Hrest : incl rest chs) by (intros k Hk; apply Hincl; now right).
    unfold widen at 1.
    destruct (min_of (Channel.x ch)) as [xa|] eqn:Hxa; [|discriminate].
    destruct (max_of (Channel.x ch)) as [xb|] eqn:Hxb; [|discriminate].
    destruct (min_of (Channel.y ch)) as [yc|] eqn:Hyc; [|discriminate].
    destruct (max_of (Channel.y ch)) as [yd|] eqn:Hyd; [|discriminate].
    cbn [bind]. apply IH; [assumption| | | |].
    + destruct (py_min_either a xa) as [->| ->]; [assumption|].
      exists ch. split; [assumption|]. now apply min_of_In.
    + destruct (py_max_either b xb) as [->| ->]; [assumption|].
      exists ch. split; [assumption|]. now apply max_of_In.
    + destruct (py_min_either c yc) as [->| ->]; [assumption|].
      exists ch. split; [assumption|]. now apply min_of_In.
    + destruct (py_max_either d yd) as [->| ->]; [assumption|].
      exists ch. split; [assumption|]. now apply max_of_In.
Qed.

Unset Implicit Arguments.

(** On numbers the built-in minimum is below both arguments and the
    maximum above both. *)
Lemma py_min_below (a b : float) :
  a_number a -> a_number b ->
  a_number (py_min a b)
  /\ PrimFloat.leb (py_min a b) a = true
  /\ PrimFloat.leb (py_min a b) b = true.
Proof.
  intros Ha Hb. unfold py_min. simpl.
  destruct (PrimFloat.ltb b a) eqn:Hlt.
  - split; [assumption|]. split; [now apply ltb_leb | assumption].
  - split; [assumption|]. split; [assumption|]. now apply not_ltb_leb.
Qed.

Lemma py_max_above (a b : float) :
  a_number a -> a_number b ->
  a_number (py_max a b)
  /\ PrimFloat.leb a (py_max a b) = true
  /\ PrimFloat.leb b (py_max a b) = true.
Proof.
  intros Ha Hb. unfold py_max. simpl.
  destruct (PrimFloat.ltb a b) eqn:Hlt.
  - split; [assumption|]. split; [now apply ltb_leb | assumption].
  - split; [assumption|]. split; [assumption|]. now apply not_ltb_leb.
Qed.

Lemma fold_py_min_below (rest : list float) (v : float) :
  a_number v -> Forall a_number rest ->
  a_number (fold_left py_min rest v)
  /\ PrimFloat.leb (fold_left py_min rest v) v = true
  /\ Forall (fun r => PrimFloat.leb (fold_left py_min rest v) r = true) rest.
Proof.
  revert v. induction rest as [|r rest IH]; intros v Hv Hrest; simpl.
  - auto.
  - inversion Hrest as [|? ? Hr Hrest']; subst.
    destruct (py_min_below v r Hv Hr) as (Hm & Hmv & Hmr).
    destruct (IH (py_min v r) Hm Hrest') as (Hf & Hfm & Hfr).
    split; [assumption|]. split; [eapply leb_trans; eassumption|].
    constructor; [eapply leb_trans; eassumption | assumption].
Qed.

Lemma fold_py_max_above (rest : list float) (v : float) :
  a_number v -> Forall a_number rest ->
  a_number (fold_left py_max rest v)
  /\ PrimFloat.leb v (fold_left py_max rest v) = true
  /\ Forall (fun r => PrimFloat.leb r (fold_left py_max rest v) = true) rest.
Proof.
  revert v. induction rest as [|r rest IH]; intros v Hv Hrest; simpl.
  - auto.
  - inversion Hrest as [|? ? Hr Hrest']; subst.
    destruct (py_max_above v r Hv Hr) as (Hm & Hmv & Hmr).
    destruct (IH (py_max v r) Hm Hrest') as (Hf & Hfm & Hfr).
    split; [assumption|]. split; [eapply leb_trans; eassumption|].
    constructor; [eapply leb_trans; eassumption | assumption].
Qed.

Lemma min_of_below (a : ndarray) (m : float) :
  Forall a_number a -> min_of a = Ok m ->
  a_number m /\ Forall (fun v => PrimFloat.leb m v = true) a.
Proof.
  destruct a as [|v rest]; simpl; [discriminate|].
  intros Hall Hm. injection Hm as <-.
  inversion Hall as [|? ? Hv Hrest]; subst.
  destruct (fold_py_min_below rest v Hv Hrest) as (Hf & Hfv & Hfr).
  split; [assumption|]. now constructor.
Qed.

Lemma max_of_above (a : ndarray) (m : float) :
  Forall a_number a -> max_of a = Ok m ->
  a_number m /\ Forall (fun v => PrimFloat.leb v m = true) a.
Proof.
  destruct a as [|v rest]; simpl; [discriminate|].
  intros Hall Hm. injection Hm as <-.
  inversion Hall as [|? ? Hv Hrest]; subst.
  destruct (fold_py_max_above rest v Hv Hrest) as (Hf & Hfv & Hfr).
  split; [assumption|]. now constructor.
Qed.

Lemma Forall_between (lo hi : float) (l : list float) :
  Forall (fun v => PrimFloat.leb lo v = true) l ->
  Forall (fun v => PrimFloat.leb v hi = true) l ->
  Forall (fun v => PrimFloat.leb lo v = true /\ PrimFloat.leb v hi = true) l.
Proof.
  intros Hlo Hhi. rewrite Forall_forall in *. intros v Hv. auto.
Qed.

Lemma encloses_wider (a b c d a' b' c' d' : float) (ch : Channel.t) :
  PrimFloat.leb a' a = true -> PrimFloat.leb b b' = true ->
  PrimFloat.leb c' c = true -> PrimFloat.leb d d' = true ->
  encloses (a, b, c, d) ch -> encloses (a', b', c', d') ch.
Proof.
  intros Ha Hb Hc Hd [Hx Hy]. split.
  - eapply Forall_impl; [|exact Hx]. intros v [Hlo Hhi].
    split; eapply leb_trans; eassumption.
  - eapply Forall_impl; [|exact Hy]. intros v [Hlo Hhi].
    split; eapply leb_trans; eassumption.
Qed.

Lemma widen_encloses (items : list Channel.t)
    (a b c d a' b' c' d' : float) :
  Forall all_numbers items ->
  a_number a -> a_number b -> a_number c -> a_number d ->
  for_each items widen (a, b, c, d) = Ok (a', b', c', d') ->
  (PrimFloat.leb a' a = true /\ PrimFloat.leb b b' = true
   /\ PrimFloat.leb c' c = true /\ PrimFloat.leb d d' = true)
  /\ Forall (encloses (a', b', c', d')) items.
Proof.
  revert a b c d. induction items as [|ch rest IH];
    intros a b c d Hall Ha Hb Hc Hd; simpl.
  - intros Heq. injection Heq as <- <- <- <-. auto 10.
  - inversion Hall as [|? ? [Hxs Hys] Hrest]; subst.
    unfold widen at 1.
    destruct (min_of (Channel.x ch)) as [xa|] eqn:Hxa; [|discriminate].
    destruct (max_of (Channel.x ch)) as [xb|] eqn:Hxb; [|discriminate].
    destruct (min_of (Channel.y ch)) as [yc|] eqn:Hyc; [|discriminate].
    destruct (max_of (Channel.y ch)) as [yd|] eqn:Hyd; [|discriminate].
    cbn [bind]. intros Hloop.
    destruct (min_of_below _ _ Hxs Hxa) as [Nxa Lxa].
    destruct (max_of_above _ _ Hxs Hxb) as [Nxb Lxb].
    destruct (min_of_below _ _ Hys Hyc) as [Nyc Lyc].
    destruct (max_of_above _ _ Hys Hyd) as [Nyd Lyd].
    destruct (py_min_below a xa Ha Nxa) as (Na1 & La1 & La2).
    destruct (py_max_above b xb Hb Nxb) as (Nb1 & Lb1 & Lb2).
    destruct (py_min_below c yc Hc Nyc) as (Nc1 & Lc1 & Lc2).
    destruct (py_max_above d yd Hd Nyd) as (Nd1 & Ld1 & Ld2).
    destruct (IH _ _ _ _ Hrest Na1 Nb1 Nc1 Nd1 Hloop)
      as ((Ha' & Hb' & Hc' & Hd') & Hbox).
    split.
    + repeat split; eapply leb_trans; eassumption.
    + constructor; [|assumption].
      apply encloses_wider with (a := xa) (b := xb) (c := yc) (d := yd);
        try (eapply leb_trans; eassumption).
      split; apply Forall_between; assumption.
Qed.

Set Implicit Arguments.

Set Implicit Arguments.

(** ** The facies volume of cells 43 and 46 *)

Lemma length_enumerate {T} (l : list T) :
  List.length (enumerate l) = List.length l.
Proof.
  unfold enumerate. rewrite length_combine, length_map, length_seq. lia.
Qed.

Lemma nth_enumerate {T} (l : list T) (j : nat) (d : T) :
  (j < List.length l)%nat ->
  nth j (enumerate l) (0%Z, d) = (Z.of_nat j, nth j l d).
Proof.
  intros Hj. unfold enumerate. rewrite combine_nth.
  - f_equal. change 0%Z with (Z.of_nat 0).
    rewrite map_nth, seq_nth by assumption. reflexivity.
  - now rewrite length_map, length_seq.
Qed.

Section Layers.
Variable facies : ndarray.
Variables s0 s1 d2 : Z.

Lemma layer_written (k : Z) (a : ndarray3) :
  (0 <= k < len facies)%Z -> (k < d2)%Z -> shape a = (s0, s1, d2) ->
  exists a',
    facies_layer facies k a = Ok a'
    /\ shape a' = (s0, s1, d2)
    /\ (layers_below facies s0 s1 d2 k a -> layers_below facies s0 s1 d2 (k + 1) a').
Proof.
  intros Hk Hd Hshape. unfold facies_layer.
  rewrite (index_nth facies 0) by assumption. cbn [bind].
  unfold set_last_axis. rewrite Hshape.
  replace ((0 <=? k)%Z && (k <? d2)%Z)%bool with true
    by (symmetry; apply andb_true_intro; split;
        [apply Z.leb_le | apply Z.ltb_lt]; lia).
  eexists. split; [reflexivity|]. split; [reflexivity|].
  intros (Hlen & Hflat). unfold layers_below. cbn [flat].
  rewrite length_map, length_enumerate. split; [assumption|].
  intros j Hj.
  set (f := fun pv : Z * float =>
              if (fst pv mod d2 =? k)%Z
              then nth (Z.to_nat k) facies 0 - float64_of_int 1
              else snd pv).
  rewrite (nth_indep (map f (enumerate (flat a))) 0 (f (0%Z, 0)))
    by (rewrite length_map, length_enumerate; assumption).
  rewrite map_nth, nth_enumerate by assumption. unfold f. cbn [fst snd].
  rewrite Hflat by assumption. unfold written.
  destruct (Z.eqb_spec (Z.of_nat j mod d2) k) as [Heq|Hne].
  - replace (Z.of_nat j mod d2 <? k + 1)%Z with true
      by (symmetry; apply Z.ltb_lt; lia).
    now rewrite Heq.
  - destruct (Z.ltb_spec (Z.of_nat j mod d2) k),
             (Z.ltb_spec (Z.of_nat j mod d2) (k + 1)); try lia; reflexivity.
Qed.

Lemma layers_loop (todo : nat) :
  forall (k : Z) (a : ndarray3),
    todo = Z.to_nat (len facies - k) ->
    (0 <= k)%Z -> (len facies <= Z.max k d2)%Z ->
    shape a = (s0, s1, d2) -> layers_below facies s0 s1 d2 k a ->
    exists a',
      for_each (range k (len facies)) (facies_layer facies) a = Ok a'
      /\ shape a' = (s0, s1, d2)
      /\ layers_below facies s0 s1 d2 (Z.max k (len facies)) a'.
Proof.
  induction todo as [|todo IH]; intros k a Htodo Hk Hd Hshape Ha.
  - rewrite range_nil by lia. exists a. split; [reflexivity|].
    split; [assumption|].
    now replace (Z.max k (len facies)) with k by lia.
  - rewrite range_cons by lia. cbn [for_each].
    destruct (@layer_written k a) as (a1 & -> & Hshape1 & Ha1);
      [lia | lia | assumption|].
    cbn [bind].
    destruct (IH (k + 1)%Z a1) as (a' & Hrun & Hshape' & Ha');
      [lia | lia | lia | assumption | auto |].
    exists a'. split; [assumption|]. split; [assumption|].
    now replace (Z.max k (len facies)) with (Z.max (k + 1) (len facies))
      by lia.
Qed.

Lemma layers_overflow (todo : nat) :
  forall (k : Z) (a : ndarray3),
    todo = Z.to_nat (Z.max 0 d2 - k) ->
    (0 <= k <= Z.max 0 d2)%Z -> (Z.max 0 d2 < len facies)%Z ->
    shape a = (s0, s1, d2) ->
    for_each (range k (len facies)) (facies_layer facies) a = Raise IndexError.
Proof.
  induction todo as [|todo IH]; intros k a Htodo Hk Hd Hshape.
  - rewrite range_cons by lia. cbn [for_each]. unfold facies_layer at 1.
    rewrite (index_nth facies 0) by lia. cbn [bind].
    unfold set_last_axis. rewrite Hshape.
    replace (k <? d2)%Z with false by (symmetry; apply Z.ltb_ge; lia).
    now rewrite Bool.andb_false_r.
  - rewrite range_cons by lia. cbn [for_each].
    destruct (@layer_written k a) as (a1 & -> & Hshape1 & _);
      [lia | lia | assumption|].
    cbn [bind]. apply IH; [lia | lia | lia | assumption].
Qed.

Lemma layers_of_zeros : (0 < d2)%Z -> layers_below facies s0 s1 d2 0 (zeros3 s0 s1 d2).
Proof.
  intros Hd. unfold layers_below, zeros3, list_repeat. cbn [flat].
  rewrite repeat_length. split; [reflexivity|].
  intros j Hj. rewrite nth_repeat. unfold written.
  pose proof (Z.mod_pos_bound (Z.of_nat j) d2 Hd).
  destruct (Z.ltb_spec (Z.of_nat j mod d2) 0) as [Hneg|Hpos];
    [lia | reflexivity].
Qed.

End Layers.

Lemma spread_facies_spec (m : ChannelBelt3D.t) (s0 s1 d2 : Z) :
  let facies := ChannelBelt3D.facies m in
  ((len facies <= Z.max 0 d2)%Z ->
     exists v,
       spread_facies m (zeros3 s0 s1 d2) = Ok v
       /\ shape v = (s0, s1, d2)
       /\ len (flat v) = Z.max 0 (s0 * s1 * d2)
       /\ (forall j code,
             (0 <= j < len (flat v))%Z ->
             index facies (j mod d2) = Ok code ->
             index (flat v) j = Ok (code - float64_of_int 1))
       /\ (forall j,
             (0 <= j < len (flat v))%Z -> (len facies <= j mod d2)%Z ->
             index (flat v) j = Ok 0))
  /\ ((Z.max 0 d2 < len facies)%Z ->
        spread_facies m (zeros3 s0 s1 d2) = Raise IndexError).
Proof.
  intros facies. split.
  - intros Hfit. unfold spread_facies. fold facies.
    assert (Hn : (0 <= len facies)%Z) by (unfold len; lia).
    destruct (Z.eq_dec (len facies) 0) as [Hempty|Hsome].
    + rewrite Hempty, range_nil by lia. cbn [for_each].
      eexists. split; [reflexivity|]. split; [reflexivity|].
      assert (Hlen : len (flat (zeros3 s0 s1 d2)) = Z.max 0 (s0 * s1 * d2))
        by (unfold zeros3; cbn [flat]; apply len_list_repeat).
      split; [exact Hlen|]. split.
      * intros j code Hj Hcode. exfalso.
        destruct facies; [|discriminate Hempty].
        unfold index in Hcode. cbn [len List.length Z.of_nat] in Hcode.
        rewrite Z.add_0_r in Hcode.
        destruct (j mod d2 <? 0)%Z eqn:Hneg; rewrite ?Hneg in Hcode;
          try discriminate.
        destruct (Z.to_nat (j mod d2)); discriminate.
      * intros j Hj _. rewrite (index_nth _ 0) by assumption.
        unfold zeros3, list_repeat. cbn [flat]. now rewrite nth_repeat.
    + assert (Hd : (0 < d2)%Z) by lia.
      destruct (@layers_loop facies s0 s1 d2 _ 0%Z (zeros3 s0 s1 d2) eq_refl)
        as (v & Hrun & Hshape & Hlen & Hflat);
        [lia | lia | reflexivity | now apply layers_of_zeros |].
      exists v. split; [exact Hrun|]. split; [exact Hshape|].
      replace (Z.max 0 (len facies)) with (len facies) in Hflat by lia.
      assert (Hlen' : len (flat v) = Z.max 0 (s0 * s1 * d2))
        by (unfold len; rewrite Hlen; lia).
      split; [exact Hlen'|].
      assert (Hat : forall j, (0 <= j < len (flat v))%Z ->
                index (flat v) j
                = Ok (written facies d2 (len facies) (Z.to_nat j))).
      { intros j Hj. rewrite (index_nth _ 0) by assumption. f_equal.
        apply Hflat. unfold len in Hj. lia. }
      split.
      * intros j code Hj Hcode. rewrite Hat by assumption. f_equal.
        unfold written. rewrite Z2Nat.id by lia.
        pose proof (Z.mod_pos_bound j d2 Hd) as Hmod.
        destruct (Z.ltb_spec (j mod d2) (len facies)) as [Hlt|Hge].
        -- rewrite (index_nth facies 0) in Hcode by lia.
           now injection Hcode as ->.
        -- apply index_inside in Hcode; lia.
      * intros j Hj Hge. rewrite Hat by assumption. f_equal.
        unfold written. rewrite Z2Nat.id by lia.
        destruct (Z.ltb_spec (j mod d2) (len facies)); [lia | reflexivity].
  - intros Hover. unfold spread_facies.
    apply (@layers_overflow (ChannelBelt3D.facies m) s0 s1 d2 _ 0%Z _ eq_refl);
      [lia | assumption | reflexivity].
Qed.

(* ===================================================================== *)
(** * Part 9: the claims about the notebook *)
(* ===================================================================== *)

Lemma demo_run_finishes : fst (notebook Demo.lib []) = Ok tt.
Proof. vm_compute. reflexivity. Qed.

Lemma demo_run :
  notebook Demo.lib [] = (Ok tt, snd (notebook Demo.lib [])).
Proof.
  rewrite <- demo_run_finishes. apply surjective_pairing.
Qed.




(** C2, as stated, fails: the T2 centerline is loaded after the T1 model
    has been built, so a stage runs after one that follows it in the
    listed sequence. *)
Lemma linear_order_counterexample :
  fst (notebook Demo.lib []) = Ok tt
  /\ in_order (stages (snd (notebook Demo.lib []))) = false
  /\ exists i j,
       (i < j)%nat
       /\ nth_error (flat_map stage_of (snd (notebook Demo.lib []))) i
          = Some Build3D
       /\ nth_error (flat_map stage_of (snd (notebook Demo.lib []))) j
          = Some Load.
Proof.
  split; [vm_compute; reflexivity|]. split; [vm_compute; reflexivity|].
  exists 10%nat, 11%nat. split; [lia|]. split; vm_compute; reflexivity.
Qed.

(** C2, amended: the six stages load, resample and smooth, construct,
    migrate, export and build run in that order twice, first for T1 and
    then for T2, and the rendering calls come after both passes (the
    two-dimensional matplotlib figures and numpy helpers in between count
    for no stage); a run that raises stops somewhere along that sequence.
    The passes are not independent: the second migration runs on the belt
    the first one returned, with the first T2 channel appended. *)
Theorem two_passes_then_rendering :
  forall lib : Library,
    match notebook lib [] with
    | (Ok _, log) => stages log = whole_run
    | (Raise _, log) => exists rest, stages log ++ rest = whole_run
    end
    /\ in_order one_pass = true
    /\ (forall log, notebook lib [] = (Ok tt, log) ->
          exists chb0 chb1 h1 ch2 chb2 h3,
            (exists rest, log = h1 ++ migrate_call chb0 :: rest)
            /\ lib h1 (migrate_call chb0) = Ok (PChannelBelt chb1)
            /\ (exists rest,
                  log = h3 ++ migrate_call (channels_append chb1 ch2) :: rest)
            /\ lib h3 (migrate_call (channels_append chb1 ch2))
               = Ok (PChannelBelt chb2)).
Proof.
  intros lib. split; [|split].
  - destruct (notebook_stage_calls lib) as (S & Hemits & Hruns).
    apply run_emits in Hemits. unfold stages.
    destruct (notebook lib []) as [[v|e] log].
    + now rewrite Hemits.
    + destruct Hemits as (rest & <-). rewrite <- Hruns. apply runs_prefix.
  - reflexivity.
  - intros log Hrun.
    destruct (finished_run lib Hrun)
      as (chb0 & chb1 & h1 & last1 & x & y & lower & upper & z & ch2 & h2
          & chb2 & h3 & last2 & Hm1 & Ha1 & _ & _ & _ & _ & _ & _ & Hm2
          & Ha2 & _).
    exists chb0, chb1, h1, ch2, chb2, h3.
    exact (conj Hm1 (conj Ha1 (conj Hm2 Ha2))).
Qed.

Lemma two_passes_then_rendering_witness :
  exists chb0 chb1 h1 ch2 chb2 h3,
    (exists rest,
       snd (notebook Demo.lib []) = h1 ++ migrate_call chb0 :: rest)
    /\ Demo.lib h1 (migrate_call chb0) = Ok (PChannelBelt chb1)
    /\ (exists rest,
          snd (notebook Demo.lib [])
          = h3 ++ migrate_call (channels_append chb1 ch2) :: rest)
    /\ Demo.lib h3 (migrate_call (channels_append chb1 ch2))
       = Ok (PChannelBelt chb2).
Proof.
  destruct (two_passes_then_rendering Demo.lib) as [_ [_ Hflow]].
  exact (Hflow _ demo_run).
Defined.

(** C3, as stated, fails: with centerlines a tenth of a metre from the
    origin of the UTM zone, and libraries that return what they are given,
    the first point of the exported T2 centerline is not the first point
    that was read: in binary64, [0.1 - 560000 + 560000] is not [0.1]. *)
Lemma offset_round_trip_counterexample :
  exists log input pts,
    notebook Demo.lib_near_origin [] = (Ok tt, log)
    /\ Demo.lib_near_origin [] (read_call t2_initial)
       = Ok (PGeoDataFrame [LineString input])
    /\ In (method geopandas (PGeoDataFrame [LineString pts]) "to_file"
             [Pos (PStr t2_final)]) log
    /\ nth 0 input (0, 0) = (0.1, 0.1)
    /\ nth 0 pts (0, 0) = (0.1 - 560000 + 560000, 0.1 - 4300000 + 4300000)
    /\ (0.1 - 560000 + 560000 =? 0.1) = false
    /\ (0.1 - 4300000 + 4300000 =? 0.1) = false.
Proof.
  eexists. eexists. eexists.
  split; [vm_compute; reflexivity|].
  split; [vm_compute; reflexivity|].
  split.
  { apply (nth_error_In _ 252). vm_compute. reflexivity. }
  split; [vm_compute; reflexivity|].
  split; [vm_compute; reflexivity|].
  split; vm_compute; reflexivity.
Qed.

(** C3, amended: each export records one [to_file] call, on a frame that
    holds exactly one [LineString], whose points are, in order, the [x] and
    [y] of the last channel of the belt with 560000 and 4300000 added; in a
    run that finishes the two belts exported are the ones the two
    migrations returned, written to the two [*_final_centerline.shp], and
    each belt goes back, call by call, to the first geometry of its input
    file, from whose resampled [x] and [y] the same 560000 and 4300000
    were subtracted before smoothing.  Adding an offset back after
    subtracting it gives the very same binary64 numbers for eastings from
    524288 up to 1048576 and northings from 4194304 up to 8388608 (the
    binades of the two offsets); elsewhere it holds up to rounding only. *)
Theorem export_restores_utm_frame :
  (forall (lib : Library) (chb : ChannelBelt.t) (path : string)
          (last : Channel.t) (h : list call),
      index (ChannelBelt.channels chb) (-1) = Ok last ->
      exists e pts,
        snd (export_last lib chb path h) = h ++ e
        /\ List.length pts
           = Nat.min (List.length (Channel.x last))
                     (List.length (Channel.y last))
        /\ (forall i, (i < List.length pts)%nat ->
              nth i pts (0, 0)
              = (nth i (Channel.x last) 0 + 560000,
                 nth i (Channel.y last) 0 + 4300000))
        /\ (forall c, In c e -> callee c = "to_file"%string ->
              c = method geopandas (PGeoDataFrame [LineString pts])
                    "to_file" [Pos (PStr path)])
        /\ (fst (export_last lib chb path h) = Ok tt ->
              In (method geopandas (PGeoDataFrame [LineString pts])
                    "to_file" [Pos (PStr path)]) e))
  /\ (forall (lib : Library) (log : list call),
        notebook lib [] = (Ok tt, log) ->
        flat_map file_written log
        = [[Pos (PStr "../modeling/centerlines/t1_final_centerline.shp")];
           [Pos (PStr "../modeling/centerlines/t2_final_centerline.shp")]]
        /\ exists xr1 yr1 zr1 x1 y1 ch1 chb0 chb1
                  xr2 yr2 zr2 x2 y2 z2 ch2 chb2,
             loaded lib log t1_initial xr1 yr1 zr1
             /\ smoothed lib log (local_x (rev xr1)) 11 x1
             /\ smoothed lib log (local_y (rev yr1)) 11 y1
             /\ answered lib log (channel_call x1 y1 zr1) (PChannel ch1)
             /\ answered lib log (belt_call ch1) (PChannelBelt chb0)
             /\ answered lib log (migrate_call chb0) (PChannelBelt chb1)
             /\ exported log chb1 t1_final
             /\ loaded lib log t2_initial xr2 yr2 zr2
             /\ smoothed lib log (local_x xr2) 31 x2
             /\ smoothed lib log (local_y yr2) 31 y2
             /\ answered lib log (channel_call x2 y2 z2) (PChannel ch2)
             /\ answered lib log (migrate_call (channels_append chb1 ch2))
                  (PChannelBelt chb2)
             /\ exported log chb2 t2_final)
  /\ (forall a : ndarray,
        Forall (between 524288 1048576) a ->
        map (fun v => v + 560000) (local_x a) = a)
  /\ (forall a : ndarray,
        Forall (between 4194304 8388608) a ->
        map (fun v => v + 4300000) (local_y a) = a).
Proof.
  split; [|split; [|split]].
  - intros lib chb path last h Hlast.
    destruct (export_last_record lib chb path h Hlast) as (e & He & Honly & Hok).
    destruct (utm_points_nth last) as [Hlen Hnth].
    exists e, (utm_points last).
    split; [exact He|]. split; [exact Hlen|]. split; [exact Hnth|].
    split; [exact Honly|].
    intros Hfin. rewrite (Hok Hfin). simpl. tauto.
  - intros lib log Hrun. split.
    + pose proof (run_emits (notebook_files_written lib)) as Hfiles.
      rewrite Hrun in Hfiles. exact Hfiles.
    + destruct (finished_run_in_full lib Hrun)
        as (xr1 & yr1 & z1 & x1 & y1 & ch1 & chb0 & chb1 & m1 & xr2 & yr2
            & zr2 & x2 & y2 & z2 & ch2 & chb2 & box & m2 & L1 & _ & _ & Sx1
            & Sy1 & C1 & B0 & M1 & E1 & _ & L2 & Sx2 & Sy2 & _ & C2 & M2
            & E2 & _).
      exists xr1, yr1, z1, x1, y1, ch1, chb0, chb1,
        xr2, yr2, zr2, x2, y2, z2, ch2, chb2.
      tauto.
  - exact round_trip_of_eastings.
  - exact round_trip_of_northings.
Qed.

Lemma export_restores_utm_frame_witness :
  flat_map file_written (snd (notebook Demo.lib []))
  = [[Pos (PStr "../modeling/centerlines/t1_final_centerline.shp")];
     [Pos (PStr "../modeling/centerlines/t2_final_centerline.shp")]]
  /\ map (fun v => v + 560000) (local_x [562800.123456789; 563995])
     = [562800.123456789; 563995]
  /\ map (fun v => v + 4300000) (local_y [4302600.5; 4302839])
     = [4302600.5; 4302839].
Proof.
  destruct export_restores_utm_frame as (_ & Hrun & Hx & Hy).
  split; [exact (proj1 (Hrun Demo.lib _ demo_run))|].
  split; [apply Hx | apply Hy];
    repeat (constructor; [split; reflexivity|]); constructor.
Defined.



(** C5, as stated, fails: [mp.build_3d_model] takes the channel width and
    the time step as keyword arguments [w=W] and [dt=dt]. *)
Lemma constants_by_keyword_counterexample :
  exists c,
    nth_error (snd (notebook Demo.lib [])) 28 = Some c
    /\ callee c = "build_3d_model"%string
    /\ In (Kw "w" (PInt W)) (args c)
    /\ In (Kw "dt" (PFloat dt)) (args c)
    /\ existsb is_keyword (args c) = true.
Proof.
  eexists. split; [vm_compute; reflexivity|].
  split; [reflexivity|]. split; [|split; [|reflexivity]].
  - do 4 right. left. reflexivity.
  - do 9 right. left. vm_compute. reflexivity.
Qed.

(** C5, amended: [mp.Channel] takes the width and the depth, and
    [chb.migrate] takes the depths, the friction factors, the migration
    rate constant, the time step and the aggradation rate, as positional
    arguments; [mp.build_3d_model] takes the belt and the model type
    positionally and the width and the time step by keyword.  A run that
    finishes makes each of these calls twice. *)
Theorem constants_positional_except_model_builder :
  forall lib : Library,
    Forall passes_constants (snd (notebook lib []))
    /\ match notebook lib [] with
       | (Ok _, log) =>
           flat_map takes_constants log
           = ["Channel"; "migrate"; "build_3d_model";
              "Channel"; "migrate"; "build_3d_model"]%string
       | (Raise _, log) =>
           exists rest,
             flat_map takes_constants log ++ rest
             = ["Channel"; "migrate"; "build_3d_model";
                "Channel"; "migrate"; "build_3d_model"]%string
       end.
Proof.
  intros lib. split.
  - pose proof (notebook_passes_constants lib) as Hall.
    unfold respects in Hall. specialize (Hall [] (Forall_nil _)).
    destruct (notebook lib []) as [[v|e] log]; exact Hall.
  - apply run_emits, notebook_takes_constants.
Qed.

(** C6: the files read are the two shapefiles
    [../modeling/centerlines/t1_initial_centerline.shp] and
    [../modeling/centerlines/t2_initial_centerline.shp], in that order and
    once each in a run that finishes; nothing depends on what either file
    holds after its first geometry; and the first geometry is used: its
    [x] and [y] are what [np.ones_like] and [mp.resample_centerline] are
    called on, right after the read and in every finished run. *)
Theorem reads_two_centerlines :
  forall lib : Library,
    match notebook lib [] with
    | (Ok _, log) =>
        flat_map file_read log
        = [fn geopandas "read_file"
             [Pos (PStr "../modeling/centerlines/t1_initial_centerline.shp")];
           fn geopandas "read_file"
             [Pos (PStr "../modeling/centerlines/t2_initial_centerline.shp")]]
    | (Raise _, log) =>
        exists rest,
          flat_map file_read log ++ rest
          = [fn geopandas "read_file"
               [Pos (PStr "../modeling/centerlines/t1_initial_centerline.shp")];
             fn geopandas "read_file"
               [Pos (PStr "../modeling/centerlines/t2_initial_centerline.shp")]]
    end
    /\ notebook lib [] = notebook (first_geometry_only lib) []
    /\ (forall log, notebook lib [] = (Ok tt, log) ->
          exists xr1 yr1 zr1 xr2 yr2 zr2,
            loaded lib log t1_initial xr1 yr1 zr1
            /\ loaded lib log t2_initial xr2 yr2 zr2)
    /\ (forall (h : list call) (g : GeoDataFrame) (line : geometry)
               (xs ys : ndarray),
          index g 0 = Ok line -> xy line = Ok (xs, ys) ->
          (lib h (read_call t1_initial) = Ok (PGeoDataFrame g) ->
             exists rest,
               snd (cell_06 lib h)
               = h ++ read_call t1_initial :: ones_like_call xs :: rest
               /\ (forall a,
                     lib (h ++ [read_call t1_initial]) (ones_like_call xs)
                     = Ok a ->
                     exists rest',
                       rest = resample_call xs ys
                                (repeat 1%float (List.length xs)) :: rest'))
          /\ (lib h (read_call t2_initial) = Ok (PGeoDataFrame g) ->
                exists rest,
                  snd (cell_19 lib h)
                  = h ++ read_call t2_initial :: ones_like_call xs :: rest
                  /\ (forall a,
                        lib (h ++ [read_call t2_initial]) (ones_like_call xs)
                        = Ok a ->
                        exists rest',
                          rest = resample_call xs ys
                                   (repeat 1%float (List.length xs))
                                 :: rest'))).
Proof.
  intros lib. split; [|split; [|split]].
  - apply run_emits, notebook_files_read.
  - apply notebook_first_geometry.
  - intros log Hrun.
    destruct (finished_run_in_full lib Hrun)
      as (xr1 & yr1 & z1 & x1 & y1 & ch1 & chb0 & chb1 & m1 & xr2 & yr2
          & zr2 & x2 & y2 & z2 & ch2 & chb2 & box & m2 & L1 & _ & _ & _
          & _ & _ & _ & _ & _ & _ & L2 & _).
    exists xr1, yr1, z1, xr2, yr2, zr2. split; assumption.
  - intros h g line xs ys. apply first_line_is_used.
Qed.

Lemma reads_two_centerlines_witness :
  exists xr1 yr1 zr1 xr2 yr2 zr2,
    loaded Demo.lib (snd (notebook Demo.lib [])) t1_initial xr1 yr1 zr1
    /\ loaded Demo.lib (snd (notebook Demo.lib [])) t2_initial xr2 yr2 zr2.
Proof.
  destruct (reads_two_centerlines Demo.lib) as (_ & _ & Hload & _).
  exact (Hload _ demo_run).
Defined.

(* ===================================================================== *)
(** * Part 10: the claims about [generate_z_coordinates_with_constant] *)
(* ===================================================================== *)

(** C7, as stated, fails twice.  On [float64] bounds 0 and 1 with a ramp of
    49 steps the last entry is about 1.1e-16, not the lower bound; and with
    a negative count the array is longer than [x_coordinates]. *)
Lemma ramp_profile_counterexample :
  (exists zs v,
     generate_z_coordinates_with_constant nodes50 nodes50 0 0%float 1%float
       = Ok zs
     /\ PrimFloat.leb 0 1 = true
     /\ (0 + 1 < len nodes50)%Z
     /\ index zs (-1) = Ok v
     /\ PrimFloat.eqb v 0 = false)
  /\ (exists zs,
        generate_z_coordinates_with_constant nodes5 nodes5 (-1) 1%Q 3%Q = Ok zs
        /\ (1 <= 3)%Q
        /\ (-1 + 1 < len nodes5)%Z
        /\ len zs <> len nodes5).
Proof.
  split.
  - eexists. eexists. split; [vm_compute; reflexivity|].
    split; [reflexivity|]. split; [reflexivity|].
    split; vm_compute; reflexivity.
  - eexists. split; [vm_compute; reflexivity|].
    split; [discriminate|]. split; [reflexivity|]. discriminate.
Qed.

(** C7, amended: with a count that is not negative and at least two ramp
    nodes, the function returns an array as long as [x_coordinates] whose
    first [constant_values_count] entries are the upper bound and whose
    other entries are the clamped ramp values, whatever the kind of number;
    on [float64] bounds with [lower_bound <= upper_bound] every entry is a
    NaN or lies between the bounds;
    on exact numbers with [lower_bound <= upper_bound] the ramp entries
    are [upper - (i - count) * (upper - lower) / (len - count - 1)], the
    last entry equals the lower bound, and every entry lies between the
    bounds. *)
Theorem plateau_then_ramp :
  (forall (A : Type) (NA : Number A) (T : Type) (x y : list T) (c : Z)
          (lb ub step : A),
      (0 <= c)%Z -> (c + 1 < len x)%Z ->
      div (sub ub lb) (of_int (ramp_divisor x c)) = Ok step ->
      exists zs,
        generate_z_coordinates_with_constant x y c lb ub = Ok zs
        /\ len zs = len x
        /\ (forall i, (0 <= i < c)%Z -> index zs i = Ok ub)
        /\ (forall i, (c <= i < len x)%Z ->
              index zs i = Ok (ramp_entry c lb ub step i)))
  /\ (forall (T : Type) (x y : list T) (c : Z) (lb ub : float),
        (0 <= c)%Z -> PrimFloat.leb lb ub = true -> (c + 1 < len x)%Z ->
        exists zs,
          generate_z_coordinates_with_constant x y c lb ub = Ok zs
          /\ len zs = len x
          /\ (forall i, (0 <= i < c)%Z -> index zs i = Ok ub)
          /\ (forall v, In v zs ->
                ~ a_number v
                \/ (PrimFloat.leb lb v = true /\ PrimFloat.leb v ub = true)))
  /\ (forall (T : Type) (x y : list T) (c : Z) (lb ub : Q),
        (0 <= c)%Z -> (lb <= ub)%Q -> (c + 1 < len x)%Z ->
        exists zs,
          generate_z_coordinates_with_constant x y c lb ub = Ok zs
          /\ len zs = len x
          /\ (forall i, (0 <= i < c)%Z -> index zs i = Ok ub)
          /\ (forall i, (c <= i < len x)%Z ->
                index zs i
                = Ok (ub - inject_Z (i - c)
                           * ((ub - lb) / inject_Z (len x - c - 1)))%Q)
          /\ (exists v, index zs (-1) = Ok v /\ (v == lb)%Q)
          /\ (forall v, In v zs -> (lb <= v <= ub)%Q)).
Proof.
  split; [|split].
  - intros A NA T x y c lb ub step Hc Hn Hdiv.
    apply generate_z_shape; [lia | assumption].
  - intros T x y c lb ub Hc Hb Hn.
    assert (Hc' : (0 <= c < len x)%Z) by lia.
    destruct (@generate_z_shape float float64 T x y c lb ub _ Hc' eq_refl)
      as (zs & Hzs & Hlen & Hflat & _).
    exists zs. repeat split; try assumption.
    intros v Hin. rewrite float64_returns in Hzs by lia.
    injection Hzs as <-. apply in_app_or in Hin as [Hin|Hin].
    + apply repeat_spec in Hin. subst v. right.
      destruct (leb_numbers _ _ Hb) as [_ Hub]. auto.
    + apply in_map_iff in Hin as (i & <- & _). apply clamp_float64, Hb.
  - intros T x y c lb ub Hc Hb Hn.
    set (m := (len x - c - 1)%Z).
    set (r := fun i => (ub - inject_Z (i - c) * ((ub - lb) / inject_Z m))%Q).
    assert (Hdiv : div (sub ub lb) (of_int (ramp_divisor x c))
                   = Ok ((ub - lb) / inject_Z m)%Q)
      by (apply fraction_div; unfold ramp_divisor; lia).
    assert (Hc' : (0 <= c < len x)%Z) by lia.
    destruct (@generate_z_shape Q Fraction T x y c lb ub _ Hc' Hdiv)
      as (zs & Hzs & Hlen & Hflat & Hramp).
    assert (Hentry : forall i, (c <= i < len x)%Z -> index zs i = Ok (r i)).
    { intros i Hi. rewrite Hramp by assumption. f_equal.
      unfold ramp_entry. apply clamp_within.
      apply ramp_within; lia || assumption. }
    exists zs. repeat split; try assumption.
    + exists (r (len x - 1)%Z). split.
      * rewrite (index_last zs 0%Q) by lia.
        rewrite <- (index_nth zs 0%Q) by lia.
        rewrite Hlen. apply Hentry. lia.
      * unfold r. replace (len x - 1 - c)%Z with m by (unfold m; lia).
        apply ramp_end. unfold m. lia.
    + rewrite fraction_returns in Hzs by assumption.
      injection Hzs as <-. apply in_app_or in H as [Hin|Hin].
      * apply repeat_spec in Hin. subst v. assumption.
      * apply in_map_iff in Hin as (i & <- & Hi). apply range_In in Hi.
        apply ramp_within; lia || assumption.
    + rewrite fraction_returns in Hzs by assumption.
      injection Hzs as <-. apply in_app_or in H as [Hin|Hin].
      * apply repeat_spec in Hin. subst v. apply Qle_refl.
      * apply in_map_iff in Hin as (i & <- & Hi). apply range_In in Hi.
        apply ramp_within; lia || assumption.
Qed.

Lemma plateau_then_ramp_witness :
  (exists zs,
     generate_z_coordinates_with_constant nodes50 nodes50 3 0%float 1%float
       = Ok zs
     /\ len zs = len nodes50
     /\ (forall i, (0 <= i < 3)%Z -> index zs i = Ok 1%float)
     /\ (forall i, (3 <= i < len nodes50)%Z ->
           index zs i = Ok (ramp_entry 3 0%float 1%float (1 / 46)%float i)))
  /\ (exists zs,
        generate_z_coordinates_with_constant nodes50 nodes50 3 0%float 1%float
          = Ok zs
        /\ len zs = len nodes50
        /\ (forall i, (0 <= i < 3)%Z -> index zs i = Ok 1%float)
        /\ (forall v, In v zs ->
              ~ a_number v
              \/ (PrimFloat.leb 0 v = true /\ PrimFloat.leb v 1 = true)))
  /\ (exists zs,
        generate_z_coordinates_with_constant nodes5 nodes5 2 1%Q 3%Q = Ok zs
        /\ len zs = len nodes5
        /\ (forall i, (0 <= i < 2)%Z -> index zs i = Ok 3%Q)
        /\ (forall i, (2 <= i < len nodes5)%Z ->
              index zs i
              = Ok (3 - inject_Z (i - 2)
                        * ((3 - 1) / inject_Z (len nodes5 - 2 - 1)))%Q)
        /\ (exists v, index zs (-1) = Ok v /\ (v == 1)%Q)
        /\ (forall v, In v zs -> (1 <= v <= 3)%Q)).
Proof.
  destruct plateau_then_ramp as [Hshape [Hfloat Hexact]]. split; [|split].
  - apply (Hshape float float64 float nodes50 nodes50 3%Z
             0%float 1%float (1 / 46)%float).
    + lia.
    + vm_compute. reflexivity.
    + vm_compute. reflexivity.
  - apply (Hfloat float nodes50 nodes50 3%Z 0%float 1%float).
    + lia.
    + vm_compute. reflexivity.
    + vm_compute. reflexivity.
  - apply (Hexact Q nodes5 nodes5 2%Z 1%Q 3%Q).
    + lia.
    + unfold Qle. simpl. lia.
    + vm_compute. reflexivity.
Defined.

(** C8: the function is partial at its boundary.  With
    [constant_values_count >= len(x_coordinates)] the loop runs over an
    empty range and the [return] finds [z_coords] unbound.  With
    [len(x_coordinates) = constant_values_count + 1] the loop runs once and
    its divisor is zero: the call ends as that division ends. *)
Theorem partial_at_boundary :
  forall (A : Type) (NA : Number A) (T : Type) (x y : list T) (c : Z)
         (lb ub : A),
    ((len x <= c)%Z ->
       range c (len x) = []
       /\ generate_z_coordinates_with_constant x y c lb ub
          = Raise (UnboundLocalError "z_coords"))
    /\ (len x = (c + 1)%Z ->
          ramp_divisor x c = 0%Z
          /\ range c (len x) = [c]
          /\ generate_z_coordinates_with_constant x y c lb ub
             = (step <- div (sub ub lb) (of_int 0) ;;
                Ok (list_repeat ub c ++ [ramp_entry c lb ub step c]))%py).
Proof.
  intros A NA T x y c lb ub. split.
  - intros Hle. split.
    + apply range_nil. assumption.
    + apply generate_z_unbound. assumption.
  - intros Hlen.
    assert (Hdivisor : ramp_divisor x c = 0%Z) by (unfold ramp_divisor; lia).
    assert (Hrange : range c (len x) = [c]).
    { rewrite range_cons by lia. rewrite range_nil by lia. reflexivity. }
    repeat split; try assumption.
    rewrite <- Hdivisor.
    destruct (div (sub ub lb) (of_int (ramp_divisor x c))) as [step|e] eqn:Hdiv.
    + rewrite generate_z_returns with (step := step) by (lia || assumption).
      rewrite Hrange. simpl. do 3 f_equal. lia.
    + apply generate_z_raises; [lia | assumption].
Qed.

Lemma partial_at_boundary_witness :
  generate_z_coordinates_with_constant nodes5 nodes5 5 1%Q 3%Q
    = Raise (UnboundLocalError "z_coords")
  /\ ramp_divisor nodes5 4 = 0%Z
  /\ generate_z_coordinates_with_constant nodes5 nodes5 4 1%Q 3%Q
     = Raise ZeroDivisionError.
Proof.
  pose proof (partial_at_boundary Fraction nodes5 nodes5 5%Z 1%Q 3%Q) as H5.
  pose proof (partial_at_boundary Fraction nodes5 nodes5 4%Z 1%Q 3%Q) as H4.
  split; [|split].
  - apply (proj1 H5). vm_compute. discriminate.
  - apply (proj2 H4). reflexivity.
  - rewrite (proj2 (proj2 (proj2 H4 eq_refl))). reflexivity.
Defined.

(** C9, as stated, fails on [float64] when [upper_bound - lower_bound]
    overflows: the ramp step is infinite, the first ramp entry is a NaN,
    and a NaN is not below the plateau before it. *)
Lemma descending_counterexample :
  exists zs a b,
    generate_z_coordinates_with_constant nodes50 nodes50 2
      (- float_max)%float float_max = Ok zs
    /\ PrimFloat.leb (- float_max) float_max = true
    /\ (2 + 1 < len nodes50)%Z
    /\ index zs 1 = Ok a
    /\ index zs 2 = Ok b
    /\ PrimFloat.leb b a = false.
Proof.
  do 3 eexists. split; [vm_compute; reflexivity|].
  split; [reflexivity|]. split; [reflexivity|].
  split; [vm_compute; reflexivity|]. split; vm_compute; reflexivity.
Qed.

(** C9, amended: with [lower_bound <= upper_bound] and at least two ramp
    nodes, each entry of the returned array is at most the entry before
    it: always on exact numbers, and on [float64] whenever the ramp step
    [(upper_bound - lower_bound) / (len(x_coordinates) -
    constant_values_count - 1)] is finite, that is, unless the difference
    of the bounds overflows (the ramp being at most [2 ^ 53] nodes long,
    so that node counts are binary64 numbers). *)
Theorem descending_without_overflow :
  forall (T : Type) (x y : list T) (c : Z),
    (c + 1 < len x)%Z ->
    (forall lb ub : Q,
       (lb <= ub)%Q ->
       exists zs,
         generate_z_coordinates_with_constant x y c lb ub = Ok zs
         /\ Sorted (fun before after => (after <= before)%Q) zs)
    /\ (forall lb ub : float,
          PrimFloat.leb lb ub = true ->
          (len x - c <= 9007199254740992)%Z ->
          PrimFloat.is_finite
            ((ub - lb) / float64_of_int (len x - c - 1)) = true ->
          exists zs,
            generate_z_coordinates_with_constant x y c lb ub = Ok zs
            /\ Sorted (fun before after => PrimFloat.leb after before = true)
                 zs).
Proof.
  intros T x y c Hn. split.
  - intros lb ub Hb.
    rewrite fraction_returns by assumption.
    eexists. split; [reflexivity|].
    set (m := (len x - c - 1)%Z).
    assert (Hm : (0 < m)%Z) by (unfold m; lia).
    apply sorted_repeat_app.
    + apply Qle_refl.
    + rewrite range_cons by lia. simpl. constructor.
      replace (c - c)%Z with 0%Z by lia.
      apply (ramp_within (k := 0) Hb Hm). lia.
    + apply sorted_map_range. intros i Hi Hi'.
      replace (i + 1 - c)%Z with (i - c + 1)%Z by lia.
      apply ramp_descends; assumption.
  - intros lb ub Hb Hlen Hfin. apply float64_descends; assumption.
Qed.

Lemma descending_without_overflow_witness :
  (exists zs,
     generate_z_coordinates_with_constant nodes5 nodes5 (-1) 1%Q 3%Q = Ok zs
     /\ Sorted (fun before after => (after <= before)%Q) zs)
  /\ (exists zs,
        generate_z_coordinates_with_constant nodes50 nodes50 2 0.1 0.7 = Ok zs
        /\ Sorted (fun before after => PrimFloat.leb after before = true) zs).
Proof.
  split.
  - apply (descending_without_overflow nodes5 nodes5 (-1)%Z).
    + vm_compute. reflexivity.
    + unfold Qle. simpl. lia.
  - apply (descending_without_overflow nodes50 nodes50 2%Z).
    + vm_compute. reflexivity.
    + reflexivity.
    + vm_compute. discriminate.
    + vm_compute. reflexivity.
Defined.

(* ===================================================================== *)
(** * Part 11: further properties of the notebook's own code *)
(* ===================================================================== *)

(** ** [generate_z_coordinates_with_constant] *)

(** X1: the function reads nothing of [x_coordinates] but its length, and
    nothing of [y_coordinates] at all. *)
Theorem elevations_depend_on_length_only :
  forall (A : Type) (NA : Number A) (T U : Type) (x y : list T)
         (x' y' : list U) (c : Z) (lb ub : A),
    len x = len x' ->
    generate_z_coordinates_with_constant x y c lb ub
    = generate_z_coordinates_with_constant x' y' c lb ub.
Proof.
  intros A NA T U x y x' y' c lb ub Hlen.
  unfold generate_z_coordinates_with_constant. rewrite Hlen.
  rewrite for_each_ext with (body' := loop_body x' c lb ub); [reflexivity|].
  intros i s. unfold loop_body, ramp_divisor. now rewrite Hlen.
Qed.

Lemma elevations_depend_on_length_only_witness :
  generate_z_coordinates_with_constant nodes5 nodes5 2 1%Q 3%Q
  = generate_z_coordinates_with_constant
      [true; false; true; false; true] (@nil bool) 2 1%Q 3%Q.
Proof.
  apply (@elevations_depend_on_length_only Q Fraction Q bool).
  reflexivity.
Defined.

(** X2: a negative count lengthens the array.  The loop then starts at
    the negative index, so the array has [len(x_coordinates) - count]
    entries, none of them from the plateau: entry [k] is the ramp value of
    index [count + k]. *)
Theorem negative_count_lengthens :
  forall (A : Type) (NA : Number A) (T : Type) (x y : list T) (c : Z)
         (lb ub step : A),
    (c < 0)%Z ->
    div (sub ub lb) (of_int (ramp_divisor x c)) = Ok step ->
    exists zs,
      generate_z_coordinates_with_constant x y c lb ub = Ok zs
      /\ len zs = (len x - c)%Z
      /\ (forall k, (0 <= k < len x - c)%Z ->
            index zs k = Ok (ramp_entry c lb ub step (c + k))).
Proof.
  intros A NA T x y c lb ub step Hc Hdiv.
  assert (Hn : (0 <= len x)%Z) by (unfold len; lia).
  rewrite generate_z_returns with (step := step) by (lia || assumption).
  unfold list_repeat. replace (Z.to_nat (Z.min c (len x))) with 0%nat by lia.
  simpl. eexists. split; [reflexivity|].
  assert (Hlen : len (map (ramp_entry c lb ub step) (range c (len x)))
                 = (len x - c)%Z).
  { rewrite len_map, len_range. lia. }
  split; [exact Hlen|].
  intros k Hk. rewrite (index_nth _ ub) by lia. f_equal.
  transitivity (nth (Z.to_nat k) (map (ramp_entry c lb ub step)
                                      (range c (len x)))
                    (ramp_entry c lb ub step 0)).
  - apply nth_indep. rewrite length_map, range_length. lia.
  - rewrite map_nth. rewrite range_nth by lia. f_equal. lia.
Qed.

Lemma negative_count_lengthens_witness :
  exists zs,
    generate_z_coordinates_with_constant nodes5 nodes5 (-2) 1%Q 3%Q = Ok zs
    /\ len zs = (len nodes5 - -2)%Z
    /\ (forall k, (0 <= k < len nodes5 - -2)%Z ->
          index zs k = Ok (ramp_entry (-2) 1%Q 3%Q ((3 - 1) / 6)%Q (-2 + k))).
Proof.
  apply (@negative_count_lengthens Q Fraction Q nodes5 nodes5 (-2)%Z
           1%Q 3%Q ((3 - 1) / 6)%Q).
  - lia.
  - reflexivity.
Defined.

(** X3: on [float64] bounds the boundary case
    [len(x_coordinates) == constant_values_count + 1] does not raise.  The
    quotient by zero is an infinity or a NaN, zero times it is a NaN, and
    the clamping line hands the NaN through: the array is the plateau
    followed by one NaN. *)
Theorem float64_boundary_is_nan :
  forall (T : Type) (x y : list T) (c : Z) (lb ub : float),
    len x = (c + 1)%Z ->
    exists v,
      generate_z_coordinates_with_constant x y c lb ub
      = Ok (list_repeat ub c ++ [v])
      /\ ~ a_number v.
Proof.
  intros T x y c lb ub Hlen.
  rewrite float64_returns by lia.
  rewrite Hlen, range_cons, range_nil by lia.
  replace (Z.min c (c + 1)) with c by lia.
  eexists. split; [reflexivity|].
  unfold ramp_entry, ramp_divisor. rewrite Hlen.
  replace (c + 1 - c - 1)%Z with 0%Z by lia. rewrite Z.sub_diag. simpl.
  change (float64_of_int 0) with 0%float.
  pose proof (nan_is_no_number _ (zero_times_quotient_by_zero ub (ub - lb)))
    as Hnan.
  now rewrite clamp_nan.
Qed.

Lemma float64_boundary_is_nan_witness :
  exists v,
    generate_z_coordinates_with_constant nodes50 nodes50 49 0%float 1%float
    = Ok (list_repeat 1%float 49 ++ [v])
    /\ ~ a_number v.
Proof.
  apply (@float64_boundary_is_nan float nodes50 nodes50 49%Z 0%float 1%float).
  reflexivity.
Defined.

(** X4: on [float64] bounds the call returns exactly when
    [constant_values_count < len(x_coordinates)], and the array then has
    [len(x_coordinates) - min(constant_values_count, 0)] entries. *)
Theorem float64_returns_or_unbound :
  forall (T : Type) (x y : list T) (c : Z) (lb ub : float),
    ((len x <= c)%Z ->
       generate_z_coordinates_with_constant x y c lb ub
       = Raise (UnboundLocalError "z_coords"))
    /\ ((c < len x)%Z ->
          exists zs,
            generate_z_coordinates_with_constant x y c lb ub = Ok zs
            /\ len zs = (len x - Z.min c 0)%Z).
Proof.
  intros T x y c lb ub. split.
  - intros Hle. now apply generate_z_unbound.
  - intros Hlt. rewrite float64_returns by assumption.
    eexists. split; [reflexivity|].
    rewrite len_app, len_list_repeat, len_map, len_range.
    assert (Hn : (0 <= len x)%Z) by (unfold len; lia). lia.
Qed.

Lemma float64_returns_or_unbound_witness :
  generate_z_coordinates_with_constant nodes50 nodes50 50 0%float 1%float
  = Raise (UnboundLocalError "z_coords")
  /\ exists zs,
       generate_z_coordinates_with_constant nodes50 nodes50 (-3) 0%float 1%float
       = Ok zs
       /\ len zs = (len nodes50 - Z.min (-3) 0)%Z.
Proof.
  split.
  - apply (proj1 (@float64_returns_or_unbound float nodes50 nodes50 50%Z
                    0%float 1%float)).
    vm_compute. discriminate.
  - apply (proj2 (@float64_returns_or_unbound float nodes50 nodes50 (-3)%Z
                    0%float 1%float)).
    reflexivity.
Defined.

(** X5: with the bounds the wrong way round,
    [upper_bound < lower_bound], the clamping line gives the lower bound
    the last word: after a plateau at the upper bound every entry is the
    lower bound (on [float64], the lower bound or a NaN). *)
Theorem swapped_bounds_flatten_the_ramp :
  (forall (T : Type) (x y : list T) (c : Z) (lb ub : Q),
      (ub < lb)%Q -> (0 <= c)%Z -> (c + 1 < len x)%Z ->
      exists zs,
        generate_z_coordinates_with_constant x y c lb ub = Ok zs
        /\ (forall i, (0 <= i < c)%Z -> index zs i = Ok ub)
        /\ (forall i, (c <= i < len x)%Z -> index zs i = Ok lb))
  /\ (forall (T : Type) (x y : list T) (c : Z) (lb ub : float),
        PrimFloat.ltb ub lb = true -> (0 <= c < len x)%Z ->
        exists zs,
          generate_z_coordinates_with_constant x y c lb ub = Ok zs
          /\ (forall i, (0 <= i < c)%Z -> index zs i = Ok ub)
          /\ (forall i, (c <= i < len x)%Z ->
                exists v, index zs i = Ok v /\ (~ a_number v \/ v = lb))).
Proof.
  split.
  - intros T x y c lb ub Hb Hc Hn.
    assert (Hdiv : div (sub ub lb) (of_int (ramp_divisor x c))
                   = Ok ((ub - lb) / inject_Z (ramp_divisor x c))%Q)
      by (apply fraction_div; unfold ramp_divisor; lia).
    assert (Hc' : (0 <= c < len x)%Z) by lia.
    destruct (@generate_z_shape Q Fraction T x y c lb ub _ Hc' Hdiv)
      as (zs & Hzs & _ & Hflat & Hramp).
    exists zs. split; [exact Hzs|]. split; [exact Hflat|].
    intros i Hi. rewrite Hramp by assumption. f_equal.
    unfold ramp_entry. now apply clamp_swapped.
  - intros T x y c lb ub Hb Hc.
    destruct (@generate_z_shape float float64 T x y c lb ub _ Hc eq_refl)
      as (zs & Hzs & _ & Hflat & Hramp).
    exists zs. split; [exact Hzs|]. split; [exact Hflat|].
    intros i Hi. eexists. split; [apply Hramp; assumption|].
    unfold ramp_entry. now apply clamp_swapped_float64.
Qed.

Lemma swapped_bounds_flatten_the_ramp_witness :
  (exists zs,
     generate_z_coordinates_with_constant nodes5 nodes5 2 3%Q 1%Q = Ok zs
     /\ (forall i, (0 <= i < 2)%Z -> index zs i = Ok 1%Q)
     /\ (forall i, (2 <= i < len nodes5)%Z -> index zs i = Ok 3%Q))
  /\ (exists zs,
        generate_z_coordinates_with_constant nodes50 nodes50 3 1%float 0%float
        = Ok zs
        /\ (forall i, (0 <= i < 3)%Z -> index zs i = Ok 0%float)
        /\ (forall i, (3 <= i < len nodes50)%Z ->
              exists v, index zs i = Ok v
                        /\ (~ a_number v \/ v = 1%float))).
Proof.
  destruct swapped_bounds_flatten_the_ramp as [Hexact Hfloat]. split.
  - apply (Hexact Q nodes5 nodes5 2%Z 3%Q 1%Q).
    + reflexivity.
    + lia.
    + vm_compute. reflexivity.
  - apply (Hfloat float nodes50 nodes50 3%Z 1%float 0%float).
    + reflexivity.
    + vm_compute. split; [discriminate | reflexivity].
Defined.

(** X6: on exact numbers with [lower_bound < upper_bound] the ramp falls
    strictly: from the node on, each entry is below the one before it. *)
Theorem ramp_falls_strictly :
  forall (T : Type) (x y : list T) (c : Z) (lb ub : Q),
    (lb < ub)%Q -> (0 <= c)%Z -> (c + 1 < len x)%Z ->
    exists zs,
      generate_z_coordinates_with_constant x y c lb ub = Ok zs
      /\ (forall i, (c <= i)%Z -> (i + 1 < len x)%Z ->
            exists a b,
              index zs i = Ok a /\ index zs (i + 1) = Ok b /\ (b < a)%Q).
Proof.
  intros T x y c lb ub Hb Hc Hn.
  set (m := (len x - c - 1)%Z).
  assert (Hm : (0 < m)%Z) by (unfold m; lia).
  assert (Hm' : (0 < inject_Z m)%Q)
    by (change (inject_Z 0 < inject_Z m)%Q; rewrite <- Zlt_Qlt; lia).
  assert (Hdiv : div (sub ub lb) (of_int (ramp_divisor x c))
                 = Ok ((ub - lb) / inject_Z m)%Q)
    by (apply fraction_div; unfold ramp_divisor; lia).
  assert (Hc' : (0 <= c < len x)%Z) by lia.
  destruct (@generate_z_shape Q Fraction T x y c lb ub _ Hc' Hdiv)
    as (zs & Hzs & _ & _ & Hramp).
  assert (Hle : (lb <= ub)%Q) by lra.
  assert (Hentry : forall i, (c <= i < len x)%Z ->
            index zs i
            = Ok (ub - inject_Z (i - c) * ((ub - lb) / inject_Z m))%Q).
  { intros i Hi. rewrite Hramp by assumption. f_equal.
    unfold ramp_entry. apply clamp_within.
    apply ramp_within; unfold m; lia || assumption. }
  exists zs. split; [exact Hzs|].
  intros i Hi Hi'. do 2 eexists.
  split; [apply Hentry; lia|]. split; [apply Hentry; lia|].
  assert (Hd : (0 < (ub - lb) / inject_Z m)%Q).
  { apply Qlt_shift_div_l; [assumption|]. lra. }
  replace (i + 1 - c)%Z with (i - c + 1)%Z by lia.
  rewrite inject_Z_plus. change (inject_Z 1) with 1%Q. lra.
Qed.

Lemma ramp_falls_strictly_witness :
  exists zs,
    generate_z_coordinates_with_constant nodes5 nodes5 1 1%Q 3%Q = Ok zs
    /\ (forall i, (1 <= i)%Z -> (i + 1 < len nodes5)%Z ->
          exists a b,
            index zs i = Ok a /\ index zs (i + 1) = Ok b /\ (b < a)%Q).
Proof.
  apply (@ramp_falls_strictly Q nodes5 nodes5 1%Z 1%Q 3%Q).
  - reflexivity.
  - lia.
  - vm_compute. reflexivity.
Defined.

(** ** The bounding box of cell 36 *)

(** X7: the bounding box needs a node of everything.  It is returned
    exactly when the belt has a channel and every channel has at least one
    [x] and one [y]; an empty belt raises [IndexError] and a channel
    without nodes [ValueError]. *)
Theorem bounding_box_needs_nodes :
  forall chb : ChannelBelt.t,
    match bounding_box chb with
    | Ok _ =>
        ChannelBelt.channels chb <> []
        /\ Forall has_nodes (ChannelBelt.channels chb)
    | Raise e =>
        (e = IndexError /\ ChannelBelt.channels chb = [])
        \/ (e = ValueError
            /\ Exists (fun ch => Channel.x ch = [] \/ Channel.y ch = [])
                      (ChannelBelt.channels chb))
    end.
Proof.
  intros chb. rewrite bounding_box_unfold.
  destruct (ChannelBelt.channels chb) as [|ch0 rest] eqn:Hchs.
  - left. auto.
  - change (index (ch0 :: rest) 0) with (Ok ch0). cbn [bind].
    destruct (Channel.x ch0) as [|x0 xs] eqn:Hx.
    { right. split; [reflexivity|]. left. now left. }
    destruct (Channel.y ch0) as [|y0 ys] eqn:Hy.
    { right. split; [reflexivity|]. left. now right. }
    cbn [min_of max_of bind].
    match goal with
    | |- match for_each _ _ ?b with _ => _ end =>
        pose proof (widen_all_nodes (ch0 :: rest) b) as Hloop;
        destruct (for_each (ch0 :: rest) widen b)
    end.
    + split; [discriminate | exact Hloop].
    + right. exact Hloop.
Qed.

(** X8: the four numbers of the bounding box are coordinates of nodes:
    each bound is the [x] (or [y]) of a node of some channel of the
    belt. *)
Theorem bounding_box_is_attained :
  forall (chb : ChannelBelt.t) (min_x max_x min_y max_y : float),
    bounding_box chb = Ok (min_x, max_x, min_y, max_y) ->
    x_node_of (ChannelBelt.channels chb) min_x
    /\ x_node_of (ChannelBelt.channels chb) max_x
    /\ y_node_of (ChannelBelt.channels chb) min_y
    /\ y_node_of (ChannelBelt.channels chb) max_y.
Proof.
  intros chb min_x max_x min_y max_y. rewrite bounding_box_unfold.
  destruct (index (ChannelBelt.channels chb) 0) as [ch0|] eqn:Hch0;
    [|discriminate].
  assert (Hin0 : In ch0 (ChannelBelt.channels chb)).
  { destruct (ChannelBelt.channels chb) as [|c0 rest]; [discriminate|].
    injection Hch0 as <-. now left. }
  cbn [bind].
  destruct (min_of (Channel.x ch0)) as [xa|] eqn:Hxa; [|discriminate].
  destruct (max_of (Channel.x ch0)) as [xb|] eqn:Hxb; [|discriminate].
  destruct (min_of (Channel.y ch0)) as [yc|] eqn:Hyc; [|discriminate].
  destruct (max_of (Channel.y ch0)) as [yd|] eqn:Hyd; [|discriminate].
  cbn [bind]. apply widen_attained.
  - apply incl_refl.
  - exists ch0. split; [assumption|]. now apply min_of_In.
  - exists ch0. split; [assumption|]. now apply max_of_In.
  - exists ch0. split; [assumption|]. now apply min_of_In.
  - exists ch0. split; [assumption|]. now apply max_of_In.
Qed.

Lemma bounding_box_is_attained_witness :
  x_node_of (ChannelBelt.channels Demo.belt) 1
  /\ x_node_of (ChannelBelt.channels Demo.belt) 2
  /\ y_node_of (ChannelBelt.channels Demo.belt) 3
  /\ y_node_of (ChannelBelt.channels Demo.belt) 4.
Proof.
  apply (@bounding_box_is_attained Demo.belt 1 2 3 4).
  vm_compute. reflexivity.
Defined.

(** X9: on coordinates that are all numbers the bounding box holds every
    node of every channel: [min_x <= x <= max_x] and
    [min_y <= y <= max_y]. *)
Theorem bounding_box_encloses :
  forall (chb : ChannelBelt.t) (box : float * float * float * float),
    Forall all_numbers (ChannelBelt.channels chb) ->
    bounding_box chb = Ok box ->
    Forall (encloses box) (ChannelBelt.channels chb).
Proof.
  intros chb [[[min_x max_x] min_y] max_y] Hall.
  rewrite bounding_box_unfold.
  destruct (index (ChannelBelt.channels chb) 0) as [ch0|] eqn:Hch0;
    [|discriminate].
  assert (Hin0 : In ch0 (ChannelBelt.channels chb)).
  { destruct (ChannelBelt.channels chb) as [|c0 rest]; [discriminate|].
    injection Hch0 as <-. now left. }
  destruct (proj1 (Forall_forall _ _) Hall ch0 Hin0) as [Hxs Hys].
  cbn [bind].
  destruct (min_of (Channel.x ch0)) as [xa|] eqn:Hxa; [|discriminate].
  destruct (max_of (Channel.x ch0)) as [xb|] eqn:Hxb; [|discriminate].
  destruct (min_of (Channel.y ch0)) as [yc|] eqn:Hyc; [|discriminate].
  destruct (max_of (Channel.y ch0)) as [yd|] eqn:Hyd; [|discriminate].
  cbn [bind]. intros Hloop.
  destruct (min_of_below _ _ Hxs Hxa) as [Nxa _].
  destruct (max_of_above _ _ Hxs Hxb) as [Nxb _].
  destruct (min_of_below _ _ Hys Hyc) as [Nyc _].
  destruct (max_of_above _ _ Hys Hyd) as [Nyd _].
  exact (proj2 (widen_encloses _ _ _ _ _ _ _ _ _ Hall Nxa Nxb Nyc Nyd Hloop)).
Qed.

Lemma bounding_box_encloses_witness :
  Forall (encloses (1, 2, 3, 4)) (ChannelBelt.channels Demo.belt).
Proof.
  apply (@bounding_box_encloses Demo.belt (1, 2, 3, 4)).
  - repeat constructor.
  - vm_compute. reflexivity.
Defined.

(** ** The facies volume of cells 43 and 46 *)

(** X10: the facies volume.  When cell 43 (or 46) finishes, the volume has
    the shape of [strat] less one layer, the model has no more facies
    codes than the volume has layers, layer [k] holds [facies[k] - 1]
    everywhere, and the layers past the last code stay zero. *)
Theorem facies_volume_layers :
  forall (lib : Library) (m : ChannelBelt3D.t) (h h' : list call)
         (v : ndarray3) (s0 s1 s2 : Z),
    shape (ChannelBelt3D.strat m) = (s0, s1, s2) ->
    facies_volume lib m h = (Ok v, h') ->
    shape v = (s0, s1, s2 - 1)%Z
    /\ len (flat v) = Z.max 0 (s0 * s1 * (s2 - 1))
    /\ (len (ChannelBelt3D.facies m) <= Z.max 0 (s2 - 1))%Z
    /\ (forall j code,
          (0 <= j < len (flat v))%Z ->
          index (ChannelBelt3D.facies m) (j mod (s2 - 1)) = Ok code ->
          index (flat v) j = Ok (code - float64_of_int 1))
    /\ (forall j,
          (0 <= j < len (flat v))%Z ->
          (len (ChannelBelt3D.facies m) <= j mod (s2 - 1))%Z ->
          index (flat v) j = Ok 0).
Proof.
  intros lib m h h' v s0 s1 s2 Hshape. rewrite facies_volume_unfold.
  destruct (lib h (zeros_call m)); [|discriminate].
  unfold zeros_like_strat. rewrite Hshape. intros Hrun.
  injection Hrun as Hrun _.
  destruct (spread_facies_spec m s0 s1 (s2 - 1)) as [Hfit Hover].
  destruct (Z_le_gt_dec (len (ChannelBelt3D.facies m)) (Z.max 0 (s2 - 1)))
    as [Hle|Hgt].
  - destruct (Hfit Hle) as (v' & Hv' & Hs & Hl & Hw & Hz).
    rewrite Hrun in Hv'. injection Hv' as <-. auto.
  - rewrite Hover in Hrun by lia. discriminate.
Qed.

Lemma facies_volume_layers_witness :
  exists v h',
    facies_volume Demo.lib Demo.model [] = (Ok v, h')
    /\ shape v = (2, 2, 3 - 1)%Z
    /\ len (flat v) = Z.max 0 (2 * 2 * (3 - 1))
    /\ (len (ChannelBelt3D.facies Demo.model) <= Z.max 0 (3 - 1))%Z
    /\ (forall j code,
          (0 <= j < len (flat v))%Z ->
          index (ChannelBelt3D.facies Demo.model) (j mod (3 - 1)) = Ok code ->
          index (flat v) j = Ok (code - float64_of_int 1))
    /\ (forall j,
          (0 <= j < len (flat v))%Z ->
          (len (ChannelBelt3D.facies Demo.model) <= j mod (3 - 1))%Z ->
          index (flat v) j = Ok 0).
Proof.
  eexists. eexists. split; [vm_compute; reflexivity|].
  eapply (@facies_volume_layers Demo.lib Demo.model [] _ _ 2%Z 2%Z 3%Z).
  - reflexivity.
  - vm_compute. reflexivity.
Defined.

(** X11: a model with more facies codes than the volume has layers stops
    the cell: once [np.zeros] has answered, the loop raises [IndexError]
    at the first layer that is not there. *)
Theorem facies_volume_overflow :
  forall (lib : Library) (m : ChannelBelt3D.t) (h : list call)
         (a : pyval) (s0 s1 s2 : Z),
    shape (ChannelBelt3D.strat m) = (s0, s1, s2) ->
    (Z.max 0 (s2 - 1) < len (ChannelBelt3D.facies m))%Z ->
    lib h (zeros_call m) = Ok a ->
    facies_volume lib m h = (Raise IndexError, h ++ [zeros_call m]).
Proof.
  intros lib m h a s0 s1 s2 Hshape Hover Ha.
  rewrite facies_volume_unfold, Ha. unfold zeros_like_strat.
  rewrite Hshape.
  now rewrite (proj2 (spread_facies_spec m s0 s1 (s2 - 1)) Hover).
Qed.

Lemma facies_volume_overflow_witness :
  facies_volume Demo.lib
    {| ChannelBelt3D.strat := Demo.volume;
       ChannelBelt3D.topo := Demo.volume;
       ChannelBelt3D.facies := [1; 2; 3] |} []
  = (Raise IndexError,
     [] ++ [zeros_call {| ChannelBelt3D.strat := Demo.volume;
                          ChannelBelt3D.topo := Demo.volume;
                          ChannelBelt3D.facies := [1; 2; 3] |}]).
Proof.
  apply (@facies_volume_overflow Demo.lib _ [] PNone 2%Z 2%Z 3%Z).
  - reflexivity.
  - vm_compute. reflexivity.
  - reflexivity.
Defined.
